(** * The page-tree consistency engine of GROWI, embedded in Rocq

    A shallow embedding of the page model
    ([packages/app/src/server/models/page.ts]) and of the page service
    ([PageService]): documents are records, a collection is the list of its
    documents in natural order, and every [async] method is a function in a
    state-and-exception monad over the database.  Regular expressions built
    from strings are parsed and run by a small engine written here.

    A string is the sequence of its UTF-16 code units, and the strings of the
    model are those whose code units are below 256: a character ([ascii]) is
    such a code unit. *)

From Stdlib Require Import List String Ascii Bool Arith ZArith Lia.
Import ListNotations.

Set Implicit Arguments.

(** ** Regular expressions

    The fragment of JavaScript regular expressions the sources build:
    literals, [.], character classes without ranges, groups, alternation,
    the quantifiers [*], [+], [?] (a lazy mark is accepted and ignored: only
    [test] is modelled), identity escapes and [\xHH].  [^] is accepted as the
    first character of a pattern and [$] as its last, both outside any group
    and alternation.  Anything else parses to [None]. *)
Module RegExp.

Inductive re : Type :=
| Void
| Eps
| Chr (c : ascii)
| AnyChar
| Cls (neg : bool) (cs : list ascii)
| Seq (r1 r2 : re)
| Alt (r1 r2 : re)
| Star (r : re).

Definition Plus (r : re) : re := Seq r (Star r).
Definition Opt (r : re) : re := Alt r Eps.

(** A group being parsed: the alternatives already closed (latest first)
    and the atoms of the current alternative (latest first). *)
Record frame : Type := mkFrame { alts : list re; cur : list re }.

Definition empty_frame : frame := mkFrame [] [].

Inductive qstate : Type := QNone | QDone | QLazy.

Inductive mode : Type :=
| Normal (q : qstate)
| Escaped
| HexHi
| HexLo (hi : nat)
| ClassOpen
| ClassBody (neg : bool) (cs : list ascii)
| ClassEsc (neg : bool) (cs : list ascii).

Definition seq_of (rev_atoms : list re) : re :=
  fold_left (fun acc a => Seq a acc) rev_atoms Eps.

Definition alt_of (rev_alts : list re) (last : re) : re :=
  fold_left (fun acc a => Alt a acc) rev_alts last.

Definition close_frame (f : frame) : re := alt_of (alts f) (seq_of (cur f)).

Definition push_atom (a : re) (f : frame) : frame :=
  mkFrame (alts f) (a :: cur f).

Definition quantify (k : re -> re) (f : frame) : option frame :=
  match cur f with
  | [] => None
  | a :: rest => Some (mkFrame (alts f) (k a :: rest))
  end.

Definition is_alnum (c : ascii) : bool :=
  let n := nat_of_ascii c in
  ((48 <=? n) && (n <=? 57)) || ((65 <=? n) && (n <=? 90)) || ((97 <=? n) && (n <=? 122)).

Definition hexval (c : ascii) : option nat :=
  let n := nat_of_ascii c in
  if (48 <=? n) && (n <=? 57) then Some (n - 48)
  else if (65 <=? n) && (n <=? 70) then Some (n - 55)
  else if (97 <=? n) && (n <=? 102) then Some (n - 87)
  else None.

Definition is_syntax_char (c : ascii) : bool :=
  existsb (Ascii.eqb c)
    ["^"; "$"; "\"; "."; "*"; "+"; "?"; "("; ")"; "["; "]"; "{"; "}"; "|"]%char.

(** One character of the pattern at a time; the result is the top-level
    frame and whether the pattern ended with [$]. *)
Fixpoint run (s : list ascii) (m : mode) (f : frame) (stk : list frame)
  : option (frame * bool) :=
  match s with
  | [] =>
      match m, stk with
      | Normal _, [] => Some (f, false)
      | _, _ => None
      end
  | c :: s' =>
      match m with
      | Normal q =>
          if Ascii.eqb c "$" then
            match s', stk, alts f with
            | [], [], [] => Some (f, true)
            | _, _, _ => None
            end
          else if Ascii.eqb c "\" then run s' Escaped f stk
          else if Ascii.eqb c "." then run s' (Normal QNone) (push_atom AnyChar f) stk
          else if Ascii.eqb c "[" then run s' ClassOpen f stk
          else if Ascii.eqb c "(" then run s' (Normal QNone) empty_frame (f :: stk)
          else if Ascii.eqb c ")" then
            match stk with
            | [] => None
            | g :: stk' => run s' (Normal QNone) (push_atom (close_frame f) g) stk'
            end
          else if Ascii.eqb c "|" then
            run s' (Normal QNone) (mkFrame (seq_of (cur f) :: alts f) []) stk
          else if Ascii.eqb c "*" then
            match q, quantify Star f with
            | QNone, Some f' => run s' (Normal QDone) f' stk
            | _, _ => None
            end
          else if Ascii.eqb c "+" then
            match q, quantify Plus f with
            | QNone, Some f' => run s' (Normal QDone) f' stk
            | _, _ => None
            end
          else if Ascii.eqb c "?" then
            match q with
            | QNone =>
                match quantify Opt f with
                | Some f' => run s' (Normal QDone) f' stk
                | None => None
                end
            | QDone => run s' (Normal QLazy) f stk
            | QLazy => None
            end
          else if is_syntax_char c then None
          else run s' (Normal QNone) (push_atom (Chr c) f) stk
      | Escaped =>
          if Ascii.eqb c "x" then run s' HexHi f stk
          else if is_alnum c then None
          else run s' (Normal QNone) (push_atom (Chr c) f) stk
      | HexHi =>
          match hexval c with
          | Some hi => run s' (HexLo hi) f stk
          | None => None
          end
      | HexLo hi =>
          match hexval c with
          | Some lo =>
              run s' (Normal QNone) (push_atom (Chr (ascii_of_nat (16 * hi + lo))) f) stk
          | None => None
          end
      | ClassOpen =>
          if Ascii.eqb c "^" then run s' (ClassBody true []) f stk
          else if Ascii.eqb c "]" then run s' (Normal QNone) (push_atom (Cls false []) f) stk
          else if Ascii.eqb c "\" then run s' (ClassEsc false []) f stk
          else if Ascii.eqb c "-" then None
          else run s' (ClassBody false [c]) f stk
      | ClassBody neg cs =>
          if Ascii.eqb c "]" then run s' (Normal QNone) (push_atom (Cls neg cs) f) stk
          else if Ascii.eqb c "\" then run s' (ClassEsc neg cs) f stk
          else if Ascii.eqb c "-" then None
          else run s' (ClassBody neg (c :: cs)) f stk
      | ClassEsc neg cs =>
          if is_alnum c then None
          else run s' (ClassBody neg (c :: cs)) f stk
      end
  end.

(** A compiled pattern: anchored at the start, body, anchored at the end. *)
Record compiled : Type := mkCompiled { bol : bool; body : re; eol : bool }.

Definition compile (source : string) : option compiled :=
  let s := list_ascii_of_string source in
  let '(b, s1) :=
    match s with
    | c :: s' => if Ascii.eqb c "^" then (true, s') else (false, s)
    | [] => (false, s)
    end in
  match run s1 (Normal QNone) empty_frame [] with
  | Some (f, e) =>
      if (b || e) && negb (match alts f with [] => true | _ => false end) then None
      else Some (mkCompiled b (close_frame f) e)
  | None => None
  end.

(** *** Matching by derivatives *)

Fixpoint nullable (r : re) : bool :=
  match r with
  | Void => false
  | Eps => true
  | Chr _ => false
  | AnyChar => false
  | Cls _ _ => false
  | Seq r1 r2 => nullable r1 && nullable r2
  | Alt r1 r2 => nullable r1 || nullable r2
  | Star _ => true
  end.

(** Canonicalize of the [i] flag: a code unit goes to the code unit of its
    [toUpperCase], when that is one code unit (and, for a code unit above
    127, not an ASCII one).  Among the code units below 256 the letters 97 to
    122 ([a] to [z]) and 224 to 254 but 247 (the division sign) go to the
    code unit 32 below.  The upper-case forms of 181 (the micro sign) and of
    255 are code units above 255 that no other code unit below 256 goes to,
    so that these two are kept, as what they compare equal to is themselves;
    223 (the sharp s) has no upper-case form of one code unit. *)
Definition canon (c : ascii) : ascii :=
  let n := nat_of_ascii c in
  if (97 <=? n) && (n <=? 122) then ascii_of_nat (n - 32)
  else if (224 <=? n) && (n <=? 254) && negb (n =? 247) then ascii_of_nat (n - 32)
  else c.

Definition chr_eqb (ci : bool) (c d : ascii) : bool :=
  if ci then Ascii.eqb (canon c) (canon d) else Ascii.eqb c d.

Definition is_line_terminator (d : ascii) : bool :=
  Ascii.eqb d (ascii_of_nat 10) || Ascii.eqb d (ascii_of_nat 13).

Definition mkSeq (r1 r2 : re) : re :=
  match r1 with
  | Void => Void
  | Eps => r2
  | _ => Seq r1 r2
  end.

Definition mkAlt (r1 r2 : re) : re :=
  match r1, r2 with
  | Void, _ => r2
  | _, Void => r1
  | _, _ => Alt r1 r2
  end.

Fixpoint deriv (ci : bool) (d : ascii) (r : re) : re :=
  match r with
  | Void => Void
  | Eps => Void
  | Chr c => if chr_eqb ci c d then Eps else Void
  | AnyChar => if is_line_terminator d then Void else Eps
  | Cls neg cs => if xorb neg (existsb (fun c => chr_eqb ci c d) cs) then Eps else Void
  | Seq r1 r2 =>
      if nullable r1
      then mkAlt (mkSeq (deriv ci d r1) r2) (deriv ci d r2)
      else mkSeq (deriv ci d r1) r2
  | Alt r1 r2 => mkAlt (deriv ci d r1) (deriv ci d r2)
  | Star r1 => mkSeq (deriv ci d r1) (Star r1)
  end.

(** The whole of [s] matches [r]. *)
Fixpoint full_match (ci : bool) (r : re) (s : list ascii) : bool :=
  match s with
  | [] => nullable r
  | d :: s' => full_match ci (deriv ci d r) s'
  end.

(** Some prefix of [s] matches [r]. *)
Fixpoint prefix_match (ci : bool) (r : re) (s : list ascii) : bool :=
  nullable r ||
  match s with
  | [] => false
  | d :: s' => prefix_match ci (deriv ci d r) s'
  end.

(** [matchAt e r s]: [r] matches at the start of [s], up to its end when
    [e]. *)
Definition match_here (ci e : bool) (r : re) (s : list ascii) : bool :=
  if e then full_match ci r s else prefix_match ci r s.

Fixpoint search (ci e : bool) (r : re) (s : list ascii) : bool :=
  match_here ci e r s ||
  match s with
  | [] => false
  | _ :: s' => search ci e r s'
  end.

Definition exec (ci : bool) (p : compiled) (s : string) : bool :=
  let l := list_ascii_of_string s in
  if bol p then match_here ci (eol p) (body p) l else search ci (eol p) (body p) l.

(** [new RegExp(source, flags).test(s)]; [ci] is the [i] flag.  [None] is a
    pattern outside the fragment (a SyntaxError among them). *)
Definition test (source : string) (ci : bool) (s : string) : option bool :=
  match compile source with
  | Some p => Some (exec ci p s)
  | None => None
  end.

(** *** [String.prototype.replace] with a pattern

    [s.replace(re, replacement)] for a pattern without the [g] flag whose
    body is a sequence of literal characters, which is what
    [escapeStringRegexp] gives; other patterns are outside the fragment
    ([None]).  The first occurrence is replaced.  In the replacement [$$]
    is a dollar, [$&] the match, [$`] what is before it and [$'] what is
    after it; the pattern has no groups, so every other [$] is kept. *)
Fixpoint literal_of (r : re) : option (list ascii) :=
  match r with
  | Eps => Some []
  | Chr c => Some [c]
  | Seq (Chr c) r' =>
      match literal_of r' with
      | Some l => Some (c :: l)
      | None => None
      end
  | _ => None
  end.

(** What is left of [s] after the literal [lit] at its start. *)
Fixpoint after_literal (ci : bool) (lit s : list ascii) : option (list ascii) :=
  match lit, s with
  | [], _ => Some s
  | c :: lit', d :: s' => if chr_eqb ci c d then after_literal ci lit' s' else None
  | _ :: _, [] => None
  end.

Fixpoint getSubstitution (matched before after replacement : list ascii) : list ascii :=
  match replacement with
  | [] => []
  | c :: r' =>
      if Ascii.eqb c "$" then
        match r' with
        | d :: r'' =>
            if Ascii.eqb d "$" then "$"%char :: getSubstitution matched before after r''
            else if Ascii.eqb d "&" then matched ++ getSubstitution matched before after r''
            else if Ascii.eqb d "`" then before ++ getSubstitution matched before after r''
            else if Ascii.eqb d "'" then after ++ getSubstitution matched before after r''
            else "$"%char :: getSubstitution matched before after r'
        | [] => ["$"%char]
        end
      else c :: getSubstitution matched before after r'
  end.

(** The match of the literal at the start of [s], up to the end of [s]
    when [e]: what is matched and what follows. *)
Definition literal_here (ci e : bool) (lit s : list ascii)
  : option (list ascii * list ascii) :=
  match after_literal ci lit s with
  | Some rest =>
      if e && negb (match rest with [] => true | _ => false end) then None
      else Some (firstn (List.length lit) s, rest)
  | None => None
  end.

(** [before] holds, latest first, the characters already passed. *)
Fixpoint replace_first (ci b e : bool) (lit replacement before s : list ascii)
  : list ascii :=
  match literal_here ci e lit s with
  | Some (matched, rest) =>
      (rev before ++ getSubstitution matched (rev before) rest replacement ++ rest)%list
  | None =>
      if b then (rev before ++ s)%list
      else match s with
           | [] => rev before
           | d :: s' => replace_first ci b e lit replacement (d :: before) s'
           end
  end.

Definition replace (ci : bool) (p : compiled) (replacement s : string) : option string :=
  match literal_of (body p) with
  | Some lit =>
      Some (string_of_list_ascii
              (replace_first ci (bol p) (eol p) lit (list_ascii_of_string replacement) []
                             (list_ascii_of_string s)))
  | None => None
  end.

End RegExp.

(** [escape-string-regexp] 4: a backslash before each of
    [| \ { } ( ) [ ] ^ $ + * ? .] and [-] written [\x2d]. *)
Definition needsEscape (c : ascii) : bool :=
  existsb (Ascii.eqb c)
    ["|"; "\"; "{"; "}"; "("; ")"; "["; "]"; "^"; "$"; "+"; "*"; "?"; "."]%char.

Fixpoint escapeStringRegexp (s : string) : string :=
  match s with
  | EmptyString => EmptyString
  | String c s' =>
      if needsEscape c then String "\" (String c (escapeStringRegexp s'))
      else if Ascii.eqb c "-" then ("\x2d" ++ escapeStringRegexp s')%string
      else String c (escapeStringRegexp s')
  end.


(** ** Path utilities *)

Definition slash : ascii := "/"%char.

Definition is_slash (c : ascii) : bool := Ascii.eqb c slash.

Fixpoint dropWhile {A : Type} (f : A -> bool) (l : list A) : list A :=
  match l with
  | [] => []
  | x :: l' => if f x then dropWhile f l' else l
  end.

(** [path.dirname] of Node (POSIX): scanning from the end down to index 1,
    the first slash met after a character that is not a slash ends the
    directory part. *)
Definition dirname (p : string) : string :=
  match list_ascii_of_string p with
  | [] => "."%string
  | c0 :: rest =>
      let hasRoot := is_slash c0 in
      match dropWhile (fun c => negb (is_slash c)) (dropWhile is_slash (rev rest)) with
      | [] => if hasRoot then "/"%string else "."%string
      | _ :: before =>
          if hasRoot && (List.length before =? 0) then "//"%string
          else string_of_list_ascii (c0 :: rev before)
      end
  end.

(** Modelled from the spec: [isTopPage] of [@growi/core], which is not under
    src/: the "is top-level path" test of the path utilities; the root of the
    tree is the page at ["/"]. *)
Definition isTopPage (p : string) : bool := String.eqb p "/".

(** Modelled from the spec: [addTrailingSlash] of [@growi/core], which is
    not under src/: the path with one slash at its end, the root as it is. *)
Definition addTrailingSlash (p : string) : string :=
  if String.eqb p "/" then p
  else match rev (list_ascii_of_string p) with
       | c :: _ => if is_slash c then p else (p ++ "/")%string
       | [] => (p ++ "/")%string
       end.

(** Modelled from the spec: [collectAncestorPaths] of [@growi/core], which is
    not under src/: the ordered sequence of the ancestors of a path, from the
    root to the immediate parent, the path itself excluded.  The walk goes up by
    [dirname] and stops at the top page; a path cannot have more ancestors
    than characters. *)
Fixpoint collectAncestorPathsFrom (fuel : nat) (p : string) (acc : list string)
  : list string :=
  match fuel with
  | O => acc
  | S fuel' =>
      if isTopPage p then acc
      else let parentPath := dirname p in
           collectAncestorPathsFrom fuel' parentPath (parentPath :: acc)
  end.

Definition collectAncestorPaths (p : string) : list string :=
  collectAncestorPathsFrom (String.length p) p [].

(** ** Data model *)

Definition ObjectId : Type := nat.

Definition GRANT_PUBLIC : nat := 1.
Definition GRANT_RESTRICTED : nat := 2.
Definition GRANT_SPECIFIED : nat := 3.
Definition GRANT_OWNER : nat := 4.
Definition GRANT_USER_GROUP : nat := 5.

Inductive Status : Type := STATUS_PUBLISHED | STATUS_DELETED.

Record User : Type := mkUser { user_id : ObjectId; admin : bool }.

(** A Page document.  [None] is [null] (or a missing field); dates and the
    fields no structural operation reads are left out; [revision] holds the
    body of the current revision. *)
Record Page : Type := mkPage {
  _id : ObjectId;
  parent : option ObjectId;
  descendantCount : Z;
  isEmpty : option bool;
  path : string;
  revision : option string;
  status : option Status;
  grant : option nat;
  grantedUsers : list ObjectId;
  grantedGroup : option ObjectId;
  creator : option ObjectId;
  lastUpdateUser : option ObjectId;
  deleteUser : option ObjectId
}.

(** [new Page()]: the defaults of the schema. *)
Definition newPage (id : ObjectId) : Page :=
  mkPage id None 0%Z (Some false) ""%string None (Some STATUS_PUBLISHED)
         (Some GRANT_PUBLIC) [] None None None None.

Definition set_parent (v : option ObjectId) (p : Page) : Page :=
  mkPage (_id p) v (descendantCount p) (isEmpty p) (path p) (revision p) (status p)
         (grant p) (grantedUsers p) (grantedGroup p) (creator p) (lastUpdateUser p)
         (deleteUser p).

Definition set_descendantCount (v : Z) (p : Page) : Page :=
  mkPage (_id p) (parent p) v (isEmpty p) (path p) (revision p) (status p)
         (grant p) (grantedUsers p) (grantedGroup p) (creator p) (lastUpdateUser p)
         (deleteUser p).

Definition set_isEmpty (v : option bool) (p : Page) : Page :=
  mkPage (_id p) (parent p) (descendantCount p) v (path p) (revision p) (status p)
         (grant p) (grantedUsers p) (grantedGroup p) (creator p) (lastUpdateUser p)
         (deleteUser p).

Definition set_path (v : string) (p : Page) : Page :=
  mkPage (_id p) (parent p) (descendantCount p) (isEmpty p) v (revision p) (status p)
         (grant p) (grantedUsers p) (grantedGroup p) (creator p) (lastUpdateUser p)
         (deleteUser p).

Definition set_revision (v : option string) (p : Page) : Page :=
  mkPage (_id p) (parent p) (descendantCount p) (isEmpty p) (path p) v (status p)
         (grant p) (grantedUsers p) (grantedGroup p) (creator p) (lastUpdateUser p)
         (deleteUser p).

Definition set_status (v : option Status) (p : Page) : Page :=
  mkPage (_id p) (parent p) (descendantCount p) (isEmpty p) (path p) (revision p) v
         (grant p) (grantedUsers p) (grantedGroup p) (creator p) (lastUpdateUser p)
         (deleteUser p).

Definition set_grant (v : option nat) (p : Page) : Page :=
  mkPage (_id p) (parent p) (descendantCount p) (isEmpty p) (path p) (revision p)
         (status p) v (grantedUsers p) (grantedGroup p) (creator p) (lastUpdateUser p)
         (deleteUser p).

Definition set_grantedUsers (v : list ObjectId) (p : Page) : Page :=
  mkPage (_id p) (parent p) (descendantCount p) (isEmpty p) (path p) (revision p)
         (status p) (grant p) v (grantedGroup p) (creator p) (lastUpdateUser p)
         (deleteUser p).

Definition set_grantedGroup (v : option ObjectId) (p : Page) : Page :=
  mkPage (_id p) (parent p) (descendantCount p) (isEmpty p) (path p) (revision p)
         (status p) (grant p) (grantedUsers p) v (creator p) (lastUpdateUser p)
         (deleteUser p).

Definition set_creator (v : option ObjectId) (p : Page) : Page :=
  mkPage (_id p) (parent p) (descendantCount p) (isEmpty p) (path p) (revision p)
         (status p) (grant p) (grantedUsers p) (grantedGroup p) v (lastUpdateUser p)
         (deleteUser p).

Definition set_lastUpdateUser (v : option ObjectId) (p : Page) : Page :=
  mkPage (_id p) (parent p) (descendantCount p) (isEmpty p) (path p) (revision p)
         (status p) (grant p) (grantedUsers p) (grantedGroup p) (creator p) v
         (deleteUser p).

Definition set_deleteUser (v : option ObjectId) (p : Page) : Page :=
  mkPage (_id p) (parent p) (descendantCount p) (isEmpty p) (path p) (revision p)
         (status p) (grant p) (grantedUsers p) (grantedGroup p) (creator p)
         (lastUpdateUser p) v.

(** JavaScript truthiness of the [isEmpty] field. *)
Definition isEmptyPage (p : Page) : bool :=
  match isEmpty p with
  | Some true => true
  | _ => false
  end.

Inductive PageActionType : Type :=
| Rename | Duplicate | Delete | DeleteCompletely | Revert | NormalizeParent.

Inductive PageActionStage : Type := Main | Sub.

Record PageOperation : Type := mkPageOperation {
  op_id : ObjectId;
  actionType : PageActionType;
  actionStage : PageActionStage;
  op_page : Page;
  fromPath : string;
  toPath : option string
}.

Record PageRedirect : Type := mkPageRedirect {
  redirect_fromPath : string;
  redirect_toPath : string
}.

(** What the service hands to the event emitters and sockets. *)
Inductive Event : Type :=
| EvPage (name : string) (page : option Page)
| EvPages (name : string) (pages : list Page)
| EvUpdateDescCount (data : list (ObjectId * Z))
| EvPMStarted (total : nat)
| EvPMMigrating (count : nat)
| EvPMErrorCount (skip : nat)
| EvPMEnded (isSucceeded : bool).

Record DB : Type := mkDB {
  pages : list Page;
  pageOperations : list PageOperation;
  pageRedirects : list PageRedirect;
  nextId : ObjectId;
  events : list Event
}.

Definition with_pages (ps : list Page) (db : DB) : DB :=
  mkDB ps (pageOperations db) (pageRedirects db) (nextId db) (events db).

(** ** Errors and the monad of the asynchronous methods *)

Inductive Error : Type :=
| CrowiIsNotSetup
| CannotOperate (operation : string) (p : string)
| CannotCreateToExistedPath
| GrantNotAssignable
| ParentMustNotBeNull
| ParentToUpdateDoesNotExist
| TargetNotFound
| PageAlreadyExistsAt (p : string)
| ForbiddenToRenameTopPage
| CannotMoveToThisPath
| ParentNotFound
| OriginalParentNotFound
| PageOperationNotFound
| CannotRenameGrant (p : string)
| CannotDuplicateGrant (p : string)
| CannotFindOrDuplicateEmptyPage
| PageNotFound
| DoesNotSupportTrashed
| PageIsNotDeletable
| MaximumNumberOfPages (limit : nat)
| MaximumNumberOfPageIds (limit : nat)
| FailedToMigrateSomePages
| TypeError
| SyntaxError
| MongoError
| PageNotFoundAfterUpdatingDescendantCount
| FailedToUpdateDescendantCount
| ForbiddenToDeleteTopPage
| FailedToRenamePages
| FailedToCreatePageRedirects
| DuplicateKey
| OutsideTheFragment
| OutOfFuel.

Inductive Result (A : Type) : Type :=
| Ok (a : A)
| Throw (e : Error).

Arguments Ok {A} a.
Arguments Throw {A} e.

Definition M (A : Type) : Type := DB -> Result A * DB.

Definition ret {A : Type} (a : A) : M A := fun db => (Ok a, db).

Definition throw {A : Type} (e : Error) : M A := fun db => (Throw e, db).

Definition bind {A B : Type} (m : M A) (k : A -> M B) : M B :=
  fun db =>
    match m db with
    | (Ok a, db') => k a db'
    | (Throw e, db') => (Throw e, db')
    end.

Declare Scope monad_scope.
Delimit Scope monad_scope with M.
Notation "x <- m ;; k" := (bind m (fun x => k))
  (at level 61, m at next level, right associativity) : monad_scope.
Notation "m ;;; k" := (bind m (fun _ => k))
  (at level 61, right associativity) : monad_scope.
Open Scope monad_scope.

Definition get : M DB := fun db => (Ok db, db).

Definition gets {A : Type} (f : DB -> A) : M A := fun db => (Ok (f db), db).

Definition modify (f : DB -> DB) : M unit := fun db => (Ok tt, f db).

Definition emit (e : Event) : M unit :=
  modify (fun db => mkDB (pages db) (pageOperations db) (pageRedirects db) (nextId db)
                         (events db ++ [e])).

(** A value that must not be [undefined] where it is dereferenced. *)
Definition deref {A : Type} (o : option A) : M A :=
  match o with
  | Some a => ret a
  | None => throw TypeError
  end.

(** [try { m } catch (err) { handler }] *)
Definition tryCatch {A : Type} (m : M A) (handler : Error -> M A) : M A :=
  fun db =>
    match m db with
    | (Ok a, db') => (Ok a, db')
    | (Throw e, db') => handler e db'
    end.

Fixpoint forEachM {A : Type} (l : list A) (f : A -> M unit) : M unit :=
  match l with
  | [] => ret tt
  | x :: l' => f x ;;; forEachM l' f
  end.

Fixpoint mapM {A B : Type} (f : A -> M B) (l : list A) : M (list B) :=
  match l with
  | [] => ret []
  | x :: l' => y <- f x ;; ys <- mapM f l' ;; ret (y :: ys)
  end.

(** [createBatchStream(size)]: the stream cut into arrays of [size]. *)
Fixpoint batchesOf {A : Type} (size : nat) (l : list A) (acc : list A) : list (list A) :=
  match l with
  | [] => match acc with [] => [] | _ => [rev acc] end
  | x :: l' =>
      let acc' := x :: acc in
      if List.length acc' =? size then rev acc' :: batchesOf size l' []
      else batchesOf size l' acc'
  end.

Definition createBatchStream {A : Type} (size : nat) (l : list A) : list (list A) :=
  batchesOf size l [].

(** ** The collections *)

Definition opt_id_eqb (a b : option ObjectId) : bool :=
  match a, b with
  | Some x, Some y => x =? y
  | None, None => true
  | _, _ => false
  end.

Definition has_id (id : ObjectId) (p : Page) : bool := _id p =? id.

(** [{ parent: id }] *)
Definition has_parent (id : ObjectId) (p : Page) : bool :=
  opt_id_eqb (parent p) (Some id).

(** [{ path: { $in: paths } }] *)
Definition path_in (paths : list string) (p : Page) : bool :=
  existsb (String.eqb (path p)) paths.

Definition id_in (ids : list ObjectId) (p : Page) : bool :=
  existsb (Nat.eqb (_id p)) ids.

Definition status_is (s : Status) (p : Page) : bool :=
  match status p, s with
  | Some STATUS_PUBLISHED, STATUS_PUBLISHED => true
  | Some STATUS_DELETED, STATUS_DELETED => true
  | _, _ => false
  end.

Definition grant_is (g : nat) (p : Page) : bool :=
  match grant p with
  | Some g' => g' =? g
  | None => false
  end.

Definition parent_is_null (p : Page) : bool :=
  match parent p with
  | None => true
  | Some _ => false
  end.

Fixpoint updateFirst (f : Page -> bool) (u : Page -> Page) (ps : list Page) : list Page :=
  match ps with
  | [] => []
  | p :: ps' => if f p then u p :: ps' else p :: updateFirst f u ps'
  end.

Definition updateAll (f : Page -> bool) (u : Page -> Page) (ps : list Page) : list Page :=
  map (fun p => if f p then u p else p) ps.

Fixpoint removeFirst (f : Page -> bool) (ps : list Page) : list Page :=
  match ps with
  | [] => []
  | p :: ps' => if f p then ps' else p :: removeFirst f ps'
  end.

Definition removeAll (f : Page -> bool) (ps : list Page) : list Page :=
  filter (fun p => negb (f p)) ps.

Definition Page_find (f : Page -> bool) : M (list Page) :=
  gets (fun db => filter f (pages db)).

Definition Page_findOne (f : Page -> bool) : M (option Page) :=
  gets (fun db => List.find f (pages db)).

(** [findById(id)] and [findOne({ _id: id })]; no document has a null id. *)
Definition Page_findById (id : option ObjectId) : M (option Page) :=
  match id with
  | Some i => Page_findOne (has_id i)
  | None => ret None
  end.

Definition Page_count (f : Page -> bool) : M nat :=
  gets (fun db => List.length (filter f (pages db))).

Definition Page_exists (f : Page -> bool) : M bool :=
  gets (fun db => existsb f (pages db)).

Definition Page_updateMany (f : Page -> bool) (u : Page -> Page) : M unit :=
  modify (fun db => with_pages (updateAll f u (pages db)) db).

Definition Page_updateOne (f : Page -> bool) (u : Page -> Page) : M unit :=
  modify (fun db => with_pages (updateFirst f u (pages db)) db).

Definition Page_deleteMany (f : Page -> bool) : M unit :=
  modify (fun db => with_pages (removeAll f (pages db)) db).

Definition Page_deleteOne (f : Page -> bool) : M unit :=
  modify (fun db => with_pages (removeFirst f (pages db)) db).

(** [findByIdAndUpdate(id, update, { new: true })] *)
Definition Page_findByIdAndUpdate (id : ObjectId) (u : Page -> Page) : M (option Page) :=
  Page_updateOne (has_id id) u ;;; Page_findById (Some id).

(** A fresh ObjectId. *)
Definition newObjectId : M ObjectId :=
  fun db => (Ok (nextId db),
             mkDB (pages db) (pageOperations db) (pageRedirects db) (S (nextId db))
                  (events db)).

(** [document.save()]: the stored document of that id is replaced; a new
    document is appended. *)
Definition Page_save (p : Page) : M Page :=
  modify (fun db =>
            if existsb (has_id (_id p)) (pages db)
            then with_pages (updateFirst (has_id (_id p)) (fun _ => p) (pages db)) db
            else with_pages (pages db ++ [p]) db) ;;;
  ret p.

(** [insertMany(docs)], each document with the defaults of the schema. *)
Fixpoint Page_insertMany (docs : list (Page -> Page)) : M (list Page) :=
  match docs with
  | [] => ret []
  | d :: docs' =>
      id <- newObjectId ;;
      p <- Page_save (d (newPage id)) ;;
      ps <- Page_insertMany docs' ;;
      ret (p :: ps)
  end.

Definition PageOperation_create (t : PageActionType) (s : PageActionStage) (p : Page)
           (from : string) (to : option string) : M PageOperation :=
  id <- newObjectId ;;
  let op := mkPageOperation id t s p from to in
  modify (fun db => mkDB (pages db) (pageOperations db ++ [op]) (pageRedirects db)
                         (nextId db) (events db)) ;;;
  ret op.

Definition set_actionStage (s : PageActionStage) (op : PageOperation) : PageOperation :=
  mkPageOperation (op_id op) (actionType op) s (op_page op) (fromPath op) (toPath op).

Definition PageOperation_findByIdAndUpdatePageActionStage (id : ObjectId)
           (s : PageActionStage) : M (option PageOperation) :=
  modify (fun db =>
            mkDB (pages db)
                 (map (fun op => if op_id op =? id then set_actionStage s op else op)
                      (pageOperations db))
                 (pageRedirects db) (nextId db) (events db)) ;;;
  gets (fun db => List.find (fun op => op_id op =? id) (pageOperations db)).

Definition PageOperation_findByIdAndDelete (id : ObjectId) : M unit :=
  modify (fun db =>
            mkDB (pages db)
                 (filter (fun op => negb (op_id op =? id)) (pageOperations db))
                 (pageRedirects db) (nextId db) (events db)).

(** Modelled from the spec: [PageRedirect.create] of the redirect model,
    which is not under src/: the redirects are keyed by [fromPath], at most
    one for a path, so that creating a second one from a path fails with the
    duplicate-key error of the database (error code 11000). *)
Definition PageRedirect_create (from to : string) : M unit :=
  rs <- gets pageRedirects ;;
  if existsb (fun r => String.eqb (redirect_fromPath r) from) rs
  then throw DuplicateKey
  else modify (fun db =>
                 mkDB (pages db) (pageOperations db)
                      (pageRedirects db ++ [mkPageRedirect from to]) (nextId db)
                      (events db)).

(** [err.code === 11000] *)
Definition hasCode11000 (err : Error) : bool :=
  match err with
  | DuplicateKey => true
  | _ => false
  end.

(** [try { await PageRedirect.create(...) } catch (err) { if (err.code !==
    11000) throw err }] *)
Definition PageRedirect_createUnlessExists (from to : string) : M unit :=
  tryCatch (PageRedirect_create from to)
           (fun err => if hasCode11000 err then ret tt else throw err).

(** [PageRedirect.bulkWrite] of [insertOne] operations, in order: the first
    failure ends it. *)
Definition PageRedirect_bulkWrite (documents : list PageRedirect) : M unit :=
  forEachM documents (fun r =>
      PageRedirect_create (redirect_fromPath r) (redirect_toPath r)).

Definition PageRedirect_deleteMany (f : PageRedirect -> bool) : M unit :=
  modify (fun db =>
            mkDB (pages db) (pageOperations db)
                 (filter (fun r => negb (f r)) (pageRedirects db)) (nextId db)
                 (events db)).

Fixpoint removeFirstRedirect (from : string) (rs : list PageRedirect) : list PageRedirect :=
  match rs with
  | [] => []
  | r :: rs' =>
      if String.eqb (redirect_fromPath r) from then rs' else r :: removeFirstRedirect from rs'
  end.

Definition PageRedirect_deleteOne (from : string) : M unit :=
  modify (fun db =>
            mkDB (pages db) (pageOperations db)
                 (removeFirstRedirect from (pageRedirects db)) (nextId db) (events db)).

(** ** The services around the page model

    What [crowi] and the models outside the page model and service give:
    configuration, the grant service, the operation service, the sanitizer,
    the group relation of a user, the path predicates of [@growi/core]
    ([isTrashPage], [isMovablePage], [canMoveByPath],
    [omitDuplicateAreaPageFromPages]), and what the obsolete page model
    defines: [getDeletedPageName], [createV4], [updatePageV4] and the
    condition of [addConditionToFilteringByViewerToEdit].  None of them is
    under src/; they are fields of [Crowi], parameters of every operation.
    The collections of the revisions, tags, comments, bookmarks, share links
    and attachments are not modelled: what the operations do to them leaves
    the collections of the model as they are. *)
Record PageCreateOptions : Type := mkPageCreateOptions {
  opt_grant : option nat;
  opt_grantUserGroupId : option ObjectId
}.

Record RenameOptions : Type := mkRenameOptions {
  isMoveMode : bool;
  updateMetadata : bool;
  createRedirectPage : bool;
  rename_isRecursively : bool
}.

Record Crowi : Type := mkCrowi {
  isSetUp : bool;
  isV5Compatible : bool;
  isGrantNormalized :
    list Page -> option User -> string -> option nat -> option (list ObjectId) ->
    option ObjectId -> bool -> bool;
  separateNormalizableAndNotNormalizablePages :
    list Page -> option User -> list Page -> list Page * list Page;
  canOperate : list PageOperation -> bool -> option string -> option string -> bool;
  xss_process : string -> string;
  findAllUserGroupIdsRelatedToUser : User -> list ObjectId;
  canMoveByPath : string -> string -> bool;
  isTrashPage : string -> bool;
  isMovablePage : string -> bool;
  getDeletedPageName : string -> string;
  omitDuplicateAreaPageFromPages : list Page -> list Page;
  createV4 : string -> string -> option User -> PageCreateOptions -> M Page;
  updatePageV4 : Page -> string -> string -> option User -> PageCreateOptions -> M Page;
  conditionToFilteringByViewerToEdit : option User -> Page -> bool
}.

(** ** The page model *)

(** [generateGrantCondition]: the [$or] of the grant conditions, as a
    predicate on documents. *)
Definition generateGrantCondition (user : option User) (userGroups : option (list ObjectId))
           (showAnyoneKnowsLink showPagesRestrictedByOwner showPagesRestrictedByGroup : bool)
           (p : Page) : bool :=
  match grant p with None => true | Some _ => false end
  || grant_is GRANT_PUBLIC p
  || (showAnyoneKnowsLink && grant_is GRANT_RESTRICTED p)
  || (if showPagesRestrictedByOwner
      then grant_is GRANT_SPECIFIED p || grant_is GRANT_OWNER p
      else match user with
           | Some u =>
               (grant_is GRANT_SPECIFIED p || grant_is GRANT_OWNER p)
               && existsb (Nat.eqb (user_id u)) (grantedUsers p)
           | None => false
           end)
  || (if showPagesRestrictedByGroup
      then grant_is GRANT_USER_GROUP p
      else match userGroups with
           | Some (g :: gs) =>
               grant_is GRANT_USER_GROUP p
               && match grantedGroup p with
                  | Some gg => existsb (Nat.eqb gg) (g :: gs)
                  | None => false
                  end
           | _ => false
           end).

(** The condition every [PageQueryBuilder] starts with unless empty pages are
    included. *)
Definition excludeEmpty (includeEmpty : bool) (p : Page) : bool :=
  includeEmpty ||
  match isEmpty p with
  | Some false | None => true
  | Some true => false
  end.

Definition conditionToFilterByApplicableAncestors (pathsToFilter : list string) (p : Page)
  : bool :=
  String.eqb (path p) "/"
  || (path_in pathsToFilter p && grant_is GRANT_PUBLIC p && status_is STATUS_PUBLISHED p)
  || (path_in pathsToFilter p && negb (parent_is_null p) && status_is STATUS_PUBLISHED p)
  || (negb (path_in pathsToFilter p) && status_is STATUS_PUBLISHED p).

Definition conditionToExcludeTrashed (p : Page) : bool :=
  match status p with
  | None | Some STATUS_PUBLISHED => true
  | Some STATUS_DELETED => false
  end.

Definition conditionAsMigrated (p : Page) : bool :=
  negb (parent_is_null p) || String.eqb (path p) "/".

(** [addConditionAsNotMigrated] *)
Definition conditionAsNotMigrated (p : Page) : bool := parent_is_null p.

(** Sorting by path, descending; documents of one path keep their order. *)
Fixpoint insertByDescPath (x : Page) (l : list Page) : list Page :=
  match l with
  | [] => [x]
  | y :: l' =>
      if String.ltb (path y) (path x) then x :: l else y :: insertByDescPath x l'
  end.

Definition sortPagesByDescPath (l : list Page) : list Page :=
  fold_left (fun acc x => insertByDescPath x acc) l [].

Section PageModel.

Variable crowi : Crowi.

Definition userGroupsOf (user : option User) : option (list ObjectId) :=
  match user with
  | Some u => Some (findAllUserGroupIdsRelatedToUser crowi u)
  | None => None
  end.

Definition user_id_of (user : option User) : option ObjectId :=
  match user with
  | Some u => Some (user_id u)
  | None => None
  end.

Definition createEmptyPagesByPaths (paths : list string) (user : option User)
           (onlyMigratedAsExistingPages : bool) (filter_ : option (Page -> bool)) : M unit :=
  let userGroups := userGroupsOf user in
  let grantCondition := generateGrantCondition user userGroups false false false in
  existingPages <- Page_find (fun p =>
      path_in paths p
      && (if onlyMigratedAsExistingPages then conditionAsMigrated p else true)
      && match filter_ with Some f => f p | None => true end
      && grantCondition p) ;;
  let existingPagePaths := map path existingPages in
  let notExistingPagePaths :=
    filter (fun pth => negb (existsb (String.eqb pth) existingPagePaths)) paths in
  Page_insertMany
    (map (fun pth p => set_creator (user_id_of user) (set_isEmpty (Some true) (set_path pth p)))
         notExistingPagePaths) ;;;
  ret tt.

Definition createEmptyPage (pth : string) (parent_ : option ObjectId)
           (creator_ : option ObjectId) (descendantCount_ : Z) : M Page :=
  match parent_ with
  | None => throw ParentMustNotBeNull
  | Some _ =>
      id <- newObjectId ;;
      let page := newPage id in
      let page := set_path pth page in
      let page := set_isEmpty (Some true) page in
      let page := set_parent parent_ page in
      let page := set_descendantCount descendantCount_ page in
      let page := set_creator creator_ page in
      Page_save page
  end.

(** The third argument of [replaceTargetWithPage] as the callers give it: a
    page document, nothing, or some other value of JavaScript, whose [_id]
    is [undefined]. *)
Inductive PageToReplaceWith : Type :=
| ReplaceWithNothing
| ReplaceWithPage (p : Page)
| ReplaceWithValue.

(** How an [undefined] reaches the database: written as [null], or, when
    [omitUndefined], dropped from the filter or the update that holds it. *)
Definition has_id_of (omitUndefined : bool) (newTarget : option Page) (p : Page) : bool :=
  match newTarget with
  | Some t => has_id (_id t) p
  | None => omitUndefined
  end.

Definition set_parent_to_id_of (omitUndefined : bool) (newTarget : option Page) (p : Page)
  : Page :=
  match newTarget with
  | Some t => set_parent (Some (_id t)) p
  | None => if omitUndefined then p else set_parent None p
  end.

Definition replaceTargetWithPage (omitUndefined : bool) (exPage : Page)
           (operator : option ObjectId) (pageToReplaceWith : PageToReplaceWith)
           (deleteExPageIfEmpty : bool) : M (option Page) :=
  parent_ <- Page_findById (parent exPage) ;;
  match parent_ with
  | None => throw ParentToUpdateDoesNotExist
  | Some parent_ =>
      newTarget <-
        match pageToReplaceWith with
        | ReplaceWithNothing =>
            p <- createEmptyPage (path exPage) (Some (_id parent_)) operator
                                 (descendantCount exPage) ;;
            ret (Some p)
        | ReplaceWithPage p => ret (Some p)
        | ReplaceWithValue => ret None
        end ;;
      children <- Page_find (has_parent (_id exPage)) ;;
      (* bulkWrite *)
      Page_updateOne (has_id_of omitUndefined newTarget)
                     (set_parent (Some (_id parent_))) ;;;
      Page_updateMany (id_in (map _id children))
                      (set_parent_to_id_of omitUndefined newTarget) ;;;
      (if deleteExPageIfEmpty && isEmptyPage exPage
       then Page_deleteOne (has_id (_id exPage))
       else ret tt) ;;;
      match newTarget with
      | Some t => Page_findById (Some (_id t))
      | None => ret None
      end
  end.

(** The first page of each path, as [ancestorsMap] keeps it. *)
Definition ancestorsMap_get (ancestors : list Page) (pth : string) : option Page :=
  List.find (fun p => String.eqb (path p) pth) ancestors.

Fixpoint parentUpdates (ancestors nonRootAncestors : list Page)
  : option (list (ObjectId * ObjectId)) :=
  match nonRootAncestors with
  | [] => Some []
  | page :: rest =>
      match ancestorsMap_get ancestors (dirname (path page)), parentUpdates ancestors rest with
      | Some par, Some ops => Some ((_id page, _id par) :: ops)
      | _, _ => None
      end
  end.

Definition getParentAndFillAncestors (pth : string) (user : option User) : M (option Page) :=
  let parentPath := dirname pth in
  pagesCanBeParent <- Page_find (fun p =>
      String.eqb (path p) parentPath && conditionAsMigrated p) ;;
  match pagesCanBeParent with
  | first :: _ => ret (Some first)
  | [] =>
      let ancestorPaths := collectAncestorPaths pth in
      createEmptyPagesByPaths ancestorPaths user true None ;;;
      found <- Page_find (fun p =>
          conditionToFilterByApplicableAncestors ancestorPaths p
          && path_in ancestorPaths p) ;;
      let ancestors := sortPagesByDescPath found in
      let nonRootAncestors := filter (fun p => negb (isTopPage (path p))) ancestors in
      operations <- deref (parentUpdates ancestors nonRootAncestors) ;;
      forEachM operations (fun op =>
          Page_updateOne (has_id (fst op)) (set_parent (Some (snd op)))) ;;;
      ret (ancestorsMap_get ancestors parentPath)
  end.

(** [generateChildrenRegExp(path).test(q)] *)
Definition generateChildrenRegExp (pth : string) : string :=
  if isTopPage pth then "^\/[^/]+$"%string
  else ("^" ++ pth ++ "(\/[^/]+)\/?$")%string.

Definition incrementDescendantCountOfPageIds (pageIds : list ObjectId) (increment : Z)
  : M unit :=
  Page_updateMany (id_in pageIds)
                  (fun p => set_descendantCount (descendantCount p + increment)%Z p).

(** *** recountDescendantCount: the aggregation pipeline, stage by stage *)

Record Projected : Type := mkProjected {
  pj_parent : option ObjectId;
  pj_isEmpty : option bool;
  pj_descendantCount : Z
}.

Record Grouped : Type := mkGrouped {
  g_id : option ObjectId;
  sumOfDescendantCount : Z;
  sumOfDocsCount : Z
}.

Definition stage_match (id : ObjectId) (docs : list Page) : list Page :=
  filter (has_parent id) docs.

Definition stage_project (docs : list Page) : list Projected :=
  map (fun p => mkProjected (parent p) (isEmpty p) (descendantCount p)) docs.

Definition docCount (d : Projected) : Z :=
  match pj_isEmpty d with
  | Some true => 0%Z
  | _ => 1%Z
  end.

Fixpoint accumulate (d : Projected) (groups : list Grouped) : list Grouped :=
  match groups with
  | [] => [mkGrouped (pj_parent d) (pj_descendantCount d) (docCount d)]
  | g :: groups' =>
      if opt_id_eqb (g_id g) (pj_parent d)
      then mkGrouped (g_id g) (sumOfDescendantCount g + pj_descendantCount d)%Z
                     (sumOfDocsCount g + docCount d)%Z :: groups'
      else g :: accumulate d groups'
  end.

Definition stage_group (docs : list Projected) : list Grouped :=
  fold_left (fun groups d => accumulate d groups) docs [].

Definition stage_set (groups : list Grouped) : list (Grouped * Z) :=
  map (fun g => (g, (sumOfDescendantCount g + sumOfDocsCount g)%Z)) groups.

Definition recountDescendantCountOf (id : ObjectId) (docs : list Page) : Z :=
  match stage_set (stage_group (stage_project (stage_match id docs))) with
  | [] => 0%Z
  | (_, descendantCount_) :: _ => descendantCount_
  end.

Definition recountDescendantCount (id : ObjectId) : M Z :=
  gets (fun db => recountDescendantCountOf id (pages db)).

(** *** The ancestors by the parent links *)

Fixpoint findAncestorsRecursively (fuel : nat) (ps : list Page) (target : Page)
         (ancestors : list Page) : option (list Page) :=
  match fuel with
  | O => None
  | S fuel' =>
      match parent target with
      | None => Some ancestors
      | Some pid =>
          match List.find (has_id pid) ps with
          | None => Some ancestors
          | Some par => findAncestorsRecursively fuel' ps par (ancestors ++ [par])
          end
      end
  end.

(** The walk visits one stored page per step; no fuel is left when the
    parent links turn in a circle, where the source does not return. *)
Definition findAncestorsUsingParentRecursively (pageId : option ObjectId)
           (shouldIncludeTarget : bool) : M (list Page) :=
  target <- Page_findById pageId ;;
  match target with
  | None => throw TargetNotFound
  | Some target =>
      ps <- gets pages ;;
      match findAncestorsRecursively (S (List.length ps)) ps target
                                     (if shouldIncludeTarget then [target] else []) with
      | Some ancestors => ret ancestors
      | None => throw OutOfFuel
      end
  end.

(** *** removeLeafEmptyPagesRecursively *)

(** [{ _id: { $ne: childPage?._id }, parent: page._id }]; without a child
    page the [$ne] excludes no document. *)
Definition isChildOtherThan (childId : option ObjectId) (page : Page) (q : Page) : bool :=
  match childId with
  | Some c => negb (_id q =? c)
  | None => true
  end && has_parent (_id page) q.

Fixpoint generatePageIdsToRemove (fuel : nat) (ps : list Page) (childId : option ObjectId)
         (page : Page) (pageIds : list ObjectId) : option (list ObjectId) :=
  match fuel with
  | O => None
  | S fuel' =>
      if negb (isEmptyPage page) then Some pageIds
      else if existsb (isChildOtherThan childId page) ps then Some pageIds
      else
        let pageIds := pageIds ++ [_id page] in
        match parent page with
        | None => Some pageIds
        | Some pid =>
            match List.find (has_id pid) ps with
            | None => Some pageIds
            | Some nextPage =>
                generatePageIdsToRemove fuel' ps (Some (_id page)) nextPage pageIds
            end
        end
  end.

Definition removeLeafEmptyPagesRecursively (pageId : option ObjectId) : M unit :=
  initialPage <- Page_findById pageId ;;
  match initialPage with
  | None => ret tt
  | Some initialPage =>
      if negb (isEmptyPage initialPage) then ret tt
      else
        ps <- gets pages ;;
        match generatePageIdsToRemove (S (List.length ps)) ps None initialPage [] with
        | Some pageIdsToRemove => Page_deleteMany (id_in pageIdsToRemove)
        | None => throw OutOfFuel
        end
  end.

Definition takeOffFromTree (pageId : ObjectId) : M unit :=
  Page_updateOne (has_id pageId) (set_parent None).

Definition removeEmptyPages (pageIdsToNotRemove : list ObjectId) (paths : list string)
  : M unit :=
  Page_deleteMany (fun p =>
      negb (id_in pageIdsToNotRemove p) && path_in paths p
      && match isEmpty p with Some true => true | _ => false end).

End PageModel.

(** ** The operations that need [crowi] *)

Section Operations.

Variable crowi : Crowi.

(** The driver option of this deployment for [undefined] values. *)
Variable omitUndefined : bool.

Definition isRestricted (g : option nat) : bool :=
  match g with
  | Some n => n =? GRANT_RESTRICTED
  | None => false
  end.

(** [new RegExp(source, flags)], then the matcher on paths. *)
Definition newRegExp (source : string) (ci : bool) : M (string -> bool) :=
  match RegExp.compile source with
  | Some p => ret (RegExp.exec ci p)
  | None => throw SyntaxError
  end.

(** A [RegExp] object: the pattern and its [i] flag. *)
Record RegExpObject : Type := mkRegExpObject {
  re_pattern : RegExp.compiled;
  re_ignoreCase : bool
}.

Definition newRegExpObject (source : string) (ci : bool) : M RegExpObject :=
  match RegExp.compile source with
  | Some p => ret (mkRegExpObject p ci)
  | None => throw SyntaxError
  end.

(** [s.replace(re, replacement)] *)
Definition String_replace (s : string) (re : RegExpObject) (replacement : string)
  : M string :=
  match RegExp.replace (re_ignoreCase re) (re_pattern re) replacement s with
  | Some r => ret r
  | None => throw OutsideTheFragment
  end.

(** *** PageService.updateDescendantCountOfAncestors *)
Definition updateDescendantCountOfAncestors (pageId : option ObjectId) (inc : Z)
           (shouldIncludeTarget : bool) : M unit :=
  ancestors <- findAncestorsUsingParentRecursively pageId shouldIncludeTarget ;;
  let ancestorPageIds := map _id ancestors in
  incrementDescendantCountOfPageIds ancestorPageIds inc ;;;
  emit (EvUpdateDescCount
          (map (fun p => (_id p, (descendantCount p + inc)%Z)) ancestors)).

(** Modelled from the spec: [applyScope] of the obsolete page model, which is
    not under src/: the page takes the grant of the operation ([PUBLIC] when
    none is given); [grantedUsers] and [grantedGroup] are the scoping data of
    the [OWNER] and [USER_GROUP] grants.  No other field changes. *)
Definition applyScope (user : option User) (grant_ : option nat)
           (grantUserGroupId : option ObjectId) (p : Page) : Page :=
  let g := match grant_ with
           | Some 0 | None => GRANT_PUBLIC
           | Some n => n
           end in
  let p := set_grantedUsers
             (if g =? GRANT_OWNER
              then match user with Some u => [user_id u] | None => [] end
              else []) p in
  let p := set_grantedGroup (if g =? GRANT_USER_GROUP then grantUserGroupId else None) p in
  set_grant (Some g) p.

(** [pushRevision] with a revision prepared from [body]. *)
Definition pushRevision (pageData : Page) (body : string) (user : option User) : M Page :=
  let pageData := set_revision (Some body) pageData in
  let pageData := set_lastUpdateUser (user_id_of user) pageData in
  Page_save pageData.

(** *** Page.create *)
Definition create (pth body : string) (user : option User) (options : PageCreateOptions)
  : M Page :=
  if negb (isSetUp crowi) then throw CrowiIsNotSetup
  else if negb (isV5Compatible crowi) then createV4 crowi pth body user options
  else
    ops <- gets pageOperations ;;
    if negb (canOperate crowi ops false None (Some pth))
    then throw (CannotOperate "create" pth)
    else
      let grantUserGroupId := opt_grantUserGroupId options in
      let grant_ := opt_grant options in
      (* sanitize path *)
      let pth := xss_process crowi pth in
      (* throw if exists *)
      n <- Page_count (fun p =>
             String.eqb (path p) pth
             && match isEmpty p with Some false => true | _ => false end) ;;
      if 0 <? n then throw CannotCreateToExistedPath
      else
        (* force public *)
        let grant_ := if isTopPage pth then Some GRANT_PUBLIC else grant_ in
        (* find an existing empty page *)
        emptyPage <- Page_findOne (fun p =>
             String.eqb (path p) pth
             && match isEmpty p with Some true => true | _ => false end) ;;
        (* UserGroup & Owner validation *)
        (if negb (isRestricted grant_) then
           let shouldCheckDescendants :=
             match emptyPage with Some _ => true | None => false end in
           newGrantedUserIds <-
             (if match grant_ with Some g => g =? GRANT_OWNER | None => false end
              then u <- deref user ;; ret (Some [user_id u])
              else ret None) ;;
           ps <- gets pages ;;
           if negb (isGrantNormalized crowi ps user pth grant_ newGrantedUserIds
                                      grantUserGroupId shouldCheckDescendants)
           then throw GrantNotAssignable
           else ret tt
         else ret tt) ;;;
        (* update empty page if exists, if not, create a new page *)
        page <-
          match emptyPage, isRestricted grant_ with
          | Some page, false =>
              descendantCount_ <- recountDescendantCount (_id page) ;;
              ret (set_isEmpty (Some false) (set_descendantCount descendantCount_ page))
          | _, _ =>
              id <- newObjectId ;;
              ret (newPage id)
          end ;;
        let page := set_path pth page in
        let page := set_creator (user_id_of user) page in
        let page := set_lastUpdateUser (user_id_of user) page in
        let page := set_status (Some STATUS_PUBLISHED) page in
        (* set parent to null when GRANT_RESTRICTED *)
        let isGrantRestricted := isRestricted grant_ in
        page <-
          (if isTopPage pth || isGrantRestricted then ret (set_parent None page)
           else
             parent_ <- getParentAndFillAncestors crowi pth user ;;
             parent_ <- deref parent_ ;;
             ret (set_parent (Some (_id parent_)) page)) ;;
        let page := applyScope user grant_ grantUserGroupId page in
        savedPage <- Page_save page ;;
        (* After save *)
        PageRedirect_deleteOne pth ;;;
        savedPage <- pushRevision savedPage body user ;;
        emit (EvPage "create" (Some savedPage)) ;;;
        (* update descendantCount asynchronously *)
        updateDescendantCountOfAncestors (Some (_id savedPage)) 1 false ;;;
        ret savedPage.

Definition shouldUseUpdatePageV4 (grant_ : option nat) (isV5Compatible_ isOnTree : bool)
  : bool :=
  let isRestricted_ := isRestricted grant_ in
  negb isRestricted_ && (negb isV5Compatible_ || negb isOnTree).

(** [options.grant || pageData.grant] *)
Definition grantOr (a b : option nat) : option nat :=
  match a with
  | Some 0 | None => b
  | Some _ => a
  end.

(** [options.grantUserGroupId ?? pageData.grantedGroup] *)
Definition nullish (a b : option ObjectId) : option ObjectId :=
  match a with
  | Some _ => a
  | None => b
  end.

(** *** Page.updatePage ([isSyncRevisionToHackmd] is not among the options
    modelled) *)
Definition updatePage (pageData : Page) (body previousBody : string) (user : option User)
           (options : PageCreateOptions) : M Page :=
  if negb (isSetUp crowi) then throw CrowiIsNotSetup
  else
    let wasOnTree := negb (parent_is_null pageData) || isTopPage (path pageData) in
    let exParent := parent pageData in
    let shouldUseV4Process :=
      shouldUseUpdatePageV4 (grant pageData) (isV5Compatible crowi) wasOnTree in
    if shouldUseV4Process then updatePageV4 crowi pageData body previousBody user options
    else
      let grant_ := grantOr (opt_grant options) (grant pageData) in
      let grantUserGroupId := nullish (opt_grantUserGroupId options) (grantedGroup pageData) in
      u <- deref user ;;
      let grantedUserIds := [user_id u] in
      let shouldBeOnTree := negb (isRestricted grant_) in
      descendantsRegExp <-
        newRegExp ("^" ++ escapeStringRegexp (addTrailingSlash (path pageData))) false ;;
      isChildrenExist <- Page_count (fun p =>
          descendantsRegExp (path p) && negb (parent_is_null p)) ;;
      let isChildrenExist := 0 <? isChildrenExist in
      let newPageData := pageData in
      newPageData <-
        (if shouldBeOnTree then
           ps <- gets pages ;;
           if negb (isGrantNormalized crowi ps user (path pageData) grant_
                                      (Some grantedUserIds) grantUserGroupId true)
           then throw GrantNotAssignable
           else if negb wasOnTree then
             newParent <- getParentAndFillAncestors crowi (path newPageData) user ;;
             newParent <- deref newParent ;;
             ret (set_parent (Some (_id newParent)) newPageData)
           else ret newPageData
         else
           (if wasOnTree && isChildrenExist then
              (* Update children's parent with new parent *)
              newParentForChildren <-
                createEmptyPage (path pageData) (parent pageData) (user_id_of user)
                                (descendantCount pageData) ;;
              Page_updateMany (has_parent (_id pageData))
                              (set_parent (Some (_id newParentForChildren)))
            else ret tt) ;;;
           ret (set_descendantCount 0 (set_parent None newPageData))) ;;
      let newPageData := applyScope user grant_ grantUserGroupId newPageData in
      (* update existing page *)
      savedPage <- Page_save newPageData ;;
      savedPage <- pushRevision savedPage body user ;;
      emit (EvPage "update" (Some savedPage)) ;;;
      (* Update ex children's parent *)
      (if negb wasOnTree && shouldBeOnTree then
         let emptyAtSamePath p :=
           String.eqb (path p) (path pageData)
           && match isEmpty p with Some true => true | _ => false end in
         emptyPageAtSamePath <- Page_findOne emptyAtSamePath ;;
         match isChildrenExist, emptyPageAtSamePath with
         | true, Some e =>
             Page_updateMany (has_parent (_id e)) (set_parent (Some (_id savedPage)))
         | _, _ => ret tt
         end ;;;
         Page_deleteOne emptyAtSamePath
       else ret tt) ;;;
      (* Sub operation *)
      (* 1. Update descendantCount *)
      let shouldPlusDescCount := negb wasOnTree && shouldBeOnTree in
      let shouldMinusDescCount := wasOnTree && negb shouldBeOnTree in
      (if shouldPlusDescCount then
         updateDescendantCountOfAncestors (Some (_id savedPage)) 1 false ;;;
         newDescendantCount <- recountDescendantCount (_id savedPage) ;;
         Page_updateOne (has_id (_id savedPage)) (set_descendantCount newDescendantCount)
       else if shouldMinusDescCount then
         if isRestricted (grant savedPage)
         then updateDescendantCountOfAncestors exParent (-1) true
         else ret tt
       else ret tt) ;;;
      (* 2. Delete unnecessary empty pages *)
      let shouldRemoveLeafEmpPages := wasOnTree && negb isChildrenExist in
      (if shouldRemoveLeafEmpPages then removeLeafEmptyPagesRecursively exParent
       else ret tt) ;;;
      ret savedPage.


(** ** The page service *)

Definition BULK_REINDEX_SIZE : nat := 100.
Definition LIMIT_FOR_MULTIPLE_PAGE_OP : nat := 20.

Definition shouldUseV4Process (page : Page) : bool :=
  let isTrashPage_ := status_is STATUS_DELETED page in
  let isPageMigrated := negb (parent_is_null page) in
  let isV5Compatible_ := isV5Compatible crowi in
  let isRoot := isTopPage (path page) in
  let isPageRestricted := isRestricted (grant page) in
  negb isRoot
  && (negb isV5Compatible_ || negb isPageMigrated || isTrashPage_ || isPageRestricted).

Definition isRenamingToUnderTarget (fromPath_ toPath_ : string) : M bool :=
  re <- newRegExp ("^" ++ escapeStringRegexp (addTrailingSlash fromPath_)) true ;;
  ret (re toPath_).

(** The local [collectAncestorPathsUntilFromPath]; it does not return when
    the walk up from [toPath] never meets [fromPath]. *)
Fixpoint collectAncestorPathsUntilFromPath (fuel : nat) (fromPath_ pth : string)
         (paths : list string) : option (list string) :=
  match fuel with
  | O => None
  | S fuel' =>
      if String.eqb pth fromPath_ then Some paths
      else let parentPath := dirname pth in
           collectAncestorPathsUntilFromPath fuel' fromPath_ parentPath (paths ++ [parentPath])
  end.

(** [new Map(pages.map(p => [p.path, p])).get(path)]: the last page of a
    path wins. *)
Definition lastByPath (ps : list Page) (pth : string) : option Page :=
  List.find (fun p => String.eqb (path p) pth) (rev ps).

Definition getParentAndforceCreateEmptyTree (originalPage : Page) (toPath_ : string)
  : M (option Page) :=
  let fromPath_ := path originalPage in
  let newParentPath := dirname toPath_ in
  match collectAncestorPathsUntilFromPath (S (String.length toPath_)) fromPath_ toPath_ [] with
  | None => throw OutOfFuel
  | Some pathsToInsert =>
      originalParent <- Page_findById (parent originalPage) ;;
      match originalParent with
      | None => throw OriginalParentNotFound
      | Some originalParent =>
          insertedPages <- Page_insertMany
            (map (fun pth p => set_isEmpty (Some true) (set_path pth p)) pathsToInsert) ;;
          let ancestorsMap := lastByPath (insertedPages ++ [originalParent]) in
          (* bulkWrite to update ancestors *)
          forEachM insertedPages (fun page =>
              Page_updateOne (has_id (_id page))
                (set_parent_to_id_of omitUndefined (ancestorsMap (dirname (path page))))) ;;;
          ret (ancestorsMap newParentPath)
      end
  end.

(** The grant a rename or a duplicate validates: the parent's when the
    target is an empty page. *)
Definition effectiveGrant (page : Page)
  : M (option nat * list ObjectId * option ObjectId) :=
  if isEmptyPage page then
    parent_ <- Page_findById (parent page) ;;
    match parent_ with
    | None => throw ParentNotFound
    | Some parent_ => ret (grant parent_, grantedUsers parent_, grantedGroup parent_)
    end
  else ret (grant page, grantedUsers page, grantedGroup page).

(** The sub operation is started and not awaited: it is no part of the
    call. *)
Definition renameMainOperation (page : Page) (newPagePath : string) (user : option User)
           (options : RenameOptions) (pageOpId : ObjectId) : M (option Page) :=
  (* sanitize path *)
  let newPagePath := xss_process crowi newPagePath in
  (* UserGroup & Owner validation *)
  g <- effectiveGrant page ;;
  let '(grant_, grantedUserIds, grantedGroupId) := g in
  (if negb (isRestricted grant_) then
     ps <- gets pages ;;
     if negb (isGrantNormalized crowi ps user newPagePath grant_ (Some grantedUserIds)
                                grantedGroupId false)
     then throw (CannotRenameGrant newPagePath)
     else ret tt
   else ret tt) ;;;
  (* 1. Take target off from tree *)
  takeOffFromTree (_id page) ;;;
  (* 2. Find new parent *)
  under <- isRenamingToUnderTarget (path page) newPagePath ;;
  newParent <-
    (if under then getParentAndforceCreateEmptyTree page newPagePath
     else getParentAndFillAncestors crowi newPagePath user) ;;
  newParent <- deref newParent ;;
  (* 3. Put back target page to tree (also update the other attrs) *)
  renamedPage <- Page_findByIdAndUpdate (_id page) (fun p =>
      let p := set_parent (Some (_id newParent)) (set_path newPagePath p) in
      if updateMetadata options then set_lastUpdateUser (user_id_of user) p else p) ;;
  (* create page redirect *)
  (if createRedirectPage options then PageRedirect_create (path page) newPagePath
   else ret tt) ;;;
  emit (EvPage "rename" (Some page)) ;;;
  (* Set to Sub *)
  pageOp <- PageOperation_findByIdAndUpdatePageActionStage pageOpId Sub ;;
  match pageOp with
  | None => throw PageOperationNotFound
  | Some _ => ret renamedPage
  end.

(** [addConditionToListOnlyDescendants] *)
Definition conditionToListOnlyDescendants (pth : string) : M (Page -> bool) :=
  if isTopPage pth then ret (fun _ => true)
  else
    re <- newRegExp ("^" ++ escapeStringRegexp (addTrailingSlash pth)) false ;;
    ret (fun p => re (path p)).

(** [generateReadStreamToOperateOnlyDescendants]: the documents the cursor
    gives, read as the list of the documents found when it opens. *)
Definition generateReadStreamToOperateOnlyDescendants (targetPagePath : string)
           (userToOperate : option User) : M (list Page) :=
  onlyDescendants <- conditionToListOnlyDescendants targetPagePath ;;
  Page_find (fun p =>
      excludeEmpty true p
      && conditionAsNotMigrated p (* to avoid affecting v5 pages *)
      && onlyDescendants p
      && conditionToFilteringByViewerToEdit crowi userToOperate p).

(** [unorderedBulkOp.execute()] of updates by [_id]; the driver refuses to
    execute a bulk operation that holds no operation.  The paths are no
    unique key of the pages, so that no update of a path fails. *)
Definition unorderedBulkOp_execute (updates : list (ObjectId * (Page -> Page))) : M unit :=
  match updates with
  | [] => throw MongoError
  | _ => forEachM updates (fun op => Page_updateMany (has_id (fst op)) (snd op))
  end.

Definition renameDescendantsV4 (pages_ : list Page) (user : option User)
           (options : RenameOptions) (oldPagePathPrefix : RegExpObject)
           (newPagePathPrefix : string) : M unit :=
  operations <- mapM (fun page =>
      newPagePath <- String_replace (path page) oldPagePathPrefix newPagePathPrefix ;;
      update <-
        (if updateMetadata options then
           u <- deref user ;;
           ret (fun p => set_lastUpdateUser (Some (user_id u)) (set_path newPagePath p))
         else ret (set_path newPagePath)) ;;
      (* insert PageRedirect *)
      let redirects :=
        if negb (isEmptyPage page) && createRedirectPage options
        then [mkPageRedirect (path page) newPagePath]
        else [] in
      ret ((_id page, update), redirects)) pages_ ;;
  let insertPageRedirectOperations := flat_map snd operations in
  tryCatch (unorderedBulkOp_execute (map fst operations))
           (fun err => if negb (hasCode11000 err) then throw FailedToRenamePages
                       else ret tt) ;;;
  tryCatch (PageRedirect_bulkWrite insertPageRedirectOperations)
           (fun err => if negb (hasCode11000 err) then throw FailedToCreatePageRedirects
                       else ret tt) ;;;
  emit (EvPages "updateMany" pages_).

(** [renameDescendantsWithStreamV4]; [renameDescendants] is called with
    [shouldUseV4Process] at its default, [true], and is [renameDescendantsV4]
    then.  What a batch throws is logged and dropped.  At its end the stream
    assigns the new path to the target page, the object the caller holds:
    the result is that page. *)
Definition renameDescendantsWithStreamV4 (targetPage : Page) (newPagePath : string)
           (user : option User) (options : RenameOptions) : M Page :=
  readStream <- generateReadStreamToOperateOnlyDescendants (path targetPage) user ;;
  let newPagePathPrefix := newPagePath in
  pathRegExp <- newRegExpObject ("^" ++ escapeStringRegexp (path targetPage)) true ;;
  forEachM (createBatchStream BULK_REINDEX_SIZE readStream) (fun batch =>
      tryCatch (renameDescendantsV4 batch user options pathRegExp newPagePathPrefix)
               (fun _ => ret tt)) ;;;
  (* update path *)
  let targetPage := set_path newPagePath targetPage in
  emit (EvPage "syncDescendantsUpdate" (Some targetPage)) ;;;
  ret targetPage.

(** [renamePageV4]; [renameDescendantsWithStream] is called with
    [shouldUseV4Process] at its default, [true], and is
    [renameDescendantsWithStreamV4] then. *)
Definition renamePageV4 (page : Page) (newPagePath : string) (user : option User)
           (options : RenameOptions) : M Page :=
  (* sanitize path *)
  let newPagePath := xss_process crowi newPagePath in
  (* create descendants first *)
  page <-
    (if rename_isRecursively options
     then renameDescendantsWithStreamV4 page newPagePath user options
     else ret page) ;;
  (* update Page *)
  renamedPage <- Page_findByIdAndUpdate (_id page) (fun p =>
      let p := set_path newPagePath p in
      if updateMetadata options then set_lastUpdateUser (user_id_of user) p else p) ;;
  (* update Rivisions *)
  renamedPage <- deref renamedPage ;;
  (if createRedirectPage options then PageRedirect_create (path page) newPagePath
   else ret tt) ;;;
  emit (EvPage "rename" (Some page)) ;;;
  ret renamedPage.

Definition renamePage (page : Page) (newPagePath : string) (user : option User)
           (options : RenameOptions) : M (option Page) :=
  isExist <- Page_exists (fun p => String.eqb (path p) newPagePath) ;;
  if isExist then throw (PageAlreadyExistsAt newPagePath)
  else if isTopPage (path page) then throw ForbiddenToRenameTopPage
  else if shouldUseV4Process page then
    p <- renamePageV4 page newPagePath user options ;; ret (Some p)
  else
    (if isMoveMode options then
       let fromPath_ := path page in
       let toPath_ := newPagePath in
       exists_ <- Page_exists (fun p => String.eqb (path p) newPagePath) ;;
       let canMove := canMoveByPath crowi fromPath_ toPath_ && exists_ in
       if negb canMove then throw CannotMoveToThisPath else ret tt
     else ret tt) ;;;
    ops <- gets pageOperations ;;
    if negb (canOperate crowi ops true (Some (path page)) (Some newPagePath))
    then throw (CannotOperate "rename" newPagePath)
    else
      (* Resumable Operation *)
      pageOp <- PageOperation_create Rename Main page (path page) (Some newPagePath) ;;
      renameMainOperation page newPagePath user options (op_id pageOp).

(** [duplicateV4]; the duplication of the descendants is started and not
    awaited: it is no part of the call. *)
Definition duplicateV4 (page : Page) (newPagePath : string) (user : option User)
           (isRecursively : bool) : M Page :=
  (* create option *)
  let options := mkPageCreateOptions (grant page) (grantedGroup page) in
  let newPagePath := xss_process crowi newPagePath in
  body <- deref (revision page) ;;
  create newPagePath body user options.

(** The tags the duplicate takes over live outside the collections
    modelled; the recursive main operation is started and not awaited. *)
Definition duplicate (page : option Page) (newPagePath : string) (user : option User)
           (isRecursively : bool) : M Page :=
  match page with
  | None => throw CannotFindOrDuplicateEmptyPage
  | Some page =>
      let isEmptyAndNotRecursively := isEmptyPage page && negb isRecursively in
      if isEmptyAndNotRecursively then throw CannotFindOrDuplicateEmptyPage
      else if negb isRecursively && isEmptyPage page then throw PageNotFound
      else
        let newPagePath := xss_process crowi newPagePath in
        (* 1. Separate v4 & v5 process *)
        if shouldUseV4Process page then duplicateV4 page newPagePath user isRecursively
        else
          ops <- gets pageOperations ;;
          if negb (canOperate crowi ops isRecursively (Some (path page)) (Some newPagePath))
          then throw (CannotOperate "duplicate" newPagePath)
          else
            (* 2. UserGroup & Owner validation *)
            g <- effectiveGrant page ;;
            let '(grant_, grantedUserIds, grantedGroupId) := g in
            (if negb (isRestricted grant_) then
               ps <- gets pages ;;
               if negb (isGrantNormalized crowi ps user newPagePath grant_
                                          (Some grantedUserIds) grantedGroupId false)
               then throw (CannotDuplicateGrant newPagePath)
               else ret tt
             else ret tt) ;;;
            (* 3. Duplicate target *)
            let options := mkPageCreateOptions (grant page) (grantedGroup page) in
            duplicatedTarget <-
              (if isEmptyPage page then
                 parent_ <- getParentAndFillAncestors crowi newPagePath user ;;
                 createEmptyPage newPagePath
                                 (match parent_ with Some q => Some (_id q) | None => None end)
                                 None 0
               else
                 body <- deref (revision page) ;;
                 create newPagePath body user options) ;;
            (if isRecursively then
               PageOperation_create Duplicate Main page (path page) (Some newPagePath) ;;;
               ret tt
             else ret tt) ;;;
            ret duplicatedTarget
  end.

(** *** Delete *)

Definition deleteNonEmptyTarget (page : Page) (user : option User) : M (option Page) :=
  let newPath := getDeletedPageName crowi (path page) in
  u <- deref user ;;
  deletedPage <- Page_findByIdAndUpdate (_id page) (fun p =>
      set_descendantCount 0
        (set_parent None
           (set_deleteUser (Some (user_id u))
              (set_status (Some STATUS_DELETED) (set_path newPath p))))) ;;
  PageRedirect_createUnlessExists (path page) newPath ;;;
  emit (EvPage "delete" (Some page)) ;;;
  emit (EvPage "create" deletedPage) ;;;
  ret deletedPage.

Definition deleteEmptyTarget (page : Page) : M unit :=
  Page_deleteOne (fun p =>
      has_id (_id page) p && match isEmpty p with Some true => true | _ => false end).

(** [deletePageV4]; the deletion of the descendants is started and not
    awaited: it is no part of the call. *)
Definition deletePageV4 (page : Page) (user : option User) (isRecursively : bool)
  : M (option Page) :=
  let newPath := getDeletedPageName crowi (path page) in
  let isTrashed := isTrashPage crowi (path page) in
  if isTrashed then throw DoesNotSupportTrashed
  else if negb (isMovablePage crowi (path page)) then throw PageIsNotDeletable
  else
    u <- deref user ;;
    deletedPage <- Page_findByIdAndUpdate (_id page) (fun p =>
        set_deleteUser (Some (user_id u))
          (set_status (Some STATUS_DELETED) (set_path newPath p))) ;;
    PageRedirect_createUnlessExists (path page) newPath ;;;
    emit (EvPage "delete" (Some page)) ;;;
    emit (EvPage "create" deletedPage) ;;;
    ret deletedPage.

(** [deletePage]; its call of [replaceTargetWithPage] gives [page], [null]
    and [true], in that order.  The recursive main operation is started and
    not awaited. *)
Definition deletePage (page : Page) (user : option User) (isRecursively : bool)
  : M (option Page) :=
  (* Separate v4 & v5 process *)
  if shouldUseV4Process page then deletePageV4 page user isRecursively
  else if isEmptyPage page && negb isRecursively then throw PageNotFound
  else if isTrashPage crowi (path page) then throw DoesNotSupportTrashed
  else if negb (isMovablePage crowi (path page)) then throw PageIsNotDeletable
  else
    let newPath := getDeletedPageName crowi (path page) in
    ops <- gets pageOperations ;;
    if negb (canOperate crowi ops isRecursively (Some (path page)) (Some newPath))
    then throw (CannotOperate "delete" newPath)
    else
      (* Replace with an empty page *)
      isChildrenExist <- Page_exists (has_parent (_id page)) ;;
      let shouldReplace := negb isRecursively && isChildrenExist in
      (if shouldReplace
       then replaceTargetWithPage omitUndefined page None ReplaceWithValue false ;;; ret tt
       else ret tt) ;;;
      (* Delete target (only updating an existing document's properties) *)
      deletedPage <-
        (if negb (isEmptyPage page) then deleteNonEmptyTarget page user
         else deleteEmptyTarget page ;;; ret (Some page)) ;;
      (* 1. Update descendantCount *)
      (if isRecursively then
         let inc := if isEmptyPage page then (- descendantCount page)%Z
                    else (- (descendantCount page + 1))%Z in
         updateDescendantCountOfAncestors (parent page) inc true
       else
         updateDescendantCountOfAncestors (parent page) (-1) true) ;;;
      (* 2. Delete leaf empty pages *)
      removeLeafEmptyPagesRecursively (parent page) ;;;
      (if isRecursively then
         PageOperation_create Delete Main page (path page) (Some newPath) ;;; ret tt
       else ret tt) ;;;
      ret deletedPage.

(** [deleteCompletelyOperation]: of the collections it empties of what
    belongs to the pages, the pages and the redirects. *)
Definition deleteCompletelyOperation (pageIds : list ObjectId) (pagePaths : list string)
  : M unit :=
  Page_deleteMany (id_in pageIds) ;;;
  PageRedirect_deleteMany (fun r =>
      existsb (String.eqb (redirect_fromPath r)) pagePaths
      || existsb (String.eqb (redirect_toPath r)) pagePaths).

(** [deleteCompletelyV4]; the deletion of the descendants is started and
    not awaited. *)
Definition deleteCompletelyV4 (page : Page) (user : option User)
           (isRecursively preventEmitting : bool) : M unit :=
  let ids := [_id page] in
  let paths := [path page] in
  deleteCompletelyOperation ids paths ;;;
  if negb (isEmptyPage page) && negb preventEmitting
  then emit (EvPage "deleteCompletely" (Some page))
  else ret tt.

(** [deleteCompletely]; the recursive main operation is started and not
    awaited. *)
Definition deleteCompletely (page : Page) (user : option User)
           (isRecursively preventEmitting : bool) : M unit :=
  if isTopPage (path page) then throw ForbiddenToDeleteTopPage
  else if isEmptyPage page && negb isRecursively then throw PageNotFound
  (* v4 compatible process *)
  else if shouldUseV4Process page
  then deleteCompletelyV4 page user isRecursively preventEmitting
  else
    ops <- gets pageOperations ;;
    if negb (canOperate crowi ops isRecursively (Some (path page)) None)
    then throw (CannotOperate "deleteCompletely" (path page))
    else
      let ids := [_id page] in
      let paths := [path page] in
      (* 1. update descendantCount *)
      (if isRecursively then
         let inc := if isEmptyPage page then (- descendantCount page)%Z
                    else (- (descendantCount page + 1))%Z in
         updateDescendantCountOfAncestors (parent page) inc true
       else
         (* replace with an empty page *)
         shouldReplace <- Page_exists (has_parent (_id page)) ;;
         pageToUpdateDescendantCount <-
           (if shouldReplace then
              replaced <- replaceTargetWithPage omitUndefined page None
                                                ReplaceWithNothing false ;;
              deref replaced
            else ret page) ;;
         updateDescendantCountOfAncestors (parent pageToUpdateDescendantCount) (-1) true) ;;;
      (* 2. then delete target completely *)
      deleteCompletelyOperation ids paths ;;;
      (* delete leaf empty pages *)
      removeLeafEmptyPagesRecursively (parent page) ;;;
      (if negb (isEmptyPage page) && negb preventEmitting
       then emit (EvPage "deleteCompletely" (Some page))
       else ret tt) ;;;
      (if isRecursively then
         PageOperation_create DeleteCompletely Main page (path page) None ;;; ret tt
       else ret tt).

Record DeleteOptions : Type := mkDeleteOptions {
  opt_isRecursively : bool;
  opt_isCompletely : bool
}.

(** The pages of [deleteMultiplePages], one after the other. *)
Definition deletePagesInTurn (pagesToDelete : list Page) (user : option User)
           (options : DeleteOptions) : M unit :=
  let isRecursively := opt_isRecursively options in
  let isCompletely := opt_isCompletely options in
  (* omit duplicate paths if isRecursively true, omit empty pages if isRecursively false *)
  let pages_ :=
    if isRecursively then omitDuplicateAreaPageFromPages crowi pagesToDelete
    else filter (fun p => negb (isEmptyPage p)) pagesToDelete in
  if isCompletely then
    forEachM pages_ (fun page => deleteCompletely page user isRecursively false)
  else
    forEachM pages_ (fun page => deletePage page user isRecursively ;;; ret tt).

Definition deleteMultiplePages (pagesToDelete : list Page) (user : option User)
           (options : DeleteOptions) : M unit :=
  if LIMIT_FOR_MULTIPLE_PAGE_OP <? List.length pagesToDelete
  then throw (MaximumNumberOfPages LIMIT_FOR_MULTIPLE_PAGE_OP)
  else deletePagesInTurn pagesToDelete user options.

(** *** Normalizing parents: the migration *)

(** An element of [{ path: { $in: pathOrRegExps } }]. *)
Inductive PathOrRegExp : Type :=
| PathString (s : string)
| PathRegExp (matcher : string -> bool).

Definition path_in_patterns (l : list PathOrRegExp) (p : Page) : bool :=
  existsb (fun x => match x with
                    | PathString s => String.eqb (path p) s
                    | PathRegExp matcher => matcher (path p)
                    end) l.

(** [Array.from(new Set(l))] *)
Fixpoint uniqueStrings (l : list string) (seen : list string) : list string :=
  match l with
  | [] => []
  | x :: l' =>
      if existsb (String.eqb x) seen then uniqueStrings l' seen
      else x :: uniqueStrings l' (x :: seen)
  end.

Definition BATCH_SIZE : nat := 100.
Definition PAGES_LIMIT : nat := 1000.

(** [Math.floor(total * 0.3)]: for the counts a collection can hold the
    double nearest to [total * 0.3] has the integer part of [3 * total / 10]. *)
Definition floorOf30Percent (total : nat) : nat := total * 3 / 10.

Definition mergedFilter (pathOrRegExps : list PathOrRegExp)
           (publicPathsToNormalize : list string) (grantFiltersByUser : Page -> bool)
           (p : Page) : bool :=
  (grantFiltersByUser p
   && (parent_is_null p && status_is STATUS_PUBLISHED p && negb (String.eqb (path p) "/")))
  && ((match pathOrRegExps with [] => false | _ => path_in_patterns pathOrRegExps p end)
      || (match publicPathsToNormalize with
          | [] => false
          | _ => path_in publicPathsToNormalize p && grant_is GRANT_PUBLIC p
          end)).

(** The documents the aggregation hands to the stream in one iteration: the
    matching documents as they are when it starts, cut by [$limit] when they
    are more than [PAGES_LIMIT]. *)
Definition pagesToStream (filter_ : Page -> bool) (ps : list Page) : list Page :=
  let total := List.length (filter filter_ ps) in
  if PAGES_LIMIT <? total then firstn (floorOf30Percent total) (filter filter_ ps)
  else filter filter_ ps.

(** The counters of a bulk write of [updateMany] operations. *)
Record BulkWriteResult : Type := mkBulkWriteResult { nMatched : nat; nModified : nat }.

Definition updateManyParent (filter_ : Page -> bool) (parentId : ObjectId)
           (res : BulkWriteResult) : M BulkWriteResult :=
  ps <- gets pages ;;
  let matched := filter filter_ ps in
  let modified := filter (fun p => negb (opt_id_eqb (parent p) (Some parentId))) matched in
  Page_updateMany filter_ (set_parent (Some parentId)) ;;;
  ret (mkBulkWriteResult (nMatched res + List.length matched)
                         (nModified res + List.length modified)).

Fixpoint bulkWriteParents (ops : list ((Page -> bool) * ObjectId)) (res : BulkWriteResult)
  : M BulkWriteResult :=
  match ops with
  | [] => ret res
  | (filter_, parentId) :: ops' =>
      res' <- updateManyParent filter_ parentId res ;;
      bulkWriteParents ops' res'
  end.

(** What a run of the migration carries from batch to batch. *)
Record MigrationProgress : Type := mkMigrationProgress {
  nextCount : nat;
  nextSkiped : nat;
  shouldContinue : bool
}.

(** [write] of [migratePagesStream], up to the result of the bulk write of
    the parents. *)
Definition normalizeSiblings (publicPathsToNormalize : list string)
           (grantFiltersByUser : Page -> bool) (user : option User)
           (pages_ : list Page) : M BulkWriteResult :=
  let parentPaths := uniqueStrings (map (fun p => dirname (path p)) pages_) [] in
  (* 1. Remove unnecessary empty pages & reset parent for pages which had had those
        empty pages *)
  let pageIdsToNotDelete := map _id pages_ in
  let emptyPagePathsToDelete := map path pages_ in
  emptyPagesToDelete <- Page_find (fun p =>
      match isEmpty p with Some true => true | _ => false end
      && path_in emptyPagePathsToDelete p
      && negb (id_in pageIdsToNotDelete p)) ;;
  forEachM emptyPagesToDelete (fun p =>
      Page_updateOne (has_parent (_id p)) (set_parent None)) ;;;
  removeEmptyPages pageIdsToNotDelete emptyPagePathsToDelete ;;;
  (* 2. Create lacking parents as empty pages *)
  let filterForApplicableAncestors :=
    conditionToFilterByApplicableAncestors publicPathsToNormalize in
  createEmptyPagesByPaths crowi parentPaths user false (Some filterForApplicableAncestors) ;;;
  (* 3. Find parents *)
  parents <- Page_find (fun p =>
      grantFiltersByUser p && path_in parentPaths p
      && conditionToFilterByApplicableAncestors publicPathsToNormalize p) ;;
  (* Normalize all siblings for each page *)
  updateManyOperations <- mapM (fun parent_ =>
      let parentPathEscaped :=
        escapeStringRegexp (if String.eqb (path parent_) "/" then "" else path parent_) in
      re <- newRegExp ("^" ++ parentPathEscaped ++ "(\/[^/]+)\/?$") true ;;
      ret (fun p => re (path p) && filterForApplicableAncestors p && grantFiltersByUser p,
           _id parent_)) parents ;;
  bulkWriteParents updateManyOperations (mkBulkWriteResult 0 0).

(** [write] of [migratePagesStream]; no write of its bulks fails in the
    model, so [writeErrors] is empty. *)
Definition migratePages (publicPathsToNormalize : list string)
           (grantFiltersByUser : Page -> bool) (user : option User)
           (pages_ : list Page) (progress : MigrationProgress) : M MigrationProgress :=
  res <- normalizeSiblings publicPathsToNormalize grantFiltersByUser user pages_ ;;
  let nextCount_ := nextCount progress + nModified res in
  let nextSkiped_ := nextSkiped progress in
  emit (EvPMMigrating nextCount_) ;;;
  emit (EvPMErrorCount nextSkiped_) ;;;
  (* Finish migration if no modification occurred *)
  if (nModified res =? 0) && (nMatched res =? 0) then
    emit (EvPMEnded false) ;;;
    ret (mkMigrationProgress nextCount_ nextSkiped_ false)
  else ret (mkMigrationProgress nextCount_ nextSkiped_ (shouldContinue progress)).

Fixpoint migrateBatches (publicPathsToNormalize : list string)
         (grantFiltersByUser : Page -> bool) (user : option User)
         (batches : list (list Page)) (progress : MigrationProgress) : M MigrationProgress :=
  match batches with
  | [] => ret progress
  | batch :: batches' =>
      progress' <- migratePages publicPathsToNormalize grantFiltersByUser user batch progress ;;
      migrateBatches publicPathsToNormalize grantFiltersByUser user batches' progress'
  end.

(** One iteration of [_normalizeParentRecursively], up to the end of the
    stream. *)
Definition migrateOnce (pathOrRegExps : list PathOrRegExp)
           (publicPathsToNormalize : list string) (grantFiltersByUser : Page -> bool)
           (user : option User) (count skiped : nat) (isFirst : bool)
  : M MigrationProgress :=
  match pathOrRegExps, publicPathsToNormalize with
  | [], [] => throw MongoError
  | _, _ =>
      let merged := mergedFilter pathOrRegExps publicPathsToNormalize grantFiltersByUser in
      (* Limit pages to get *)
      total <- Page_count merged ;;
      (if isFirst then emit (EvPMStarted total) else ret tt) ;;;
      ps <- gets pages ;;
      let pagesStream := pagesToStream merged ps in
      migrateBatches publicPathsToNormalize grantFiltersByUser user
                     (createBatchStream BATCH_SIZE pagesStream)
                     (mkMigrationProgress count skiped true)
  end.

(** [_normalizeParentRecursively]; [fuel] bounds the iterations the model
    follows. *)
Fixpoint _normalizeParentRecursively (fuel : nat) (pathOrRegExps : list PathOrRegExp)
         (publicPathsToNormalize : list string) (grantFiltersByUser : Page -> bool)
         (user : option User) (count skiped : nat) (isFirst : bool) : M unit :=
  match fuel with
  | O => throw OutOfFuel
  | S fuel' =>
      progress <- migrateOnce pathOrRegExps publicPathsToNormalize grantFiltersByUser user
                              count skiped isFirst ;;
      more <- Page_exists (mergedFilter pathOrRegExps publicPathsToNormalize
                                        grantFiltersByUser) ;;
      if more && shouldContinue progress then
        _normalizeParentRecursively fuel' pathOrRegExps publicPathsToNormalize
                                    grantFiltersByUser user (nextCount progress)
                                    (nextSkiped progress) false
      else
        (* End *)
        emit (EvPMEnded true)
  end.

Definition normalizeParentRecursively (fuel : nat) (paths : list string)
           (user : option User) : M unit :=
  let ancestorPaths := flat_map collectAncestorPaths paths in
  (* targets' descendants *)
  regExps <- mapM (fun p =>
      re <- newRegExp ("^" ++ escapeStringRegexp (addTrailingSlash p)) true ;;
      ret (PathRegExp re)) paths ;;
  (* include targets' path *)
  let pathAndRegExpsToNormalize := (regExps ++ map PathString paths)%list in
  (* determine UserGroup condition *)
  let userGroups := userGroupsOf crowi user in
  let grantFiltersByUser := generateGrantCondition user userGroups false false false in
  _normalizeParentRecursively fuel pathAndRegExpsToNormalize ancestorPaths grantFiltersByUser
                              user 0 0 true.

(** Modelled from the spec: [normalizePath] of [@growi/core], which is not
    under src/: the canonical form of a path, with a single leading slash
    and no trailing slash except for the root. *)
Definition normalizePath (p : string) : string :=
  let l := list_ascii_of_string p in
  let l := match rev l with
           | c :: r => if is_slash c then rev r else l
           | [] => l
           end in
  match l with
  | [] => "/"%string
  | c :: _ => if is_slash c then string_of_list_ascii l
              else string_of_list_ascii (slash :: l)
  end.

(** [addConditionToListWithDescendants] *)
Definition conditionToListWithDescendants (pth : string) : M (Page -> bool) :=
  if isTopPage pth then ret (fun _ => true)
  else
    let pathNormalized := normalizePath pth in
    re <- newRegExp ("^" ++ escapeStringRegexp (addTrailingSlash pth)) false ;;
    ret (fun p => String.eqb (path p) pathNormalized || re (path p)).

(** The cursor is read as the list of the documents found when it opens. *)
Definition updateDescendantCountOfSelfAndDescendants (pth : string) : M unit :=
  withDescendants <- conditionToListWithDescendants pth ;;
  found <- Page_find (fun p => conditionAsMigrated p && withDescendants p) ;;
  let aggregatedPages := sortPagesByDescPath found in
  forEachM aggregatedPages (fun document =>
      descendantCount_ <- recountDescendantCount (_id document) ;;
      Page_findByIdAndUpdate (_id document) (set_descendantCount descendantCount_) ;;;
      ret tt).

(** Modelled from the spec: [findByIdAndViewer] of the obsolete page model,
    which is not under src/: the page of that id when the viewer may see it
    (the visibility predicate of the grant evaluator), empty pages left out,
    as [findByIdsAndViewer] finds several. *)
Definition findByIdAndViewer (pageId : ObjectId) (user : option User) : M (option Page) :=
  Page_findOne (fun p =>
      has_id pageId p && excludeEmpty false p
      && generateGrantCondition user (userGroupsOf crowi user) false false false p).

Definition normalizeParentRecursivelySubOperation (page : Page) (user : option User)
           (pageOpId : ObjectId) (prevDescendantCount : Z) : M unit :=
  tryCatch
    ((* update descendantCount of self and descendant pages first *)
     updateDescendantCountOfSelfAndDescendants (path page) ;;;
     (* find pages again to get updated descendantCount, then calculate inc *)
     pageAfterUpdatingDescendantCount <- findByIdAndViewer (_id page) user ;;
     match pageAfterUpdatingDescendantCount with
     | None => throw PageNotFoundAfterUpdatingDescendantCount
     | Some q =>
         let newDescendantCount := descendantCount q in
         let inc := ((newDescendantCount - prevDescendantCount) + 1)%Z in
         updateDescendantCountOfAncestors (Some (_id page)) inc false
     end)
    (fun _ => throw FailedToUpdateDescendantCount) ;;;
  PageOperation_findByIdAndDelete pageOpId.

Definition normalizeParentRecursivelyMainOperation (fuel : nat) (page : Page)
           (user : option User) (pageOpId : ObjectId) : M unit :=
  (* Save prevDescendantCount for sub-operation *)
  exPage <- Page_findOne conditionAsMigrated ;;
  let prevDescendantCount :=
    match exPage with Some q => descendantCount q | None => 0%Z end in
  normalizeParentRecursively fuel [path page] user ;;;
  (* Set to Sub *)
  pageOp <- PageOperation_findByIdAndUpdatePageActionStage pageOpId Sub ;;
  match pageOp with
  | None => throw PageOperationNotFound
  | Some pageOp =>
      normalizeParentRecursivelySubOperation page user (op_id pageOp) prevDescendantCount
  end.

(** The main operations of [normalizeParentRecursivelyByPages], page by
    page. *)
Definition normalizePagesInTurn (fuel : nat) (pages_ : list Page) (user : option User)
  : M unit :=
  let pagesToNormalize := omitDuplicateAreaPageFromPages crowi pages_ in
  ps <- gets pages ;;
  let '(normalizablePages, nonNormalizablePages) :=
    separateNormalizableAndNotNormalizablePages crowi ps user pagesToNormalize in
  match normalizablePages with
  | [] => ret tt
  | _ =>
      forEachM normalizablePages (fun page =>
          ops <- gets pageOperations ;;
          if negb (canOperate crowi ops true (Some (path page)) (Some (path page)))
          then throw (CannotOperate "normalizeParentRecursiively" (path page))
          else
            pageOp <- PageOperation_create NormalizeParent Main page (path page)
                                           (Some (path page)) ;;
            normalizeParentRecursivelyMainOperation fuel page user (op_id pageOp))
  end.

Definition normalizeParentRecursivelyByPages (fuel : nat) (pages_ : option (list Page))
           (user : option User) : M unit :=
  match pages_ with
  | None | Some [] => ret tt
  | Some pages_ =>
      if LIMIT_FOR_MULTIPLE_PAGE_OP <? List.length pages_
      then throw (MaximumNumberOfPageIds LIMIT_FOR_MULTIPLE_PAGE_OP)
      else normalizePagesInTurn fuel pages_ user
  end.

End Operations.




(** * More of the page model and of the page service *)

Unset Implicit Arguments.

(** ** The page model *)

(** [normalizeDescendantCountById]; [reduce] without an initial value
    throws a TypeError on an empty array. *)
Definition normalizeDescendantCountById (pageId : ObjectId) : M unit :=
  children <- Page_find (has_parent pageId) ;;
  match map descendantCount children with
  | [] => throw TypeError
  | c1 :: counts =>
      let sumChildrenDescendantCount := fold_left Z.add counts c1 in
      let sumChildPages :=
        List.length (filter (fun p => negb (isEmptyPage p)) children) in
      Page_updateOne (has_id pageId)
        (set_descendantCount (sumChildrenDescendantCount + Z.of_nat sumChildPages)%Z)
  end.

(** [addConditionForParentNormalization] *)
Definition conditionForParentNormalization (crowi : Crowi) (user : option User) (p : Page)
  : bool :=
  let userGroups := userGroupsOf crowi user in
  match grant p with None => true | Some _ => false end
  || grant_is GRANT_PUBLIC p
  || match user with
     | Some u => grant_is GRANT_OWNER p && existsb (Nat.eqb (user_id u)) (grantedUsers p)
     | None => false
     end
  || match userGroups with
     | Some (g :: gs) =>
         grant_is GRANT_USER_GROUP p
         && match grantedGroup p with
            | Some gg => existsb (Nat.eqb gg) (g :: gs)
            | None => false
            end
     | _ => false
     end.

(** [addConditionAsNonRootPage] *)
Definition conditionAsNonRootPage (p : Page) : bool := negb (String.eqb (path p) "/").

(** The [$or] that opens [addConditionAsMigratablePages]. *)
Definition conditionOnMigratableGrant (p : Page) : bool :=
  negb (grant_is GRANT_RESTRICTED p) || negb (grant_is GRANT_SPECIFIED p).

(** [addConditionAsMigratablePages] *)
Definition conditionAsMigratablePages (crowi : Crowi) (user : option User) (p : Page)
  : bool :=
  conditionOnMigratableGrant p
  && conditionAsNotMigrated p
  && conditionAsNonRootPage p
  && conditionToExcludeTrashed p
  && conditionForParentNormalization crowi user p.

(** ** The page service *)

(** The values of [PageDeleteConfigValue] ([~/interfaces/page-delete-config],
    which is not under src/) as the service tells them apart: the two it
    names, and any other value. *)
Inductive PageDeleteConfigValue : Type :=
| Anyone
| AdminAndAuthor
| OtherConfigValue (name : string).

(** [compareDeleteConfig] *)
Definition compareDeleteConfig (isAdmin isOperator : bool)
           (authority : option PageDeleteConfigValue) : bool :=
  if isAdmin then true
  else
    match authority with
    | Some Anyone | None => true
    | Some AdminAndAuthor => isOperator
    | Some (OtherConfigValue _) => false
    end.

(** [canDeleteLogic]; the operator is a user document, so its [_id] is not
    null. *)
Definition canDeleteLogic (creatorId : option ObjectId) (operator : User)
           (isRecursively : bool)
           (authority recursiveAuthority : option PageDeleteConfigValue) : bool :=
  let isAdmin := admin operator in
  let isOperator :=
    match creatorId with
    | Some c => user_id operator =? c
    | None => false
    end in
  if isRecursively then compareDeleteConfig isAdmin isOperator recursiveAuthority
  else compareDeleteConfig isAdmin isOperator authority.

(** [canDelete] and [filterPagesByCanDelete] ([canDeleteCompletely] and
    [filterPagesByCanDeleteCompletely] are the same with the two settings of
    the complete deletion).  The two authorities are what
    [prepareDeleteConfigValuesForCalc], which is not under src/, makes of
    the configuration. *)
Definition canDelete (singleAuthority recursiveAuthority : option PageDeleteConfigValue)
           (creatorId : option ObjectId) (operator : User) (isRecursively : bool) : bool :=
  canDeleteLogic creatorId operator isRecursively singleAuthority recursiveAuthority.

Definition filterPagesByCanDelete
           (singleAuthority recursiveAuthority : option PageDeleteConfigValue)
           (pages_ : list Page) (user : User) (isRecursively : bool) : list Page :=
  filter (fun p => isEmptyPage p
                   || canDelete singleAuthority recursiveAuthority (creator p) user
                                isRecursively)
         pages_.

Set Implicit Arguments.

(** ** A small wiki to run the operations on *)

Definition unused {A : Type} : M A := throw TypeError.

(** A v5-compatible instance with a permissive grant service, no operation
    in flight, an identity sanitizer and users without groups, who may edit
    every page; the trash is the subtree of [/trash]. *)
Definition exampleCrowi (grantIsNormalized : bool) : Crowi :=
  mkCrowi true true
          (fun _ _ _ _ _ _ _ => grantIsNormalized)
          (fun _ _ l => (l, []))
          (fun _ _ _ _ => true)
          (fun s => s)
          (fun _ => [])
          (fun _ _ => true)
          (fun p => String.prefix "/trash" p)
          (fun p => negb (String.eqb p "/"))
          (fun p => ("/trash" ++ p)%string)
          (fun l => l)
          (fun _ _ _ _ => unused) (fun _ _ _ _ _ => unused)
          (fun _ _ => true).

Definition exampleUser : User := mkUser 100 false.

Definition pageAt (id : ObjectId) (pth : string) (parent_ : option ObjectId)
           (descendantCount_ : Z) : Page :=
  set_descendantCount descendantCount_ (set_parent parent_ (set_path pth (newPage id))).

(** [/] with the child [/a] and the grandchild [/a/b]. *)
Definition exampleRoot : Page := pageAt 1 "/" None 2.
Definition examplePageA : Page := pageAt 2 "/a" (Some 1) 1.
Definition examplePageB : Page := pageAt 3 "/a/b" (Some 2) 0.

Definition exampleDB : DB :=
  mkDB [exampleRoot; examplePageA; examplePageB] [] [] 4 [].

Definition emptyDB : DB := mkDB [] [] [] 1 [].

(** The small wiki with a public page that is not in the tree yet. *)
Definition legacyPage : Page := pageAt 4 "/legacy" None 0.

Definition legacyDB : DB :=
  mkDB [exampleRoot; examplePageA; examplePageB; legacyPage] [] [] 5 [].

(** A collection to migrate: the root, a hundred pages of the first level
    and a page whose path ends with two slashes, none with a parent yet. *)
Fixpoint xs (n : nat) : string :=
  match n with
  | O => EmptyString
  | S n' => String "x" (xs n')
  end.

Definition topLevelPages (n : nat) : list Page :=
  map (fun k => pageAt (S k) (String "/" (xs k)) None 0) (seq 1 n).

Definition strayPage : Page := pageAt 102 "/s/t//" None 0.

Definition migrationDB : DB :=
  mkDB (pageAt 1 "/" None 0 :: topLevelPages 100 ++ [strayPage]) [] [] 103 [].

(** A wide collection to migrate: the root and 1001 pages of the first
    level, named by three letters, none with a parent yet. *)
Definition threeLetters (k : nat) : string :=
  String (ascii_of_nat (97 + (k / 676) mod 26))
    (String (ascii_of_nat (97 + (k / 26) mod 26))
       (String (ascii_of_nat (97 + k mod 26)) EmptyString)).

Definition wideLevel (n : nat) : list Page :=
  map (fun k => pageAt (S k) (String "/" (threeLetters k)) None 0) (seq 1 n).

Definition wideMigrationDB : DB :=
  mkDB (pageAt 1 "/" None 0 :: wideLevel 1001) [] [] 1003 [].

Definition smallMigrationDB : DB :=
  mkDB [pageAt 1 "/" None 0; pageAt 2 "/a" None 0] [] [] 3 [].

(** What [normalizeParentRecursively(['/'], null)] hands to the loop: the
    pattern of the descendants of [/] and [/] itself, and the grant
    condition of a viewer who is not logged in. *)
Definition underRoot : list PathOrRegExp :=
  match RegExp.compile "^\/" with
  | Some p => [PathRegExp (RegExp.exec true p); PathString "/"]
  | None => []
  end.

Definition publicOnly : Page -> bool := generateGrantCondition None None false false false.

Unset Implicit Arguments.

(** ** The vocabulary of the properties *)

(** The sum of a list of counts. *)
Definition sumZ (l : list Z) : Z := fold_right Z.add 0%Z l.

(** The immediate children of a page. *)
Definition childrenOf (id : ObjectId) (ps : list Page) : list Page :=
  filter (has_parent id) ps.

(** A page that counts as a descendant of its own: [isEmpty] is not [true]. *)
Definition isNotEmptyTrue (p : Page) : bool :=
  match isEmpty p with
  | Some true => false
  | _ => true
  end.

(** [hoare P m Q E]: from a collection that satisfies [P], [m] returns a
    value and a collection that satisfy [Q], or throws and leaves a
    collection that satisfies [E]. *)
Definition hoare {A : Type} (P : DB -> Prop) (m : M A) (Q : A -> DB -> Prop)
           (E : DB -> Prop) : Prop :=
  forall db, P db ->
             match m db with
             | (Ok a, db') => Q a db'
             | (Throw _, db') => E db'
             end.

(** A page that may be stored: restricted pages have no parent. *)
Definition rootIfRestricted (p : Page) : Prop :=
  isRestricted (grant p) = true -> parent p = None.

(** Every stored restricted page is a root. *)
Definition RestrictedAreRoots (ps : list Page) : Prop :=
  forall p, In p ps -> rootIfRestricted p.

(** The ids of the stored pages are distinct and were all handed out by
    [newObjectId]; [bound] is an id count already reached. *)
Record WellFormed (bound : ObjectId) (db : DB) : Prop := mkWellFormed {
  wf_nodup : NoDup (map _id (pages db));
  wf_fresh : forall p, In p (pages db) -> _id p < nextId db;
  wf_bound : bound <= nextId db
}.

(** What the operations keep. *)
Definition Inv (bound : ObjectId) (db : DB) : Prop :=
  WellFormed bound db /\ RestrictedAreRoots (pages db).

(** The stored pages of these ids are not restricted. *)
Definition NonRestrictedIds (ids : list ObjectId) (db : DB) : Prop :=
  forall q, In q (pages db) -> In (_id q) ids -> isRestricted (grant q) = false.

(** An action that writes nothing. *)
Definition readOnly {A : Type} (m : M A) : Prop := forall db, snd (m db) = db.

(** The stored page of the id of [p] is [p]. *)
Definition Stored (p : Page) (db : DB) : Prop :=
  List.find (has_id (_id p)) (pages db) = Some p.

(** The grant [create] works with: [PUBLIC] for the top page, else the
    grant of the options. *)
Definition grantToCreate (crowi : Crowi) (pth : string) (options : PageCreateOptions)
  : option nat :=
  if isTopPage (xss_process crowi pth) then Some GRANT_PUBLIC else opt_grant options.

(** The granted users [create] hands to the validation: the user, for the
    grant [OWNER]. *)
Definition grantedUsersToCreate (user : option User) (grant_ : option nat)
  : option (list ObjectId) :=
  match grant_, user with
  | Some g, Some u => if g =? GRANT_OWNER then Some [user_id u] else None
  | _, _ => None
  end.

(** The empty page, and the page that is not empty, of a path. *)
Definition emptyPageAt (pth : string) (p : Page) : bool :=
  String.eqb (path p) pth && match isEmpty p with Some true => true | _ => false end.

Definition nonEmptyPageAt (pth : string) (p : Page) : bool :=
  String.eqb (path p) pth && match isEmpty p with Some false => true | _ => false end.

(** What lets [create] go through when the page is to be a root. *)
Definition createIsAccepted (crowi : Crowi) (pth : string) (user : option User)
           (options : PageCreateOptions) (db : DB) : Prop :=
  canOperate crowi (pageOperations db) false None (Some pth) = true
  /\ List.length (filter (nonEmptyPageAt (xss_process crowi pth)) (pages db)) = 0
  /\ (isRestricted (grantToCreate crowi pth options) = true
      \/ isGrantNormalized crowi (pages db) user (xss_process crowi pth)
           (grantToCreate crowi pth options) None (opt_grantUserGroupId options)
           (match List.find (emptyPageAt (xss_process crowi pth)) (pages db) with
            | Some _ => true
            | None => false
            end) = true).

(** [run_of t]: the result of a run, computed, as an equation in the
    context. *)
Ltac run_of t :=
  let v := eval vm_compute in t in
  let H := fresh "Hrun" in
  assert (H : t = v) by (vm_compute; reflexivity).

(** The walk of [removeLeafEmptyPagesRecursively], in the words of the
    specification: from a page upward, while the page is empty and has no
    child other than the page the walk came from, the page is to be deleted
    and the walk goes on with its parent. *)
Definition hasOtherChild (ps : list Page) (child : option ObjectId) (page : Page) : Prop :=
  exists q, In q ps /\ parent q = Some (_id page)
            /\ (forall c, child = Some c -> _id q <> c).

(** The stored parent of a page. *)
Definition parentOf (ps : list Page) (page : Page) : option Page :=
  match parent page with
  | Some pid => List.find (has_id pid) ps
  | None => None
  end.

(** [LeafChain ps child page ids]: the walk from [page], entered from
    [child], deletes the pages of [ids], in this order. *)
Inductive LeafChain (ps : list Page) : option ObjectId -> Page -> list ObjectId -> Prop :=
| LeafChain_not_empty (child : option ObjectId) (page : Page) :
    isEmptyPage page = false ->
    LeafChain ps child page []
| LeafChain_other_child (child : option ObjectId) (page : Page) :
    isEmptyPage page = true ->
    hasOtherChild ps child page ->
    LeafChain ps child page []
| LeafChain_last (child : option ObjectId) (page : Page) :
    isEmptyPage page = true ->
    ~ hasOtherChild ps child page ->
    parentOf ps page = None ->
    LeafChain ps child page [_id page]
| LeafChain_step (child : option ObjectId) (page next : Page) (ids : list ObjectId) :
    isEmptyPage page = true ->
    ~ hasOtherChild ps child page ->
    parentOf ps page = Some next ->
    LeafChain ps (Some (_id page)) next ids ->
    LeafChain ps child page (_id page :: ids).

(** The ids of a walk, latest first: each page has no child but the page
    visited before it, the first none at all. *)
Inductive VisitedChain (ps : list Page) : list ObjectId -> Prop :=
| VisitedChain_nil : VisitedChain ps []
| VisitedChain_first (x : ObjectId) :
    (forall q, In q ps -> parent q <> Some x) ->
    VisitedChain ps [x]
| VisitedChain_cons (x y : ObjectId) (rest : list ObjectId) :
    VisitedChain ps (y :: rest) ->
    (forall q, In q ps -> parent q = Some x -> _id q = y) ->
    VisitedChain ps (x :: y :: rest).

(** What holds at every call of [generatePageIdsToRemove]: the ids gathered
    are distinct ids of stored pages and form a visited chain, and the page
    at hand is the stored parent of the page gathered last. *)
Record WalkInv (ps : list Page) (childId : option ObjectId) (page : Page)
       (pageIds : list ObjectId) : Prop := mkWalkInv {
  walk_nodup : NoDup pageIds;
  walk_incl : incl pageIds (map _id ps);
  walk_chain : VisitedChain ps (rev pageIds);
  walk_page : In page ps;
  walk_link :
    match rev pageIds with
    | [] => childId = None
    | c :: _ =>
        childId = Some c
        /\ exists cp, In cp ps /\ _id cp = c /\ parent cp = Some (_id page)
    end
}.

(** A path segment: characters, at least one, none of them a slash. *)
Definition isSegment (seg : list ascii) : Prop :=
  seg <> [] /\ Forall (fun c => c <> slash) seg.

(** [q] is one level below [p]: [p], a slash and one segment; with
    [trailingSlash], one more slash may close it. *)
Definition OneLevelBelow (trailingSlash : bool) (p q : list ascii) : Prop :=
  exists seg,
    isSegment seg
    /\ (q = p ++ slash :: seg
        \/ (trailingSlash = true /\ q = p ++ slash :: seg ++ [slash])).

(** No character of the path has a meaning of its own in a regular
    expression. *)
Definition isLiteralPath (p : list ascii) : Prop :=
  forallb (fun c => negb (RegExp.is_syntax_char c)) p = true.

(** The pattern of a literal text followed by [r]. *)
Fixpoint literally (s : list ascii) (r : RegExp.re) : RegExp.re :=
  match s with
  | [] => r
  | c :: s' => RegExp.Seq (RegExp.Chr c) (literally s' r)
  end.

Definition notSlash : RegExp.re := RegExp.Cls true [slash].

(** What is left of [[^/]+] once its first character is read. *)
Definition segmentTail : RegExp.re := RegExp.Seq (RegExp.Star notSlash) RegExp.Eps.

(** [(\/[^/]+)\/?], as it is compiled. *)
Definition oneMoreSegment : RegExp.re :=
  RegExp.Seq
    (RegExp.Seq (RegExp.Chr slash) (RegExp.Seq (RegExp.Plus notSlash) RegExp.Eps))
    (RegExp.Seq (RegExp.Opt (RegExp.Chr slash)) RegExp.Eps).

(** A bulk write that modified nothing and matched nothing. *)
Definition stalled (res : BulkWriteResult) : bool :=
  (nModified res =? 0) && (nMatched res =? 0).

(** The results of the bulk writes of the batches of one iteration, in the
    order of the batches, each on the collection the batches before it
    left. *)
Fixpoint batchResults (crowi : Crowi) (publicPathsToNormalize : list string)
         (grantFiltersByUser : Page -> bool) (user : option User)
         (batches : list (list Page)) (progress : MigrationProgress) (db : DB)
  : list BulkWriteResult :=
  match batches with
  | [] => []
  | batch :: batches' =>
      match normalizeSiblings crowi publicPathsToNormalize grantFiltersByUser user batch db,
            migratePages crowi publicPathsToNormalize grantFiltersByUser user batch progress db
      with
      | (Ok res, _), (Ok progress', db') =>
          res :: batchResults crowi publicPathsToNormalize grantFiltersByUser user
                              batches' progress' db'
      | _, _ => []
      end
  end.

(** How many candidates an iteration takes from [total]. *)
Definition takenFrom (total : nat) : nat :=
  if PAGES_LIMIT <? total then floorOf30Percent total else total.


(** ** The vocabulary of the further properties *)

(** The documents [insertMany] stores for [docs] when the next fresh id is
    [id]. *)
Fixpoint insertedFrom (id : ObjectId) (docs : list (Page -> Page)) : list Page :=
  match docs with
  | [] => []
  | d :: docs' => d (newPage id) :: insertedFrom (S id) docs'
  end.

(** The ids of the stored pages are below the next fresh id. *)
Definition FreshIds (db : DB) : Prop :=
  forall p, In p (pages db) -> _id p < nextId db.

(** [AncestorChain ps target chain]: [chain] is what the parent links of
    [ps] give from [target] upward, nearest first, up to a page without a
    stored parent. *)
Inductive AncestorChain (ps : list Page) : Page -> list Page -> Prop :=
| AncestorChain_top (target : Page) :
    parentOf ps target = None ->
    AncestorChain ps target []
| AncestorChain_up (target par : Page) (rest : list Page) :
    parentOf ps target = Some par ->
    AncestorChain ps par rest ->
    AncestorChain ps target (par :: rest).

(** The empty page [createEmptyPage] makes. *)
Definition emptyPageOf (id : ObjectId) (pth : string) (parent_ : option ObjectId)
           (creator_ : option ObjectId) (descendantCount_ : Z) : Page :=
  set_creator creator_
    (set_descendantCount descendantCount_
       (set_parent parent_ (set_isEmpty (Some true) (set_path pth (newPage id))))).

(** [startsWith ci prefix q]: [q] begins with [prefix], letter case aside
    when [ci]. *)
Fixpoint startsWith (ci : bool) (prefix q : list ascii) : bool :=
  match prefix, q with
  | [], _ => true
  | c :: prefix', d :: q' => RegExp.chr_eqb ci c d && startsWith ci prefix' q'
  | _ :: _, [] => false
  end.

(** The pages with their descendant counts put aside. *)
Definition forgetCounts (ps : list Page) : list Page := map (set_descendantCount 0) ps.

(** The page [deleteNonEmptyTarget] makes of a page for the user [u]. *)
Definition trashedPage (crowi : Crowi) (u : User) (page : Page) : Page :=
  set_descendantCount 0
    (set_parent None
       (set_deleteUser (Some (user_id u))
          (set_status (Some STATUS_DELETED)
             (set_path (getDeletedPageName crowi (path page)) page)))).

(** The page [Page.create] stores for a new path under the parent [par]. *)
Definition createdPage (id : ObjectId) (pth body : string) (user : option User)
           (options : PageCreateOptions) (par : Page) : Page :=
  set_lastUpdateUser (user_id_of user)
    (set_revision (Some body)
       (applyScope user (opt_grant options) (opt_grantUserGroupId options)
          (set_parent (Some (_id par))
             (set_status (Some STATUS_PUBLISHED)
                (set_lastUpdateUser (user_id_of user)
                   (set_creator (user_id_of user)
                      (set_path pth (newPage id)))))))).

(** The page [renameMainOperation] stores for a page under the new parent
    [par]. *)
Definition renamedPage (newPagePath : string) (user : option User) (options : RenameOptions)
           (par page : Page) : Page :=
  let p := set_parent (Some (_id par)) (set_path newPagePath page) in
  if updateMetadata options then set_lastUpdateUser (user_id_of user) p else p.

(** The page [updatePage] stores for a page it takes off the tree. *)
Definition pageOffTree (user : option User) (grant_ : option nat)
           (grantUserGroupId : option ObjectId) (body : string) (pageData : Page) : Page :=
  set_lastUpdateUser (user_id_of user)
    (set_revision (Some body)
       (applyScope user grant_ grantUserGroupId
          (set_descendantCount 0 (set_parent None pageData)))).

(** The [isChildrenExist] of [updatePage]: a page with a parent has a path
    that begins with the path of the page and its closing slash. *)
Definition hasDescendantInTree (pageData : Page) (ps : list Page) : bool :=
  existsb (fun p =>
             startsWith false (list_ascii_of_string (addTrailingSlash (path pageData)))
                        (list_ascii_of_string (path p))
             && negb (parent_is_null p)) ps.

(** * Properties *)


(** ** Shared facts *)

Lemma has_parent_true (id : ObjectId) (p : Page) :
  has_parent id p = true -> parent p = Some id.
Proof.
  unfold has_parent, opt_id_eqb.
  destruct (parent p) as [x|]; try discriminate.
  intro H. apply Nat.eqb_eq in H. now subst.
Qed.


(** ** recountDescendantCount *)

Lemma docCount_project (par : option ObjectId) (n : Z) (p : Page) :
  docCount (mkProjected par (isEmpty p) n)
  = if isNotEmptyTrue p then 1%Z else 0%Z.
Proof.
  unfold docCount, isNotEmptyTrue; simpl.
  destruct (isEmpty p) as [[|]|]; reflexivity.
Qed.

(** Documents of one parent fall into the one group that is open. *)
Lemma stage_group_one_parent (id : ObjectId) (docs : list Page) (g : Grouped) :
  Forall (fun p => parent p = Some id) docs ->
  g_id g = Some id ->
  fold_left (fun groups d => accumulate d groups) (stage_project docs) [g]
  = [mkGrouped (Some id)
       (sumOfDescendantCount g + sumZ (map descendantCount docs))%Z
       (sumOfDocsCount g
        + Z.of_nat (List.length (filter isNotEmptyTrue docs)))%Z].
Proof.
  intros Hall. revert g.
  induction Hall as [|p docs Hp Hall IH]; intros g Hg; simpl.
  - destruct g as [gid s c]; simpl in *. subst gid.
    now rewrite !Z.add_0_r.
  - rewrite Hg, Hp. cbn [opt_id_eqb]. rewrite Nat.eqb_refl.
    rewrite IH by reflexivity.
    cbn [sumOfDescendantCount sumOfDocsCount pj_descendantCount map sumZ fold_right].
    rewrite docCount_project. fold (sumZ (map descendantCount docs)).
    destruct (isNotEmptyTrue p); cbn [List.length];
      f_equal; f_equal; lia.
Qed.

Lemma recountDescendantCountOf_children (id : ObjectId) (ps : list Page) :
  recountDescendantCountOf id ps
  = (sumZ (map descendantCount (childrenOf id ps))
     + Z.of_nat (List.length (filter isNotEmptyTrue (childrenOf id ps))))%Z.
Proof.
  unfold recountDescendantCountOf, stage_match, stage_group, childrenOf.
  assert (Hall : Forall (fun p => parent p = Some id) (filter (has_parent id) ps)).
  { apply Forall_forall. intros p Hp. apply filter_In in Hp.
    now apply has_parent_true. }
  destruct (filter (has_parent id) ps) as [|p docs] eqn:E.
  - reflexivity.
  - inversion Hall as [|? ? Hp Hdocs]; subst.
    cbn [stage_project map fold_left accumulate].
    rewrite (stage_group_one_parent id); auto.
    cbn [stage_set map sumOfDescendantCount sumOfDocsCount pj_descendantCount sumZ
         fold_right filter].
    rewrite docCount_project. fold (sumZ (map descendantCount docs)).
    destruct (isNotEmptyTrue p); cbn [List.length]; lia.
Qed.

(** C6: [recountDescendantCount(pageId)] returns the sum of the
    [descendantCount] of the immediate children of [pageId] plus the number
    of the immediate children whose [isEmpty] is not [true]; it returns 0
    when the page has no children; it writes nothing, and two collections
    with the same immediate children of [pageId] give the same count, so
    nothing below the children is read. *)
Theorem recountDescendantCount_immediate_children (id : ObjectId) :
  (forall db,
      recountDescendantCount id db
      = (Ok (sumZ (map descendantCount (childrenOf id (pages db)))
             + Z.of_nat (List.length (filter isNotEmptyTrue (childrenOf id (pages db)))))%Z,
         db))
  /\ (forall db, childrenOf id (pages db) = [] ->
                 recountDescendantCount id db = (Ok 0%Z, db))
  /\ (forall db1 db2,
         childrenOf id (pages db1) = childrenOf id (pages db2) ->
         fst (recountDescendantCount id db1) = fst (recountDescendantCount id db2)).
Proof.
  assert (H : forall db,
      recountDescendantCount id db
      = (Ok (sumZ (map descendantCount (childrenOf id (pages db)))
             + Z.of_nat (List.length (filter isNotEmptyTrue (childrenOf id (pages db)))))%Z,
         db)).
  { intro db. unfold recountDescendantCount, gets.
    now rewrite recountDescendantCountOf_children. }
  split; [exact H|]. split.
  - intros db Hnone. rewrite H, Hnone. reflexivity.
  - intros db1 db2 Heq. rewrite !H. simpl. now rewrite Heq.
Qed.


(** ** Rejections before any write *)

(** C7: when a page exists at the destination path, or the target is the
    top page, [renamePage] throws and leaves the whole database as it was:
    both checks come before the operation log, [takeOffFromTree] and every
    other write. *)
Theorem renamePage_rejects_before_any_write
        (crowi : Crowi) (omitUndefined : bool) (page : Page) (newPagePath : string)
        (user : option User) (options : RenameOptions) (db : DB) :
  existsb (fun p => String.eqb (path p) newPagePath) (pages db) = true
  \/ isTopPage (path page) = true ->
  exists e,
    renamePage crowi omitUndefined page newPagePath user options db = (Throw e, db)
    /\ (e = PageAlreadyExistsAt newPagePath \/ e = ForbiddenToRenameTopPage).
Proof.
  intros H. unfold renamePage, bind, Page_exists, gets.
  destruct (existsb (fun p => String.eqb (path p) newPagePath) (pages db)) eqn:E.
  - exists (PageAlreadyExistsAt newPagePath). split; [reflexivity | now left].
  - destruct H as [H | H]; [discriminate|].
    rewrite H. exists ForbiddenToRenameTopPage. split; [reflexivity | now right].
Qed.

Lemma renamePage_rejects_before_any_write_witness :
  (existsb (fun p => String.eqb (path p) "/a/b") (pages exampleDB) = true
   \/ isTopPage (path examplePageA) = true)
  /\ exists e,
      renamePage (exampleCrowi true) false examplePageA "/a/b" (Some exampleUser)
                 (mkRenameOptions false false false false) exampleDB = (Throw e, exampleDB)
      /\ (e = PageAlreadyExistsAt "/a/b" \/ e = ForbiddenToRenameTopPage).
Proof.
  split.
  - left. reflexivity.
  - apply (renamePage_rejects_before_any_write (exampleCrowi true) false examplePageA
             "/a/b" (Some exampleUser) (mkRenameOptions false false false false) exampleDB).
    left. reflexivity.
Defined.

(** C8: with more than 20 pages [deleteMultiplePages] and
    [normalizeParentRecursivelyByPages] throw and leave the database as it
    was; with 20 pages or fewer the limit rejects nothing: the call is the
    page-by-page processing itself. *)
Theorem multiple_page_operations_limit
        (crowi : Crowi) (omitUndefined : bool) (fuel : nat) (pages_ : list Page)
        (user : option User) (options : DeleteOptions) (db : DB) :
  (20 < List.length pages_ ->
   deleteMultiplePages crowi omitUndefined pages_ user options db
   = (Throw (MaximumNumberOfPages 20), db)
   /\ normalizeParentRecursivelyByPages crowi fuel (Some pages_) user db
      = (Throw (MaximumNumberOfPageIds 20), db))
  /\ (List.length pages_ <= 20 ->
      deleteMultiplePages crowi omitUndefined pages_ user options db
      = deletePagesInTurn crowi omitUndefined pages_ user options db
      /\ normalizeParentRecursivelyByPages crowi fuel (Some pages_) user db
         = match pages_ with
           | [] => (Ok tt, db)
           | _ => normalizePagesInTurn crowi fuel pages_ user db
           end).
Proof.
  unfold deleteMultiplePages, normalizeParentRecursivelyByPages,
    LIMIT_FOR_MULTIPLE_PAGE_OP.
  split; intro H.
  - assert (E : (20 <? List.length pages_) = true) by (apply Nat.ltb_lt; lia).
    rewrite E. destruct pages_ as [|p l]; [simpl in H; lia|].
    split; reflexivity.
  - assert (E : (20 <? List.length pages_) = false) by (apply Nat.ltb_ge; lia).
    rewrite E. destruct pages_; split; reflexivity.
Qed.

Lemma multiple_page_operations_limit_witness :
  (20 < List.length (repeat examplePageB 21)
   /\ deleteMultiplePages (exampleCrowi true) false (repeat examplePageB 21)
        (Some exampleUser) (mkDeleteOptions false false) exampleDB
      = (Throw (MaximumNumberOfPages 20), exampleDB)
   /\ normalizeParentRecursivelyByPages (exampleCrowi true) 1
        (Some (repeat examplePageB 21)) (Some exampleUser) exampleDB
      = (Throw (MaximumNumberOfPageIds 20), exampleDB))
  /\ (List.length (repeat examplePageB 20) <= 20
      /\ deleteMultiplePages (exampleCrowi true) false (repeat examplePageB 20)
           (Some exampleUser) (mkDeleteOptions false false) exampleDB
         = deletePagesInTurn (exampleCrowi true) false (repeat examplePageB 20)
             (Some exampleUser) (mkDeleteOptions false false) exampleDB).
Proof.
  split.
  - split; [simpl; lia|].
    apply (multiple_page_operations_limit (exampleCrowi true) false 1
             (repeat examplePageB 21) (Some exampleUser) (mkDeleteOptions false false)
             exampleDB).
    simpl; lia.
  - split; [simpl; lia|].
    apply (multiple_page_operations_limit (exampleCrowi true) false 1
             (repeat examplePageB 20) (Some exampleUser) (mkDeleteOptions false false)
             exampleDB).
    simpl; lia.
Defined.


(** ** A Hoare logic for the monad

    [hoare P m Q E]: from a database satisfying [P], [m] ends in a database
    satisfying [Q a] when it returns [a] and [E] when it throws. *)

Lemma hoare_ret {A : Type} (P : DB -> Prop) (E : DB -> Prop) (a : A) :
  hoare P (ret a) (fun r db => r = a /\ P db) E.
Proof. intros db H. simpl. auto. Qed.

Lemma hoare_throw {A : Type} (P : DB -> Prop) (Q : A -> DB -> Prop) (E : DB -> Prop)
      (e : Error) :
  (forall db, P db -> E db) -> hoare P (throw e) Q E.
Proof. intros H db HP. simpl. auto. Qed.

Lemma hoare_bind {A B : Type} (P : DB -> Prop) (m : M A) (Q : A -> DB -> Prop)
      (k : A -> M B) (R : B -> DB -> Prop) (E : DB -> Prop) :
  hoare P m Q E ->
  (forall a, hoare (Q a) (k a) R E) ->
  hoare P (bind m k) R E.
Proof.
  intros Hm Hk db HP. unfold bind. specialize (Hm db HP).
  destruct (m db) as [[a|e] db']; auto.
  apply (Hk a db' Hm).
Qed.

Lemma hoare_conseq {A : Type} (P P' : DB -> Prop) (m : M A) (Q Q' : A -> DB -> Prop)
      (E E' : DB -> Prop) :
  hoare P' m Q' E' ->
  (forall db, P db -> P' db) ->
  (forall a db, Q' a db -> Q a db) ->
  (forall db, E' db -> E db) ->
  hoare P m Q E.
Proof.
  intros H HP HQ HE db Hdb. specialize (H db (HP db Hdb)).
  destruct (m db) as [[a|e] db']; auto.
Qed.

Lemma hoare_pre {A : Type} (P P' : DB -> Prop) (m : M A) (Q : A -> DB -> Prop)
      (E : DB -> Prop) :
  hoare P' m Q E -> (forall db, P db -> P' db) -> hoare P m Q E.
Proof. intros H HP. eapply hoare_conseq; eauto. Qed.

Lemma hoare_post {A : Type} (P : DB -> Prop) (m : M A) (Q Q' : A -> DB -> Prop)
      (E : DB -> Prop) :
  hoare P m Q' E -> (forall a db, Q' a db -> Q a db) -> hoare P m Q E.
Proof. intros H HQ. eapply hoare_conseq; eauto. Qed.

(** A fact that does not depend on the database can be taken out of the
    precondition. *)
Lemma hoare_pure {A : Type} (F : Prop) (P : DB -> Prop) (m : M A) (Q : A -> DB -> Prop)
      (E : DB -> Prop) :
  (F -> hoare P m Q E) -> hoare (fun db => F /\ P db) m Q E.
Proof. intros H db [HF HP]. apply (H HF db HP). Qed.

Lemma hoare_gets {A : Type} (P : DB -> Prop) (E : DB -> Prop) (f : DB -> A) :
  hoare P (gets f) (fun a db => a = f db /\ P db) E.
Proof. intros db H. simpl. auto. Qed.

Lemma hoare_modify (P : DB -> Prop) (Q : DB -> Prop) (E : DB -> Prop) (f : DB -> DB) :
  (forall db, P db -> Q (f db)) ->
  hoare P (modify f) (fun _ db => Q db) E.
Proof. intros H db HP. simpl. auto. Qed.

Lemma hoare_deref {A : Type} (P : DB -> Prop) (E : DB -> Prop) (o : option A) :
  (forall db, P db -> E db) ->
  hoare P (deref o) (fun a db => o = Some a /\ P db) E.
Proof. intros H db HP. destruct o; simpl; auto. Qed.

Lemma hoare_forEachM {A : Type} (I : DB -> Prop) (E : DB -> Prop) (l : list A)
      (f : A -> M unit) :
  (forall x, In x l -> hoare I (f x) (fun _ db => I db) E) ->
  hoare I (forEachM l f) (fun _ db => I db) E.
Proof.
  induction l as [|x l IH]; intros H.
  - intros db HI. simpl. auto.
  - simpl. eapply hoare_bind.
    + apply H. now left.
    + intros ?. apply IH. intros y Hy. apply H. now right.
Qed.

Lemma hoare_tryCatch {A : Type} (P : DB -> Prop) (m : M A) (Q : A -> DB -> Prop)
      (E' E : DB -> Prop) (h : Error -> M A) :
  hoare P m Q E' ->
  (forall e, hoare E' (h e) Q E) ->
  hoare P (tryCatch m h) Q E.
Proof.
  intros Hm Hh db HP. unfold tryCatch. specialize (Hm db HP).
  destruct (m db) as [[a|e] db']; auto.
  apply (Hh e db' Hm).
Qed.

(** What a run gives, read off a triple. *)
Lemma hoare_run {A : Type} (P : DB -> Prop) (m : M A) (Q : A -> DB -> Prop)
      (E : DB -> Prop) (db db' : DB) (r : Result A) :
  hoare P m Q E -> P db -> m db = (r, db') ->
  match r with
  | Ok a => Q a db'
  | Throw _ => E db'
  end.
Proof. intros H HP Hrun. specialize (H db HP). now rewrite Hrun in H. Qed.

(** ** Well-formed collections and the invariant of the restricted pages *)

Lemma Inv_weaken (n m : ObjectId) (db : DB) :
  Inv n db -> m <= n -> Inv m db.
Proof.
  intros [[H1 H2 H3] H4] Hm. split; [constructor|]; auto. lia.
Qed.

Lemma Inv_zero (n : ObjectId) (db : DB) : Inv n db -> Inv 0 db.
Proof. intro H. apply (Inv_weaken n 0 db H). lia. Qed.

(** *** The list operations *)

Lemma map_id_updateFirst (f : Page -> bool) (u : Page -> Page) (ps : list Page) :
  (forall p, In p ps -> f p = true -> _id (u p) = _id p) ->
  map _id (updateFirst f u ps) = map _id ps.
Proof.
  induction ps as [|p ps IH]; intros H; simpl; [reflexivity|].
  destruct (f p) eqn:E; simpl.
  - f_equal. apply H; [now left | exact E].
  - f_equal. apply IH. intros q Hq. apply H. now right.
Qed.

Lemma map_id_updateAll (f : Page -> bool) (u : Page -> Page) (ps : list Page) :
  (forall p, In p ps -> f p = true -> _id (u p) = _id p) ->
  map _id (updateAll f u ps) = map _id ps.
Proof.
  induction ps as [|p ps IH]; intros H; simpl; [reflexivity|].
  f_equal.
  - destruct (f p) eqn:E; [apply H; [now left | exact E] | reflexivity].
  - apply IH. intros q Hq. apply H. now right.
Qed.

Lemma In_updateFirst (f : Page -> bool) (u : Page -> Page) (ps : list Page) (q : Page) :
  In q (updateFirst f u ps) ->
  In q ps \/ exists p, In p ps /\ f p = true /\ q = u p.
Proof.
  induction ps as [|p ps IH]; simpl; [tauto|].
  destruct (f p) eqn:E; simpl.
  - intros [<- | H]; [right; exists p; auto | left; auto].
  - intros [<- | H]; [left; auto|].
    destruct (IH H) as [H1 | [p' [H1 [H2 H3]]]]; [left; auto|].
    right. exists p'. auto.
Qed.

Lemma In_updateAll (f : Page -> bool) (u : Page -> Page) (ps : list Page) (q : Page) :
  In q (updateAll f u ps) ->
  exists p, In p ps /\ q = if f p then u p else p.
Proof.
  unfold updateAll. intro H. apply in_map_iff in H.
  destruct H as [p [H1 H2]]. exists p. auto.
Qed.

Lemma In_removeFirst (f : Page -> bool) (ps : list Page) (q : Page) :
  In q (removeFirst f ps) -> In q ps.
Proof.
  induction ps as [|p ps IH]; simpl; [tauto|].
  destruct (f p); simpl; [auto|]. intros [H | H]; auto.
Qed.

Lemma NoDup_map_removeFirst (f : Page -> bool) (ps : list Page) :
  NoDup (map _id ps) -> NoDup (map _id (removeFirst f ps)).
Proof.
  induction ps as [|p ps IH]; simpl; intro H; [constructor|].
  inversion H as [|? ? Hn Hd]; subst.
  destruct (f p); simpl; [exact Hd|].
  constructor; [|auto].
  intro Hin. apply Hn. apply in_map_iff in Hin. destruct Hin as [q [Hq1 Hq2]].
  apply in_map_iff. exists q. split; [exact Hq1|]. now apply In_removeFirst in Hq2.
Qed.

Lemma NoDup_map_filter (f : Page -> bool) (ps : list Page) :
  NoDup (map _id ps) -> NoDup (map _id (filter f ps)).
Proof.
  induction ps as [|p ps IH]; simpl; intro H; [constructor|].
  inversion H as [|? ? Hn Hd]; subst.
  destruct (f p); simpl; [|auto].
  constructor; [|auto].
  intro Hin. apply Hn. apply in_map_iff in Hin. destruct Hin as [q [Hq1 Hq2]].
  apply in_map_iff. exists q. split; [exact Hq1|]. now apply filter_In in Hq2.
Qed.

Lemma existsb_has_id (id : ObjectId) (ps : list Page) :
  existsb (has_id id) ps = true <-> In id (map _id ps).
Proof.
  rewrite existsb_exists, in_map_iff. unfold has_id.
  split; intros [p [H1 H2]]; exists p.
  - apply Nat.eqb_eq in H2. auto.
  - split; [tauto|]. apply Nat.eqb_eq. tauto.
Qed.

(** With distinct ids a stored page is found by its id. *)
Lemma NoDup_same_id (ps : list Page) (p q : Page) :
  NoDup (map _id ps) -> In p ps -> In q ps -> _id p = _id q -> p = q.
Proof.
  induction ps as [|x ps IH]; simpl; [tauto|].
  intros H Hp Hq Heq. inversion H as [|? ? Hn Hd]; subst.
  destruct Hp as [-> | Hp], Hq as [-> | Hq]; auto.
  - exfalso. apply Hn. rewrite Heq. now apply in_map.
  - exfalso. apply Hn. rewrite <- Heq. now apply in_map.
Qed.

(** *** Writes that keep the invariant *)

(** An update in place keeps the invariant when it keeps the ids and gives
    storable pages. *)
Lemma Inv_updateFirst (n : ObjectId) (f : Page -> bool) (u : Page -> Page) (db : DB) :
  Inv n db ->
  (forall p, In p (pages db) -> f p = true ->
             _id (u p) = _id p /\ rootIfRestricted (u p)) ->
  Inv n (with_pages (updateFirst f u (pages db)) db).
Proof.
  intros [[H1 H2 H3] H4] Hu.
  assert (Hids : map _id (updateFirst f u (pages db)) = map _id (pages db)).
  { apply map_id_updateFirst. intros p Hp Hf. now apply Hu. }
  split; [constructor|]; simpl; auto.
  - now rewrite Hids.
  - intros q Hq. apply In_updateFirst in Hq.
    destruct Hq as [Hq | [p [Hp [Hf ->]]]]; [auto|].
    destruct (Hu p Hp Hf) as [-> _]. auto.
  - intros q Hq. apply In_updateFirst in Hq.
    destruct Hq as [Hq | [p [Hp [Hf ->]]]]; [auto|].
    now apply Hu.
Qed.

Lemma Inv_updateAll (n : ObjectId) (f : Page -> bool) (u : Page -> Page) (db : DB) :
  Inv n db ->
  (forall p, In p (pages db) -> f p = true ->
             _id (u p) = _id p /\ rootIfRestricted (u p)) ->
  Inv n (with_pages (updateAll f u (pages db)) db).
Proof.
  intros [[H1 H2 H3] H4] Hu.
  assert (Hids : map _id (updateAll f u (pages db)) = map _id (pages db)).
  { apply map_id_updateAll. intros p Hp Hf. now apply Hu. }
  split; [constructor|]; simpl; auto.
  - now rewrite Hids.
  - intros q Hq. apply In_updateAll in Hq. destruct Hq as [p [Hp ->]].
    destruct (f p) eqn:Hf; [|auto].
    destruct (Hu p Hp Hf) as [-> _]. auto.
  - intros q Hq. apply In_updateAll in Hq. destruct Hq as [p [Hp ->]].
    destruct (f p) eqn:Hf; [|auto]. now apply Hu.
Qed.

Lemma Inv_removeAll (n : ObjectId) (f : Page -> bool) (db : DB) :
  Inv n db -> Inv n (with_pages (removeAll f (pages db)) db).
Proof.
  intros [[H1 H2 H3] H4]. unfold removeAll.
  split; [constructor|]; simpl; auto.
  - now apply NoDup_map_filter.
  - intros q Hq. apply filter_In in Hq. apply H2. tauto.
  - intros q Hq. apply filter_In in Hq. apply H4. tauto.
Qed.

Lemma Inv_removeFirst (n : ObjectId) (f : Page -> bool) (db : DB) :
  Inv n db -> Inv n (with_pages (removeFirst f (pages db)) db).
Proof.
  intros [[H1 H2 H3] H4].
  split; [constructor|]; simpl; auto.
  - now apply NoDup_map_removeFirst.
  - intros q Hq. apply In_removeFirst in Hq. auto.
  - intros q Hq. apply In_removeFirst in Hq. auto.
Qed.

(** What does not touch the pages keeps the invariant. *)
Lemma Inv_same_pages (n : ObjectId) (db db' : DB) :
  Inv n db -> pages db' = pages db -> nextId db <= nextId db' -> Inv n db'.
Proof.
  intros [[H1 H2 H3] H4] Hp Hn.
  split; [constructor|]; rewrite ?Hp; auto.
  - intros p Hp'. specialize (H2 p Hp'). lia.
  - lia.
Qed.

Lemma NoDup_snoc (l : list ObjectId) (x : ObjectId) :
  NoDup l -> ~ In x l -> NoDup (l ++ [x]).
Proof.
  induction l as [|y l IH]; simpl; intros H Hx.
  - constructor; [tauto | constructor].
  - inversion H as [|? ? Hn Hd]; subst. constructor.
    + rewrite in_app_iff. simpl. intuition congruence.
    + apply IH; tauto.
Qed.

(** A page is written in place of the stored page of its id, or after the
    others when its id is new. *)
Lemma Inv_save (n : ObjectId) (p : Page) (db : DB) :
  Inv n db -> _id p < nextId db -> rootIfRestricted p ->
  Inv n (if existsb (has_id (_id p)) (pages db)
         then with_pages (updateFirst (has_id (_id p)) (fun _ => p) (pages db)) db
         else with_pages (pages db ++ [p]) db).
Proof.
  intros HI Hlt Hok.
  destruct (existsb (has_id (_id p)) (pages db)) eqn:E.
  - apply Inv_updateFirst; [exact HI|].
    intros q Hq Hf. unfold has_id in Hf. apply Nat.eqb_eq in Hf. auto.
  - destruct HI as [[H1 H2 H3] H4].
    assert (Hnot : ~ In (_id p) (map _id (pages db))).
    { intro Hin. apply existsb_has_id in Hin. congruence. }
    split; [constructor|]; simpl; auto.
    + rewrite map_app. simpl. now apply NoDup_snoc.
    + intros q Hq. apply in_app_iff in Hq. destruct Hq as [Hq | [<- | []]]; auto.
    + intros q Hq. apply in_app_iff in Hq. destruct Hq as [Hq | [<- | []]]; auto.
Qed.


(** *** The primitives *)

Lemma hoare_gets_fact {A : Type} (P : DB -> Prop) (E : DB -> Prop) (f : DB -> A)
      (F : A -> Prop) :
  (forall db, P db -> F (f db)) ->
  hoare P (gets f) (fun a db => F a /\ P db) E.
Proof. intros H db HP. simpl. auto. Qed.

Lemma hoare_true {A : Type} (P : DB -> Prop) (m : M A) (Q : A -> DB -> Prop)
      (E : DB -> Prop) :
  hoare P m Q E -> hoare (fun db => True /\ P db) m Q E.
Proof. intro H. apply hoare_pure. auto. Qed.

Lemma rootIfRestricted_not_restricted (p : Page) :
  isRestricted (grant p) = false -> rootIfRestricted p.
Proof. unfold rootIfRestricted. congruence. Qed.

Lemma rootIfRestricted_root (p : Page) : parent p = None -> rootIfRestricted p.
Proof. unfold rootIfRestricted. auto. Qed.

Lemma Inv_roots (n : ObjectId) (db : DB) (p : Page) :
  Inv n db -> In p (pages db) -> rootIfRestricted p.
Proof. intros [_ H] Hp. now apply H. Qed.

Lemma Inv_fresh (n : ObjectId) (db : DB) (p : Page) :
  Inv n db -> In p (pages db) -> _id p < nextId db.
Proof. intros [[_ H _] _] Hp. now apply H. Qed.

Lemma Inv_bound (n : ObjectId) (db : DB) : Inv n db -> n <= nextId db.
Proof. intros [[_ _ H] _]. exact H. Qed.

(** Raising the bound to an id that is stored. *)
Lemma Inv_raise (n : ObjectId) (db : DB) (p : Page) :
  Inv n db -> In p (pages db) -> Inv (Nat.max n (S (_id p))) db.
Proof.
  intros HI Hp. pose proof (Inv_fresh n db p HI Hp) as Hlt.
  destruct HI as [[H1 H2 H3] H4]. split; [constructor|]; auto. lia.
Qed.

Lemma newObjectId_Inv (n : ObjectId) (E : DB -> Prop) :
  hoare (Inv n) newObjectId (fun id db => Inv (Nat.max n (S id)) db) E.
Proof.
  intros db [[H1 H2 H3] H4]. simpl.
  split; [constructor|]; simpl; auto.
  - intros p Hp. specialize (H2 p Hp). lia.
  - lia.
Qed.

Lemma Page_save_Inv (n : ObjectId) (E : DB -> Prop) (p : Page) :
  _id p < n -> rootIfRestricted p ->
  hoare (Inv n) (Page_save p) (fun r db => r = p /\ Inv n db) E.
Proof.
  intros Hlt Hok db HI. unfold Page_save, bind, modify, ret.
  split; [reflexivity|].
  apply Inv_save; auto. pose proof (Inv_bound n db HI). lia.
Qed.

Lemma Page_updateMany_Inv (n : ObjectId) (E : DB -> Prop) (f : Page -> bool)
      (u : Page -> Page) (P : DB -> Prop) :
  (forall db p, Inv n db -> P db -> In p (pages db) -> f p = true ->
                _id (u p) = _id p /\ rootIfRestricted (u p)) ->
  hoare (fun db => Inv n db /\ P db) (Page_updateMany f u) (fun _ db => Inv n db) E.
Proof.
  intros H db [HI HP]. unfold Page_updateMany, modify.
  apply Inv_updateAll; eauto.
Qed.

Lemma Page_updateOne_Inv (n : ObjectId) (E : DB -> Prop) (f : Page -> bool)
      (u : Page -> Page) (P : DB -> Prop) :
  (forall db p, Inv n db -> P db -> In p (pages db) -> f p = true ->
                _id (u p) = _id p /\ rootIfRestricted (u p)) ->
  hoare (fun db => Inv n db /\ P db) (Page_updateOne f u) (fun _ db => Inv n db) E.
Proof.
  intros H db [HI HP]. unfold Page_updateOne, modify.
  apply Inv_updateFirst; eauto.
Qed.

Lemma Page_deleteMany_Inv (n : ObjectId) (E : DB -> Prop) (f : Page -> bool) :
  hoare (Inv n) (Page_deleteMany f) (fun _ db => Inv n db) E.
Proof. intros db HI. unfold Page_deleteMany, modify. now apply Inv_removeAll. Qed.

Lemma Page_deleteOne_Inv (n : ObjectId) (E : DB -> Prop) (f : Page -> bool) :
  hoare (Inv n) (Page_deleteOne f) (fun _ db => Inv n db) E.
Proof. intros db HI. unfold Page_deleteOne, modify. now apply Inv_removeFirst. Qed.

Lemma emit_Inv (n : ObjectId) (E : DB -> Prop) (e : Event) :
  hoare (Inv n) (emit e) (fun _ db => Inv n db) E.
Proof.
  intros db HI. unfold emit, modify. apply (Inv_same_pages n db); auto.
Qed.

Lemma PageRedirect_deleteOne_Inv (n : ObjectId) (E : DB -> Prop) (from : string) :
  hoare (Inv n) (PageRedirect_deleteOne from) (fun _ db => Inv n db) E.
Proof.
  intros db HI. unfold PageRedirect_deleteOne, modify.
  apply (Inv_same_pages n db); auto.
Qed.

Lemma Page_insertMany_Inv (n : ObjectId) (E : DB -> Prop) (docs : list (Page -> Page)) :
  (forall d id, In d docs ->
                _id (d (newPage id)) = id /\ rootIfRestricted (d (newPage id))) ->
  hoare (Inv n) (Page_insertMany docs) (fun _ db => Inv n db) E.
Proof.
  induction docs as [|d docs IH]; intros H; simpl.
  - intros db HI. simpl. exact HI.
  - eapply hoare_bind; [apply newObjectId_Inv|]. intros id.
    destruct (H d id (or_introl eq_refl)) as [Hid Hok].
    eapply hoare_bind.
    + apply Page_save_Inv; [rewrite Hid; lia | exact Hok].
    + intros p. apply hoare_pure. intros _.
      eapply hoare_bind.
      * eapply hoare_pre; [apply IH|].
        -- intros d' id' Hd'. apply H. now right.
        -- intros db HI. apply (Inv_weaken _ n db HI). lia.
      * intros ps db HI. simpl. exact HI.
Qed.

Lemma createEmptyPagesByPaths_Inv (n : ObjectId) (E : DB -> Prop) (crowi : Crowi)
      (paths : list string) (user : option User) (onlyMigrated : bool)
      (filter_ : option (Page -> bool)) :
  hoare (Inv n) (createEmptyPagesByPaths crowi paths user onlyMigrated filter_)
        (fun _ db => Inv n db) E.
Proof.
  unfold createEmptyPagesByPaths.
  eapply hoare_bind.
  - unfold Page_find. apply hoare_gets_fact with (F := fun _ => True). auto.
  - intros existingPages. apply hoare_pure. intros _.
    eapply hoare_bind.
    + apply Page_insertMany_Inv. intros d id Hd.
      apply in_map_iff in Hd. destruct Hd as [pth [<- _]].
      split; [reflexivity | apply rootIfRestricted_root; reflexivity].
    + intros ps db HI. simpl. exact HI.
Qed.

Lemma createEmptyPage_Inv (n : ObjectId) (crowi : Crowi) (pth : string)
      (parent_ : option ObjectId) (creator_ : option ObjectId) (dc : Z) :
  hoare (Inv n) (createEmptyPage pth parent_ creator_ dc)
        (fun _ db => Inv n db) (Inv 0).
Proof.
  unfold createEmptyPage. destruct parent_ as [par|].
  - eapply hoare_bind; [apply newObjectId_Inv|]. intros id.
    eapply hoare_post.
    + apply Page_save_Inv; [simpl; lia|].
      apply rootIfRestricted_not_restricted. reflexivity.
    + intros p db [_ HI]. apply (Inv_weaken _ n db HI). lia.
  - apply hoare_throw. intros db. apply Inv_zero.
Qed.


(** *** getParentAndFillAncestors *)

Lemma In_insertByDescPath (x y : Page) (l : list Page) :
  In y (insertByDescPath x l) -> y = x \/ In y l.
Proof.
  induction l as [|z l IH]; simpl.
  - intros [<- | []]. now left.
  - destruct (String.ltb (path z) (path x)); simpl.
    + intros [<- | H]; auto.
    + intros [<- | H]; auto. destruct (IH H); auto.
Qed.

Lemma In_sortPagesByDescPath (y : Page) (l : list Page) :
  In y (sortPagesByDescPath l) -> In y l.
Proof.
  unfold sortPagesByDescPath.
  assert (H : forall acc, In y (fold_left (fun acc x => insertByDescPath x acc) l acc) ->
                          In y l \/ In y acc).
  { induction l as [|x l IH]; simpl; intros acc Hy; [now right|].
    destruct (IH _ Hy) as [H | H]; [left; now right|].
    apply In_insertByDescPath in H. destruct H as [-> | H]; [left; now left | now right]. }
  intro Hy. destruct (H [] Hy) as [H1 | []]. exact H1.
Qed.

Lemma parentUpdates_fst (ancestors l : list Page) (ops : list (ObjectId * ObjectId)) :
  parentUpdates ancestors l = Some ops -> map fst ops = map _id l.
Proof.
  revert ops. induction l as [|p l IH]; simpl; intros ops H.
  - injection H as <-. reflexivity.
  - destruct (ancestorsMap_get ancestors (dirname (path p))) as [par|]; [|discriminate].
    destruct (parentUpdates ancestors l) as [ops'|]; [|discriminate].
    injection H as <-. simpl. f_equal. now apply IH.
Qed.

Lemma grant_is_public_not_restricted (p : Page) :
  grant_is GRANT_PUBLIC p = true -> isRestricted (grant p) = false.
Proof.
  unfold grant_is, isRestricted. destruct (grant p) as [g|]; [|reflexivity].
  intro H. apply Nat.eqb_eq in H. now subst.
Qed.

Lemma has_parent_not_restricted (p : Page) :
  rootIfRestricted p -> parent_is_null p = false -> isRestricted (grant p) = false.
Proof.
  unfold rootIfRestricted, parent_is_null. intros H Hp.
  destruct (isRestricted (grant p)); [|reflexivity].
  rewrite H in Hp by reflexivity. discriminate.
Qed.

(** An ancestor the walk re-links, other than the root, is not restricted. *)
Lemma applicable_ancestor_not_restricted (paths : list string) (p : Page) :
  conditionToFilterByApplicableAncestors paths p && path_in paths p = true ->
  isTopPage (path p) = false ->
  rootIfRestricted p ->
  isRestricted (grant p) = false.
Proof.
  unfold conditionToFilterByApplicableAncestors, isTopPage.
  intros H Htop Hok. rewrite Htop in H.
  apply andb_true_iff in H. destruct H as [H Hin]. rewrite Hin in H. simpl in H.
  rewrite orb_false_r in H.
  apply orb_true_iff in H. destruct H as [H | H].
  - apply andb_true_iff in H. destruct H as [H _].
    now apply grant_is_public_not_restricted.
  - apply andb_true_iff in H. destruct H as [H _].
    apply has_parent_not_restricted; [exact Hok|].
    now apply negb_true_iff in H.
Qed.

Lemma NonRestrictedIds_set_parent (ids : list ObjectId) (f : Page -> bool)
      (v : option ObjectId) (db : DB) :
  NonRestrictedIds ids db ->
  NonRestrictedIds ids (with_pages (updateFirst f (set_parent v) (pages db)) db).
Proof.
  intros H q Hq Hid. simpl in Hq. apply In_updateFirst in Hq.
  destruct Hq as [Hq | [p [Hp [_ ->]]]]; [auto|].
  simpl in *. auto.
Qed.

Lemma getParentAndFillAncestors_Inv (n : ObjectId) (crowi : Crowi) (pth : string)
      (user : option User) :
  hoare (Inv n) (getParentAndFillAncestors crowi pth user) (fun _ db => Inv n db) (Inv 0).
Proof.
  unfold getParentAndFillAncestors.
  eapply hoare_bind.
  { unfold Page_find. apply hoare_gets_fact with (F := fun _ => True). auto. }
  intros pagesCanBeParent. apply hoare_pure. intros _.
  destruct pagesCanBeParent as [|first rest].
  2: { intros db HI. simpl. exact HI. }
  eapply hoare_bind; [apply createEmptyPagesByPaths_Inv|]. intros _u.
  eapply hoare_bind; [unfold Page_find; apply hoare_gets|]. intros found.
  set (ancestorPaths := collectAncestorPaths pth).
  set (nonRoot := filter (fun p => negb (isTopPage (path p))) (sortPagesByDescPath found)).
  eapply hoare_pre with
    (P' := fun db => Inv n db /\ NonRestrictedIds (map _id nonRoot) db).
  2: { intros db [-> HI]. split; [exact HI|].
       intros q Hq Hid. apply in_map_iff in Hid. destruct Hid as [p [Hpid Hp]].
       unfold nonRoot in Hp. apply filter_In in Hp. destruct Hp as [Hp Htop].
       apply In_sortPagesByDescPath in Hp. apply filter_In in Hp.
       destruct Hp as [Hp Hc].
       assert (p = q).
       { destruct HI as [[Hnd _ _] _]. apply (NoDup_same_id (pages db)); auto. }
       subst q.
       apply (applicable_ancestor_not_restricted ancestorPaths); auto.
       - now apply negb_true_iff in Htop.
       - now apply (Inv_roots n db). }
  eapply hoare_bind.
  { apply hoare_deref. intros db [HI _]. now apply (Inv_zero n). }
  intros ops. apply hoare_pure. intros Hops.
  apply parentUpdates_fst in Hops.
  eapply hoare_bind.
  { apply hoare_forEachM with
      (I := fun db => Inv n db /\ NonRestrictedIds (map _id nonRoot) db).
    intros [id pid] Hop db [HI HN]. unfold Page_updateOne, modify. simpl.
    split.
    - apply Inv_updateFirst; [exact HI|].
      intros p Hp Hf. split; [reflexivity|].
      apply rootIfRestricted_not_restricted. simpl.
      apply HN; [exact Hp|]. rewrite <- Hops.
      unfold has_id in Hf. apply Nat.eqb_eq in Hf. rewrite Hf.
      apply (in_map fst) in Hop. exact Hop.
    - now apply NonRestrictedIds_set_parent. }
  intros _u2 db [HI _]. simpl. exact HI.
Qed.

(** *** Counters and pruning *)

Lemma rootIfRestricted_set_descendantCount (v : Z) (p : Page) :
  rootIfRestricted p -> rootIfRestricted (set_descendantCount v p).
Proof. unfold rootIfRestricted. simpl. auto. Qed.

Lemma incrementDescendantCountOfPageIds_Inv (n : ObjectId) (E : DB -> Prop)
      (ids : list ObjectId) (inc : Z) :
  hoare (Inv n) (incrementDescendantCountOfPageIds ids inc) (fun _ db => Inv n db) E.
Proof.
  intros db HI. unfold incrementDescendantCountOfPageIds, Page_updateMany, modify.
  apply Inv_updateAll; [exact HI|].
  intros p Hp _. split; [reflexivity|].
  apply rootIfRestricted_set_descendantCount. now apply (Inv_roots n db).
Qed.

Lemma Page_findById_Inv (n : ObjectId) (E : DB -> Prop) (id : option ObjectId) :
  hoare (Inv n) (Page_findById id)
        (fun r db => (forall p, r = Some p -> In p (pages db)) /\ Inv n db) E.
Proof.
  intros db HI. destruct id as [i|]; simpl.
  - split; [|exact HI]. intros p Hp. now apply find_some in Hp.
  - split; [|exact HI]. discriminate.
Qed.

Lemma findAncestorsUsingParentRecursively_Inv (n : ObjectId) (pageId : option ObjectId)
      (incl : bool) :
  hoare (Inv n) (findAncestorsUsingParentRecursively pageId incl)
        (fun _ db => Inv n db) (Inv 0).
Proof.
  unfold findAncestorsUsingParentRecursively.
  eapply hoare_bind; [apply Page_findById_Inv|]. intros target.
  eapply hoare_pre with (P' := Inv n); [|intros db [_ HI]; exact HI].
  destruct target as [target|].
  2: { apply hoare_throw. intros db. apply Inv_zero. }
  eapply hoare_bind; [apply hoare_gets|]. intros ps.
  eapply hoare_pre with (P' := Inv n); [|intros db [_ HI]; exact HI].
  destruct (findAncestorsRecursively _ _ _ _).
  - intros db HI. simpl. exact HI.
  - apply hoare_throw. intros db. apply Inv_zero.
Qed.

Lemma updateDescendantCountOfAncestors_Inv (n : ObjectId) (pageId : option ObjectId)
      (inc : Z) (incl : bool) :
  hoare (Inv n) (updateDescendantCountOfAncestors pageId inc incl)
        (fun _ db => Inv n db) (Inv 0).
Proof.
  unfold updateDescendantCountOfAncestors.
  eapply hoare_bind; [apply findAncestorsUsingParentRecursively_Inv|]. intros ancestors.
  eapply hoare_bind; [apply incrementDescendantCountOfPageIds_Inv|]. intros _u.
  apply emit_Inv.
Qed.

Lemma removeLeafEmptyPagesRecursively_Inv (n : ObjectId) (pageId : option ObjectId) :
  hoare (Inv n) (removeLeafEmptyPagesRecursively pageId) (fun _ db => Inv n db) (Inv 0).
Proof.
  unfold removeLeafEmptyPagesRecursively.
  eapply hoare_bind; [apply Page_findById_Inv|]. intros initialPage.
  eapply hoare_pre with (P' := Inv n); [|intros db [_ HI]; exact HI].
  destruct initialPage as [initialPage|].
  2: { intros db HI. simpl. exact HI. }
  destruct (negb (isEmptyPage initialPage)).
  { intros db HI. simpl. exact HI. }
  eapply hoare_bind; [apply hoare_gets|]. intros ps.
  eapply hoare_pre with (P' := Inv n); [|intros db [_ HI]; exact HI].
  destruct (generatePageIdsToRemove _ _ _ _ _).
  - apply Page_deleteMany_Inv.
  - apply hoare_throw. intros db. apply Inv_zero.
Qed.

Lemma pushRevision_Inv (n : ObjectId) (E : DB -> Prop) (p : Page) (body : string)
      (user : option User) :
  _id p < n -> rootIfRestricted p ->
  hoare (Inv n) (pushRevision p body user)
        (fun r db => (_id r = _id p /\ parent r = parent p /\ grant r = grant p)
                     /\ Inv n db) E.
Proof.
  intros Hlt Hok. unfold pushRevision.
  eapply hoare_post.
  - apply Page_save_Inv; [exact Hlt | exact Hok].
  - intros r db [-> HI]. simpl. auto.
Qed.


(** ** Reads

    [readOnly m]: [m] leaves the database as it found it, whatever it
    answers. *)
Lemma readOnly_ret {A : Type} (a : A) : readOnly (ret a).
Proof. intro db. reflexivity. Qed.

Lemma readOnly_throw {A : Type} (e : Error) : readOnly (@throw A e).
Proof. intro db. reflexivity. Qed.

Lemma readOnly_gets {A : Type} (f : DB -> A) : readOnly (gets f).
Proof. intro db. reflexivity. Qed.

Lemma readOnly_deref {A : Type} (o : option A) : readOnly (deref o).
Proof. intro db. destruct o; reflexivity. Qed.

Lemma readOnly_bind {A B : Type} (m : M A) (k : A -> M B) :
  readOnly m -> (forall a, readOnly (k a)) -> readOnly (bind m k).
Proof.
  intros Hm Hk db. unfold bind. specialize (Hm db).
  destruct (m db) as [[a|e] db']; simpl in *; subst; [apply Hk | reflexivity].
Qed.

Lemma readOnly_Page_find (f : Page -> bool) : readOnly (Page_find f).
Proof. apply readOnly_gets. Qed.

Lemma readOnly_Page_findOne (f : Page -> bool) : readOnly (Page_findOne f).
Proof. apply readOnly_gets. Qed.

Lemma readOnly_Page_findById (id : option ObjectId) : readOnly (Page_findById id).
Proof. destruct id; [apply readOnly_gets | apply readOnly_ret]. Qed.

Lemma readOnly_Page_count (f : Page -> bool) : readOnly (Page_count f).
Proof. apply readOnly_gets. Qed.

Lemma readOnly_Page_exists (f : Page -> bool) : readOnly (Page_exists f).
Proof. apply readOnly_gets. Qed.

Lemma readOnly_newRegExp (source : string) (ci : bool) : readOnly (newRegExp source ci).
Proof.
  unfold newRegExp. destruct (RegExp.compile source);
    [apply readOnly_ret | apply readOnly_throw].
Qed.

Lemma readOnly_recountDescendantCount (id : ObjectId) :
  readOnly (recountDescendantCount id).
Proof. apply readOnly_gets. Qed.

Lemma readOnly_run {A : Type} (m : M A) (db db' : DB) (r : Result A) :
  readOnly m -> m db = (r, db') -> db' = db.
Proof. intros H Hrun. specialize (H db). rewrite Hrun in H. exact H. Qed.

Lemma hoare_readOnly {A : Type} (P : DB -> Prop) (E : DB -> Prop) (m : M A) :
  readOnly m -> (forall db, P db -> E db) ->
  hoare P m (fun _ db => P db) E.
Proof.
  intros Hm HE db HP. specialize (Hm db).
  destruct (m db) as [[a|e] db']; simpl in Hm; subst; auto.
Qed.

(** A read that throws stops a sequence where the database stands. *)
Lemma bind_throw {A B : Type} (m : M A) (k : A -> M B) (db db' : DB) (e : Error) :
  m db = (Throw e, db') -> bind m k db = (Throw e, db').
Proof. intro H. unfold bind. now rewrite H. Qed.

Lemma bind_ok {A B : Type} (m : M A) (k : A -> M B) (db db' : DB) (a : A) :
  m db = (Ok a, db') -> bind m k db = k a db'.
Proof. intro H. unfold bind. now rewrite H. Qed.

Ltac read_only :=
  repeat first
    [ apply readOnly_ret
    | apply readOnly_throw
    | apply readOnly_gets
    | apply readOnly_deref
    | apply readOnly_Page_findById
    | apply readOnly_newRegExp
    | apply readOnly_bind; [|intros ?]
    | match goal with
      | |- readOnly (if ?b then _ else _) => destruct b
      | |- readOnly (match ?o with Some _ => _ | None => _ end) => destruct o
      | |- readOnly (let '(_, _) := ?x in _) => destruct x
      end ].


(** *** Page.create and Page.updatePage keep the invariant *)

Lemma applyScope_id (user : option User) (g : option nat) (gid : option ObjectId)
      (p : Page) :
  _id (applyScope user g gid p) = _id p /\ parent (applyScope user g gid p) = parent p.
Proof. split; reflexivity. Qed.

Lemma applyScope_restricted (user : option User) (g : option nat)
      (gid : option ObjectId) (p : Page) :
  isRestricted (grant (applyScope user g gid p)) = isRestricted g.
Proof.
  unfold applyScope. simpl. destruct g as [[|k]|]; reflexivity.
Qed.

Lemma applyScope_grant_restricted (user : option User) (g : option nat)
      (gid : option ObjectId) (p : Page) :
  isRestricted g = true -> grant (applyScope user g gid p) = Some GRANT_RESTRICTED.
Proof.
  unfold applyScope, isRestricted. simpl. destruct g as [[|k]|]; try discriminate.
  intro H. apply Nat.eqb_eq in H. now rewrite H.
Qed.

(** The grant validation of [create] reads only. *)
Lemma create_validation_readOnly (crowi : Crowi) (user : option User) (pth : string)
      (grant_ : option nat) (gid : option ObjectId) (check : bool) :
  readOnly
    (if negb (isRestricted grant_) then
       newGrantedUserIds <-
         (if match grant_ with Some g => g =? GRANT_OWNER | None => false end
          then u <- deref user ;; ret (Some [user_id u])
          else ret None) ;;
       ps <- gets pages ;;
       if negb (isGrantNormalized crowi ps user pth grant_ newGrantedUserIds gid check)
       then throw GrantNotAssignable
       else ret tt
     else ret tt).
Proof. read_only. Qed.

Lemma create_Inv (n : ObjectId) (crowi : Crowi) (pth body : string) (user : option User)
      (options : PageCreateOptions) :
  isV5Compatible crowi = true ->
  hoare (Inv n) (create crowi pth body user options)
        (fun r db =>
           Inv 0 db
           /\ parent r
              = (if isTopPage (xss_process crowi pth) then None
                 else if isRestricted (opt_grant options) then None else parent r)
           /\ isRestricted (grant r)
              = (if isTopPage (xss_process crowi pth) then false
                 else isRestricted (opt_grant options)))
        (Inv 0).
Proof.
  intros Hv5. unfold create. rewrite Hv5. simpl negb.
  destruct (isSetUp crowi); simpl negb; cbv iota.
  2: { apply hoare_throw. intros db. apply Inv_zero. }
  eapply hoare_bind; [apply hoare_readOnly; [apply readOnly_gets | apply Inv_zero]|].
  intros ops.
  destruct (negb (canOperate crowi ops false None (Some pth))).
  { apply hoare_throw. intros db. apply Inv_zero. }
  set (pth' := xss_process crowi pth).
  eapply hoare_bind; [apply hoare_readOnly; [apply readOnly_gets | apply Inv_zero]|].
  intros cnt.
  destruct (0 <? cnt).
  { apply hoare_throw. intros db. apply Inv_zero. }
  set (grant_ := if isTopPage pth' then Some GRANT_PUBLIC else opt_grant options).
  assert (Hgrant : isRestricted grant_
                   = if isTopPage pth' then false else isRestricted (opt_grant options)).
  { unfold grant_. destruct (isTopPage pth'); reflexivity. }
  eapply hoare_bind; [unfold Page_findOne; apply hoare_gets|].
  intros emptyPage.
  set (bound := match emptyPage with Some e => Nat.max n (S (_id e)) | None => n end).
  eapply hoare_pre with (P' := Inv bound).
  2: { intros db [-> HI]. unfold bound.
       destruct (find _ (pages db)) as [e|] eqn:Ef; [|exact HI].
       apply find_some in Ef. apply Inv_raise; tauto. }
  eapply hoare_bind.
  { apply hoare_readOnly; [apply create_validation_readOnly | apply Inv_zero]. }
  intros _u.
  eapply hoare_bind with
    (Q := fun page db => Inv (Nat.max n (S (_id page))) db).
  { destruct emptyPage as [e|], (isRestricted grant_).
    - eapply hoare_bind; [apply newObjectId_Inv|]. intros id db HI. simpl.
      apply (Inv_weaken _ _ db HI). unfold bound. lia.
    - eapply hoare_bind.
      + apply hoare_readOnly; [apply readOnly_recountDescendantCount | apply Inv_zero].
      + intros dc db HI. simpl. exact HI.
    - eapply hoare_bind; [apply newObjectId_Inv|]. intros id db HI. simpl. exact HI.
    - eapply hoare_bind; [apply newObjectId_Inv|]. intros id db HI. simpl. exact HI. }
  intros page0.
  set (page1 := set_status (Some STATUS_PUBLISHED)
                  (set_lastUpdateUser (user_id_of user)
                     (set_creator (user_id_of user) (set_path pth' page0)))).
  eapply hoare_bind with
    (Q := fun page db =>
            (_id page = _id page0
             /\ (isTopPage pth' || isRestricted grant_ = true -> parent page = None))
            /\ Inv (Nat.max n (S (_id page0))) db).
  { destruct (isTopPage pth' || isRestricted grant_).
    - intros db HI. simpl. auto.
    - eapply hoare_bind; [apply getParentAndFillAncestors_Inv|]. intros parent_.
      eapply hoare_bind.
      + apply hoare_deref. intros db. apply Inv_zero.
      + intros par db [_ HI]. simpl. split; [split; [reflexivity | discriminate] | exact HI]. }
  intros page2. apply hoare_pure. intros [Hid Hpar].
  set (page3 := applyScope user grant_ (opt_grantUserGroupId options) page2).
  assert (Hid3 : _id page3 = _id page0) by (unfold page3; simpl; exact Hid).
  assert (Hg3 : isRestricted (grant page3) = isRestricted grant_)
    by apply applyScope_restricted.
  assert (Hp3 : parent page3 = parent page2) by reflexivity.
  assert (Hok3 : rootIfRestricted page3).
  { unfold rootIfRestricted. rewrite Hg3, Hp3. intro Hr.
    apply Hpar. rewrite Hr. apply orb_true_r. }
  eapply hoare_bind.
  { apply Page_save_Inv; [rewrite Hid3; lia | exact Hok3]. }
  intros savedPage. apply hoare_pure. intros ->.
  eapply hoare_bind; [apply PageRedirect_deleteOne_Inv|]. intros _u1.
  eapply hoare_bind.
  { apply pushRevision_Inv; [rewrite Hid3; lia | exact Hok3]. }
  intros savedPage. apply hoare_pure. intros [Hsid [Hspar Hsgrant]].
  eapply hoare_bind; [apply emit_Inv|]. intros _u2.
  eapply hoare_bind; [apply updateDescendantCountOfAncestors_Inv|]. intros _u3.
  intros db HI. simpl.
  split; [now apply (Inv_zero _ db HI)|].
  rewrite Hsgrant, Hspar, Hg3, Hp3, Hgrant.
  split; [|reflexivity].
  destruct (isTopPage pth') eqn:Etop.
  - apply Hpar. reflexivity.
  - destruct (isRestricted (opt_grant options)) eqn:Er; [|reflexivity].
    apply Hpar. rewrite Hgrant. reflexivity.
Qed.


(** *** A saved root page stays as it was saved *)

Lemma Stored_In (p : Page) (db : DB) : Stored p db -> In p (pages db).
Proof. intro H. apply find_some in H. tauto. Qed.

Lemma find_updateFirst_const (f : Page -> bool) (p : Page) (ps : list Page) :
  f p = true -> existsb f ps = true ->
  List.find f (updateFirst f (fun _ => p) ps) = Some p.
Proof.
  intros Hp. induction ps as [|q ps IH]; simpl; [discriminate|].
  destruct (f q) eqn:E; simpl.
  - now rewrite Hp.
  - rewrite E. exact IH.
Qed.

Lemma find_snoc_new (f : Page -> bool) (p : Page) (ps : list Page) :
  f p = true -> existsb f ps = false -> List.find f (ps ++ [p]) = Some p.
Proof.
  intros Hp. induction ps as [|q ps IH]; simpl.
  - now rewrite Hp.
  - destruct (f q); simpl; [discriminate | exact IH].
Qed.

Lemma Page_save_Stored (P : DB -> Prop) (E : DB -> Prop) (p : Page) :
  hoare P (Page_save p) (fun r db => r = p /\ Stored p db) E.
Proof.
  intros db _. unfold Page_save, bind, modify, ret. split; [reflexivity|].
  unfold Stored.
  assert (Hp : has_id (_id p) p = true) by apply Nat.eqb_refl.
  destruct (existsb (has_id (_id p)) (pages db)) eqn:Ex; simpl.
  - now apply find_updateFirst_const.
  - now apply find_snoc_new.
Qed.

Lemma updateAll_none (u : Page -> Page) (ps : list Page) :
  updateAll (id_in []) u ps = ps.
Proof.
  induction ps as [|p ps IH]; [reflexivity|].
  unfold updateAll in *. cbn [map]. f_equal. exact IH.
Qed.

(** A stored page without a parent has no ancestors: the counters of no page
    move, and nothing throws. *)
Lemma updateDescendantCountOfAncestors_root (p : Page) (inc : Z) :
  parent p = None ->
  hoare (Stored p) (updateDescendantCountOfAncestors (Some (_id p)) inc false)
        (fun _ db => Stored p db) (fun _ => False).
Proof.
  intros Hpar db Hst.
  unfold updateDescendantCountOfAncestors, findAncestorsUsingParentRecursively,
    Page_findById, Page_findOne, incrementDescendantCountOfPageIds, Page_updateMany,
    emit, bind, gets, modify.
  unfold Stored in Hst. rewrite Hst. simpl. rewrite Hpar. simpl.
  unfold Stored. simpl. rewrite updateAll_none. exact Hst.
Qed.

Lemma create_tail (P : DB -> Prop) (pth body : string) (user : option User) (page : Page) :
  parent page = None ->
  hoare P
        (savedPage <- Page_save page ;;
         PageRedirect_deleteOne pth ;;;
         savedPage <- pushRevision savedPage body user ;;
         emit (EvPage "create" (Some savedPage)) ;;;
         updateDescendantCountOfAncestors (Some (_id savedPage)) 1 false ;;;
         ret savedPage)
        (fun r db =>
           Stored r db
           /\ r = set_lastUpdateUser (user_id_of user) (set_revision (Some body) page))
        (fun _ => False).
Proof.
  intro Hpar.
  eapply hoare_bind; [apply Page_save_Stored|]. intros savedPage.
  apply hoare_pure. intros ->.
  eapply hoare_bind.
  { apply hoare_modify with (Q := fun _ => True). auto. }
  intros _u.
  unfold pushRevision.
  eapply hoare_bind; [apply Page_save_Stored|]. intros savedPage.
  apply hoare_pure. intros ->.
  set (saved := set_lastUpdateUser (user_id_of user) (set_revision (Some body) page)).
  eapply hoare_bind.
  { unfold emit. apply hoare_modify with (Q := Stored saved).
    intros db H. exact H. }
  intros _u1.
  eapply hoare_bind.
  { apply updateDescendantCountOfAncestors_root. exact Hpar. }
  intros _u2 db H. simpl. auto.
Qed.


(** *** Page.create of a page that stays a root *)

Lemma create_as_root (crowi : Crowi) (pth body : string) (user : option User)
      (options : PageCreateOptions) (db0 : DB) :
  isSetUp crowi = true ->
  isV5Compatible crowi = true ->
  isTopPage (xss_process crowi pth) || isRestricted (grantToCreate crowi pth options)
  = true ->
  hoare (fun db => db = db0) (create crowi pth body user options)
        (fun r db =>
           Stored r db /\ parent r = None
           /\ grant r = Some (if isTopPage (xss_process crowi pth) then GRANT_PUBLIC
                              else GRANT_RESTRICTED))
        (fun db => db = db0 /\ ~ createIsAccepted crowi pth user options db0).
Proof.
  intros Hset Hv5 Hroot. unfold create. rewrite Hset, Hv5. simpl negb. cbv iota.
  unfold createIsAccepted. fold (nonEmptyPageAt (xss_process crowi pth)).
  fold (emptyPageAt (xss_process crowi pth)).
  unfold grantToCreate in *.
  set (pth' := xss_process crowi pth) in *.
  set (grant_ := if isTopPage pth' then Some GRANT_PUBLIC else opt_grant options) in *.
  eapply hoare_bind; [apply hoare_gets|]. intros ops.
  destruct (canOperate crowi ops false None (Some pth)) eqn:Ecan; simpl negb; cbv iota.
  2: { apply hoare_throw. intros db [-> ->]. split; [reflexivity|].
       intros [H _]. congruence. }
  eapply hoare_bind with
    (Q := fun cnt db => (ops = pageOperations db0
                         /\ cnt = List.length (filter (nonEmptyPageAt pth') (pages db0)))
                        /\ db = db0).
  { intros db [-> ->]. simpl. auto. }
  intros cnt. apply hoare_pure. intros [-> ->].
  destruct (List.length (filter (nonEmptyPageAt pth') (pages db0))) as [|k] eqn:Ecnt;
    cbn [Nat.ltb Nat.leb].
  2: { apply hoare_throw. intros db ->. split; [reflexivity|].
       intros [_ [H _]]. discriminate. }
  eapply hoare_bind with
    (Q := fun e db => e = List.find (emptyPageAt pth') (pages db0) /\ db = db0).
  { intros db ->. simpl. auto. }
  intros emptyPage. apply hoare_pure. intros ->.
  eapply hoare_bind with (Q := fun _ db => db = db0).
  { destruct (isRestricted grant_) eqn:Er; simpl negb; cbv iota.
    - intros db ->. simpl. reflexivity.
    - rewrite orb_false_r in Hroot.
      unfold grant_ in *. rewrite Hroot. cbv iota.
      intros db ->. unfold bind, ret, gets. cbn [Nat.eqb GRANT_PUBLIC GRANT_OWNER].
      destruct (isGrantNormalized crowi (pages db0) user pth' (Some GRANT_PUBLIC) None
                  (opt_grantUserGroupId options)
                  match List.find (emptyPageAt pth') (pages db0) with
                  | Some _ => true
                  | None => false
                  end) eqn:Eg; simpl.
      + reflexivity.
      + split; [reflexivity|]. intros [_ [_ [H | H]]]; [discriminate|].
        discriminate. }
  intros _u.
  eapply hoare_conseq with
    (P' := fun _ => True)
    (Q' := fun r db =>
             Stored r db /\ parent r = None
             /\ grant r = Some (if isTopPage pth' then GRANT_PUBLIC else GRANT_RESTRICTED))
    (E' := fun _ => False); [|auto|auto|tauto].
  eapply hoare_bind with (Q := fun _ _ => True).
  { destruct (List.find (emptyPageAt pth') (pages db0)), (isRestricted grant_);
      intros db _; unfold bind, newObjectId, recountDescendantCount, gets, ret; simpl; auto. }
  intros page0. rewrite Hroot.
  eapply hoare_bind with
    (Q := fun page db => page = set_parent None
                           (set_status (Some STATUS_PUBLISHED)
                              (set_lastUpdateUser (user_id_of user)
                                 (set_creator (user_id_of user) (set_path pth' page0))))
                         /\ True).
  { intros db _. simpl. auto. }
  intros page. apply hoare_pure. intros ->.
  eapply hoare_post.
  { apply create_tail. reflexivity. }
  intros r db [Hst ->]. split; [exact Hst|]. split; [reflexivity|].
  simpl. unfold grant_ in *. clear grant_.
  destruct (isTopPage pth'); [reflexivity|].
  simpl in Hroot. unfold isRestricted in Hroot.
  destruct (opt_grant options) as [[|k]|]; try discriminate.
  apply Nat.eqb_eq in Hroot. rewrite Hroot. reflexivity.
Qed.


(** *** Page.updatePage *)

(** Children are never restricted pages, so they may get another parent. *)
Lemma reparent_children_Inv (n : ObjectId) (E : DB -> Prop) (exParent newParent : ObjectId) :
  hoare (Inv n)
        (Page_updateMany (has_parent exParent) (set_parent (Some newParent)))
        (fun _ db => Inv n db) E.
Proof.
  intros db HI. unfold Page_updateMany, modify.
  apply Inv_updateAll; [exact HI|].
  intros p Hp Hf. split; [reflexivity|].
  apply rootIfRestricted_not_restricted. simpl.
  apply has_parent_not_restricted; [now apply (Inv_roots n db)|].
  apply has_parent_true in Hf. unfold parent_is_null. now rewrite Hf.
Qed.

Lemma set_descendantCount_Inv (n : ObjectId) (E : DB -> Prop) (f : Page -> bool) (v : Z) :
  hoare (Inv n) (Page_updateOne f (set_descendantCount v)) (fun _ db => Inv n db) E.
Proof.
  intros db HI. unfold Page_updateOne, modify.
  apply Inv_updateFirst; [exact HI|].
  intros p Hp _. split; [reflexivity|].
  apply rootIfRestricted_set_descendantCount. now apply (Inv_roots n db).
Qed.

Lemma isRestricted_grantOr_applyScope (user : option User) (g : option nat)
      (gid : option ObjectId) (p : Page) :
  isRestricted g = true ->
  grant (applyScope user g gid p) = Some GRANT_RESTRICTED.
Proof. apply applyScope_grant_restricted. Qed.

Lemma updatePage_Inv (n : ObjectId) (crowi : Crowi) (pageData : Page)
      (body previousBody : string) (user : option User) (options : PageCreateOptions) :
  shouldUseUpdatePageV4 (grant pageData) (isV5Compatible crowi)
                        (negb (parent_is_null pageData) || isTopPage (path pageData))
  = false ->
  _id pageData < n ->
  hoare (Inv n) (updatePage crowi pageData body previousBody user options)
        (fun r db =>
           Inv 0 db
           /\ (isRestricted (grantOr (opt_grant options) (grant pageData)) = true ->
               parent r = None /\ grant r = Some GRANT_RESTRICTED))
        (Inv 0).
Proof.
  intros Hv4 Hlt. unfold updatePage. rewrite Hv4.
  destruct (isSetUp crowi); simpl negb; cbv iota.
  2: { apply hoare_throw. intros db. apply Inv_zero. }
  set (wasOnTree := negb (parent_is_null pageData) || isTopPage (path pageData)).
  set (grant_ := grantOr (opt_grant options) (grant pageData)).
  set (gid := nullish (opt_grantUserGroupId options) (grantedGroup pageData)).
  eapply hoare_bind.
  { apply hoare_readOnly; [apply readOnly_deref | apply Inv_zero]. }
  intros u.
  eapply hoare_bind.
  { apply hoare_readOnly; [apply readOnly_newRegExp | apply Inv_zero]. }
  intros re.
  eapply hoare_bind.
  { apply hoare_readOnly; [apply readOnly_gets | apply Inv_zero]. }
  intros cnt.
  eapply hoare_bind with
    (Q := fun page db =>
            (_id page = _id pageData
             /\ (isRestricted grant_ = true -> parent page = None))
            /\ Inv n db).
  { destruct (isRestricted grant_) eqn:Er; simpl negb; cbv iota.
    - eapply hoare_bind with (Q := fun _ db => Inv n db).
      + destruct (wasOnTree && (0 <? cnt)).
        * eapply hoare_bind.
          -- apply (createEmptyPage_Inv n crowi).
          -- intros newParentForChildren. apply reparent_children_Inv.
        * intros db HI. simpl. exact HI.
      + intros _u db HI. simpl. auto.
    - eapply hoare_bind.
      { apply hoare_readOnly; [apply readOnly_gets | apply Inv_zero]. }
      intros ps.
      destruct (negb (isGrantNormalized crowi ps user (path pageData) grant_
                        (Some [user_id u]) gid true)).
      { apply hoare_throw. intros db. apply Inv_zero. }
      destruct (negb wasOnTree).
      + eapply hoare_bind; [apply getParentAndFillAncestors_Inv|]. intros newParent.
        eapply hoare_bind.
        * apply hoare_deref. intros db. apply Inv_zero.
        * intros par db [_ HI]. simpl. split; [split; [reflexivity | discriminate] | exact HI].
      + intros db HI. simpl. split; [split; [reflexivity | discriminate] | exact HI]. }
  intros page1. apply hoare_pure. intros [Hid Hpar].
  set (page2 := applyScope user grant_ gid page1).
  assert (Hid2 : _id page2 = _id pageData) by exact Hid.
  assert (Hg2 : isRestricted (grant page2) = isRestricted grant_)
    by apply applyScope_restricted.
  assert (Hp2 : parent page2 = parent page1) by reflexivity.
  assert (Hok2 : rootIfRestricted page2).
  { unfold rootIfRestricted. rewrite Hg2, Hp2. exact Hpar. }
  eapply hoare_bind.
  { apply Page_save_Inv; [rewrite Hid2; exact Hlt | exact Hok2]. }
  intros savedPage. apply hoare_pure. intros ->.
  eapply hoare_bind.
  { apply pushRevision_Inv; [rewrite Hid2; exact Hlt | exact Hok2]. }
  intros savedPage. apply hoare_pure. intros [Hsid [Hspar Hsgrant]].
  eapply hoare_bind; [apply emit_Inv|]. intros _u1.
  eapply hoare_bind with (Q := fun _ db => Inv n db).
  { destruct (negb wasOnTree && negb (isRestricted grant_)).
    - eapply hoare_bind.
      { apply hoare_readOnly; [apply readOnly_gets | apply Inv_zero]. }
      intros emptyPageAtSamePath.
      eapply hoare_bind with (Q := fun _ db => Inv n db).
      + destruct (0 <? cnt), emptyPageAtSamePath as [e|];
          try (intros db HI; simpl; exact HI).
        apply reparent_children_Inv.
      + intros _u2. apply Page_deleteOne_Inv.
    - intros db HI. simpl. exact HI. }
  intros _u3.
  eapply hoare_bind with (Q := fun _ db => Inv n db).
  { destruct (negb wasOnTree && negb (isRestricted grant_)).
    - eapply hoare_bind; [apply updateDescendantCountOfAncestors_Inv|]. intros _u4.
      eapply hoare_bind.
      { apply hoare_readOnly; [apply readOnly_recountDescendantCount | apply Inv_zero]. }
      intros dc. apply set_descendantCount_Inv.
    - destruct (wasOnTree && negb (negb (isRestricted grant_))).
      + destruct (isRestricted (grant savedPage)).
        * apply updateDescendantCountOfAncestors_Inv.
        * intros db HI. simpl. exact HI.
      + intros db HI. simpl. exact HI. }
  intros _u5.
  eapply hoare_bind with (Q := fun _ db => Inv n db).
  { destruct (wasOnTree && negb (0 <? cnt)).
    - apply removeLeafEmptyPagesRecursively_Inv.
    - intros db HI. simpl. exact HI. }
  intros _u6 db HI. simpl.
  split; [now apply (Inv_zero n)|].
  intro Hr. rewrite Hspar, Hsgrant, Hp2. split; [now apply Hpar|].
  now apply applyScope_grant_restricted.
Qed.


(** ** Restricted pages are roots; the top page is public *)

Lemma WellFormed_Inv (db : DB) :
  WellFormed 0 db -> RestrictedAreRoots (pages db) -> Inv 0 db.
Proof. intros H1 H2. split; assumption. Qed.



Lemma exampleDB_WellFormed : WellFormed 0 exampleDB.
Proof.
  constructor; simpl.
  - repeat constructor; simpl; intuition discriminate.
  - intros p [<- | [<- | [<- | []]]]; simpl; lia.
  - lia.
Qed.

Lemma exampleDB_RestrictedAreRoots : RestrictedAreRoots (pages exampleDB).
Proof.
  intros p [<- | [<- | [<- | []]]]; intro H; discriminate.
Qed.



(** ** The grant validation comes before every write to the pages *)

Lemma effectiveGrant_reads (crowi : Crowi) (page : Page) (db0 : DB)
      (g : option nat * list ObjectId * option ObjectId) :
  effectiveGrant page db0 = (Ok g, db0) ->
  hoare (fun db => pages db = pages db0) (effectiveGrant page)
        (fun r db => r = g /\ pages db = pages db0)
        (fun db => pages db = pages db0).
Proof.
  intros H db Hp. unfold effectiveGrant in *.
  destruct (isEmptyPage page).
  - unfold bind, Page_findById, Page_findOne, gets in *.
    destruct (parent page) as [pid|]; simpl in *.
    + rewrite Hp. destruct (List.find (has_id pid) (pages db0)); simpl in *.
      * injection H as <-. auto.
      * discriminate.
    + discriminate.
  - simpl in *. injection H as <-. auto.
Qed.

Lemma PageOperation_create_pages (t : PageActionType) (s : PageActionStage) (p : Page)
      (from : string) (to : option string) (db0 : DB) :
  hoare (fun db => pages db = pages db0) (PageOperation_create t s p from to)
        (fun _ db => pages db = pages db0) (fun db => pages db = pages db0).
Proof. intros db H. simpl. exact H. Qed.

Lemma found_existsb (f : Page -> bool) (ps : list Page) :
  match List.find f ps with Some _ => true | None => false end = existsb f ps.
Proof.
  induction ps as [|p ps IH]; [reflexivity|].
  cbn [List.find existsb]. destruct (f p); [reflexivity | exact IH].
Qed.

Lemma create_rejected_by_grant (crowi : Crowi) (pth body : string) (user : option User)
      (options : PageCreateOptions) (db : DB) :
  let pth' := xss_process crowi pth in
  let grant_ := grantToCreate crowi pth options in
  isSetUp crowi = true ->
  isV5Compatible crowi = true ->
  isRestricted grant_ = false ->
  isGrantNormalized crowi (pages db) user pth' grant_ (grantedUsersToCreate user grant_)
                    (opt_grantUserGroupId options)
                    (existsb (emptyPageAt pth') (pages db)) = false ->
  exists e, create crowi pth body user options db = (Throw e, db).
Proof.
  intros pth' grant_ Hset Hv5 Hr Hg.
  unfold create. rewrite Hset, Hv5. cbn [negb].
  unfold bind at 1. unfold gets at 1. cbv beta iota.
  destruct (canOperate crowi (pageOperations db) false None (Some pth)); cbn [negb];
    [|eexists; reflexivity].
  fold pth'. unfold bind at 1. unfold Page_count, gets. cbv beta iota.
  destruct (0 <? _); [eexists; reflexivity|].
  unfold bind at 1. unfold Page_findOne, gets. cbv beta iota.
  fold (emptyPageAt pth').
  unfold grantToCreate in grant_. fold pth' in grant_. fold grant_.
  rewrite Hr. cbn [negb].
  rewrite (found_existsb (emptyPageAt pth') (pages db)). unfold grantedUsersToCreate in Hg.
  unfold bind at 1. unfold bind at 1. unfold bind at 1.
  destruct grant_ as [g|]; [destruct (g =? GRANT_OWNER)|];
    try destruct user as [u|]; cbn [deref]; unfold ret, throw, gets, bind;
    try rewrite Hg; cbn [negb]; eexists; reflexivity.
Qed.

Lemma renamePage_rejected_by_grant (crowi : Crowi) (omitUndefined : bool) (page : Page)
      (newPagePath : string) (user : option User) (options : RenameOptions) (db : DB)
      (g : option nat) (users : list ObjectId) (gid : option ObjectId) :
  shouldUseV4Process crowi page = false ->
  effectiveGrant page db = (Ok (g, users, gid), db) ->
  isRestricted g = false ->
  isGrantNormalized crowi (pages db) user (xss_process crowi newPagePath) g (Some users)
                    gid false = false ->
  exists e db',
    renamePage crowi omitUndefined page newPagePath user options db = (Throw e, db')
    /\ pages db' = pages db.
Proof.
  intros Hv4 Heff Hr Hg.
  assert (H : hoare (fun d => pages d = pages db)
                    (renamePage crowi omitUndefined page newPagePath user options)
                    (fun _ _ => False) (fun d => pages d = pages db)).
  { unfold renamePage. rewrite Hv4.
    eapply hoare_bind; [apply hoare_readOnly; [apply readOnly_gets | auto]|].
    intros isExist. destruct isExist.
    { apply hoare_throw. auto. }
    destruct (isTopPage (path page)).
    { apply hoare_throw. auto. }
    eapply hoare_bind.
    { apply hoare_readOnly; [|auto]. read_only. }
    intros _u.
    eapply hoare_bind; [apply hoare_readOnly; [apply readOnly_gets | auto]|].
    intros ops.
    destruct (negb (canOperate crowi ops true (Some (path page)) (Some newPagePath))).
    { apply hoare_throw. auto. }
    eapply hoare_bind; [apply PageOperation_create_pages|].
    intros pageOp. unfold renameMainOperation.
    eapply hoare_bind; [apply (effectiveGrant_reads crowi page db _ Heff)|].
    intros r. apply hoare_pure. intros ->. cbv beta iota.
    eapply hoare_bind with (Q := fun _ _ => False).
    2: { intros _u1 d []. }
    rewrite Hr. simpl negb. cbv iota.
    intros d Hd. unfold bind, gets. rewrite Hd, Hg. simpl. exact Hd. }
  specialize (H db eq_refl).
  destruct (renamePage crowi omitUndefined page newPagePath user options db)
    as [[a|e] db'].
  - destruct H.
  - exists e, db'. auto.
Qed.

Lemma duplicate_rejected_by_grant (crowi : Crowi) (omitUndefined : bool) (page : Page)
      (newPagePath : string) (user : option User) (isRecursively : bool) (db : DB)
      (g : option nat) (users : list ObjectId) (gid : option ObjectId) :
  shouldUseV4Process crowi page = false ->
  effectiveGrant page db = (Ok (g, users, gid), db) ->
  isRestricted g = false ->
  isGrantNormalized crowi (pages db) user (xss_process crowi newPagePath) g (Some users)
                    gid false = false ->
  exists e,
    duplicate crowi (Some page) newPagePath user isRecursively db = (Throw e, db).
Proof.
  intros Hv4 Heff Hr Hg.
  assert (H : hoare (fun d => d = db)
                    (duplicate crowi (Some page) newPagePath user isRecursively)
                    (fun _ _ => False) (fun d => d = db)).
  { unfold duplicate. rewrite Hv4.
    destruct (isEmptyPage page && negb isRecursively).
    { apply hoare_throw. auto. }
    destruct (negb isRecursively && isEmptyPage page).
    { apply hoare_throw. auto. }
    eapply hoare_bind; [apply hoare_readOnly; [apply readOnly_gets | auto]|].
    intros ops.
    destruct (negb (canOperate crowi ops isRecursively (Some (path page))
                               (Some (xss_process crowi newPagePath)))).
    { apply hoare_throw. auto. }
    eapply hoare_bind with (Q := fun r d => r = (g, users, gid) /\ d = db).
    { intros d ->. rewrite Heff. auto. }
    intros r. apply hoare_pure. intros ->. cbv beta iota.
    eapply hoare_bind with (Q := fun _ _ => False).
    2: { intros _u1 d []. }
    rewrite Hr. simpl negb. cbv iota.
    intros d ->. unfold bind, gets. rewrite Hg. simpl. reflexivity. }
  specialize (H db eq_refl).
  destruct (duplicate crowi (Some page) newPagePath user isRecursively db) as [[a|e] db'].
  - destruct H.
  - subst db'. now exists e.
Qed.

Lemma duplicateV4_rejected_by_grant (crowi : Crowi) (page : Page)
      (newPagePath : string) (user : option User) (isRecursively : bool) (db : DB) :
  let pth := xss_process crowi (xss_process crowi newPagePath) in
  let options := mkPageCreateOptions (grant page) (grantedGroup page) in
  let pth' := xss_process crowi pth in
  let grant_ := grantToCreate crowi pth options in
  isSetUp crowi = true ->
  isV5Compatible crowi = true ->
  shouldUseV4Process crowi page = true ->
  isRestricted grant_ = false ->
  isGrantNormalized crowi (pages db) user pth' grant_ (grantedUsersToCreate user grant_)
                    (grantedGroup page)
                    (existsb (emptyPageAt pth') (pages db)) = false ->
  exists e,
    duplicate crowi (Some page) newPagePath user isRecursively db = (Throw e, db).
Proof.
  intros pth options pth' grant_ Hset Hv5 Hv4 Hr Hg.
  unfold duplicate. rewrite Hv4.
  destruct (isEmptyPage page && negb isRecursively); [eexists; reflexivity|].
  destruct (negb isRecursively && isEmptyPage page); [eexists; reflexivity|].
  unfold duplicateV4.
  destruct (revision page) as [body|]; cbn [deref]; [|eexists; reflexivity].
  unfold bind at 1. unfold ret at 1. cbv beta iota.
  now apply create_rejected_by_grant.
Qed.





(** ** removeLeafEmptyPagesRecursively *)

Lemma isChildOtherThan_false (ps : list Page) (child : option ObjectId) (page : Page) :
  existsb (isChildOtherThan child page) ps = false <-> ~ hasOtherChild ps child page.
Proof.
  split.
  - intros H [q [Hq [Hpar Hne]]].
    assert (Hex : existsb (isChildOtherThan child page) ps = true).
    { apply existsb_exists. exists q. split; [exact Hq|].
      unfold isChildOtherThan, has_parent. rewrite Hpar. simpl. rewrite Nat.eqb_refl.
      rewrite andb_true_r. destruct child as [c|]; [|reflexivity].
      apply negb_true_iff. apply Nat.eqb_neq. now apply Hne. }
    congruence.
  - intros H. destruct (existsb (isChildOtherThan child page) ps) eqn:E; [|reflexivity].
    exfalso. apply H. apply existsb_exists in E. destruct E as [q [Hq Hc]].
    unfold isChildOtherThan in Hc. apply andb_true_iff in Hc. destruct Hc as [Hc Hpar].
    exists q. split; [exact Hq|]. split; [now apply has_parent_true|].
    intros c ->. apply negb_true_iff in Hc. now apply Nat.eqb_neq.
Qed.

Lemma isChildOtherThan_true (ps : list Page) (child : option ObjectId) (page : Page) :
  existsb (isChildOtherThan child page) ps = true <-> hasOtherChild ps child page.
Proof.
  split.
  - intros E. apply existsb_exists in E. destruct E as [q [Hq Hc]].
    unfold isChildOtherThan in Hc. apply andb_true_iff in Hc. destruct Hc as [Hc Hpar].
    exists q. split; [exact Hq|]. split; [now apply has_parent_true|].
    intros c ->. apply negb_true_iff in Hc. now apply Nat.eqb_neq.
  - intros H. destruct (existsb (isChildOtherThan child page) ps) eqn:E; [reflexivity|].
    apply isChildOtherThan_false in E. contradiction.
Qed.

(** The chain of a walk is one list. *)
Lemma LeafChain_unique (ps : list Page) (child : option ObjectId) (page : Page)
      (ids ids' : list ObjectId) :
  LeafChain ps child page ids -> LeafChain ps child page ids' -> ids = ids'.
Proof.
  intros H. revert ids'.
  induction H as [child page He | child page He Ho | child page He Ho Hp
                  | child page next ids He Ho Hp Hc IH];
    intros ids' H'; inversion H'; subst; try reflexivity; try congruence;
      try contradiction.
  f_equal. apply IH.
  match goal with
  | H1 : parentOf ps page = Some ?a, H2 : parentOf ps page = Some ?b |- _ =>
      rewrite H1 in H2; injection H2 as <-
  end.
  assumption.
Qed.

(** In a visited chain the children of a visited page are the page visited
    just before it. *)
Lemma VisitedChain_child (ps : list Page) (l : list ObjectId) (x : ObjectId) (q : Page) :
  VisitedChain ps l -> In x l -> In q ps -> parent q = Some x ->
  exists l1 l2, l = l1 ++ x :: _id q :: l2.
Proof.
  intros Hc. induction Hc as [|y Hy|y z rest Hc IH Hy]; intros Hx Hq Hpar.
  - destruct Hx.
  - destruct Hx as [-> | []]. exfalso. now apply (Hy q).
  - destruct Hx as [-> | Hx].
    + exists [], rest. simpl. now rewrite (Hy q Hq Hpar).
    + destruct (IH Hx Hq Hpar) as [l1 [l2 E]].
      exists (y :: l1), l2. simpl. now rewrite E.
Qed.

(** The parent of the page visited last was not visited. *)
Lemma VisitedChain_fresh (ps : list Page) (c : ObjectId) (rest : list ObjectId)
      (cp : Page) (pid : ObjectId) :
  VisitedChain ps (c :: rest) -> NoDup (c :: rest) ->
  In cp ps -> _id cp = c -> parent cp = Some pid ->
  ~ In pid (c :: rest).
Proof.
  intros Hc Hnd Hcp Hid Hpar Hin.
  destruct (VisitedChain_child ps (c :: rest) pid cp Hc Hin Hcp Hpar) as [l1 [l2 E]].
  rewrite Hid in E.
  destruct l1 as [|a l1]; simpl in E; injection E as E1 E2.
  - subst pid rest. inversion Hnd as [|? ? Hn _]; subst. apply Hn. now left.
  - subst a rest. inversion Hnd as [|? ? Hn _]; subst. apply Hn.
    apply in_app_iff. right. right. now left.
Qed.

Lemma NoDup_rev_nat (l : list ObjectId) : NoDup l -> NoDup (rev l).
Proof.
  induction l as [|x l IH]; simpl; intro H; [constructor|].
  inversion H as [|? ? Hn Hd]; subst.
  apply NoDup_snoc; [auto|]. rewrite <- in_rev. exact Hn.
Qed.

Lemma WalkInv_push (ps : list Page) (childId : option ObjectId) (page next : Page)
      (pageIds : list ObjectId) (pid : ObjectId) :
  WalkInv ps childId page pageIds ->
  ~ hasOtherChild ps childId page ->
  parent page = Some pid ->
  List.find (has_id pid) ps = Some next ->
  WalkInv ps (Some (_id page)) next (pageIds ++ [_id page]).
Proof.
  intros [Hnd Hincl Hchain Hpage Hlink] Hno Hpar Hfind.
  assert (Hnew : ~ In (_id page) pageIds).
  { intro Hin. destruct (rev pageIds) as [|c rest] eqn:Er.
    - apply in_rev in Hin. rewrite Er in Hin. destruct Hin.
    - destruct Hlink as [_ [cp [Hcp [Hid Hcpar]]]].
      apply (VisitedChain_fresh ps c rest cp (_id page)); auto.
      + rewrite <- Er. now apply NoDup_rev_nat.
      + rewrite <- Er. now apply in_rev in Hin. }
  assert (Hchildren : forall q, In q ps -> parent q = Some (_id page) ->
                                exists c, childId = Some c /\ _id q = c).
  { intros q Hq Hqpar. destruct childId as [c|].
    - exists c. split; [reflexivity|].
      destruct (Nat.eq_dec (_id q) c) as [E|E]; [exact E|].
      exfalso. apply Hno. exists q. split; [exact Hq|]. split; [exact Hqpar|].
      intros c' Hc'. injection Hc' as <-. exact E.
    - exfalso. apply Hno. exists q. split; [exact Hq|]. split; [exact Hqpar|].
      intros c' Hc'. discriminate. }
  apply find_some in Hfind. destruct Hfind as [Hnext Hnid].
  unfold has_id in Hnid. apply Nat.eqb_eq in Hnid.
  constructor.
  - now apply NoDup_snoc.
  - intros x Hx. apply in_app_iff in Hx. destruct Hx as [Hx | [<- | []]]; [auto|].
    now apply in_map.
  - rewrite rev_app_distr. simpl.
    destruct (rev pageIds) as [|c rest] eqn:Er.
    + apply VisitedChain_first. intros q Hq Hqpar.
      destruct (Hchildren q Hq Hqpar) as [c [Hc _]]. congruence.
    + apply VisitedChain_cons; [exact Hchain|].
      intros q Hq Hqpar. destruct (Hchildren q Hq Hqpar) as [c' [Hc' Hq']].
      destruct Hlink as [Hc _]. congruence.
  - exact Hnext.
  - rewrite rev_app_distr. simpl. split; [reflexivity|].
    exists page. split; [exact Hpage|]. split; [reflexivity|]. now rewrite Hpar, Hnid.
Qed.

Lemma WalkInv_length (ps : list Page) (childId : option ObjectId) (page : Page)
      (pageIds : list ObjectId) :
  WalkInv ps childId page pageIds -> List.length pageIds <= List.length ps.
Proof.
  intros [Hnd Hincl _ _ _]. rewrite <- (length_map _id ps).
  now apply NoDup_incl_length.
Qed.

(** With fuel for one call per stored page and one more, the walk returns,
    and what it adds to the ids gathered is the chain of the page. *)
Lemma generatePageIdsToRemove_chain (ps : list Page) (fuel : nat) :
  forall (childId : option ObjectId) (page : Page) (pageIds : list ObjectId),
    WalkInv ps childId page pageIds ->
    List.length ps < fuel + List.length pageIds ->
    exists ids,
      generatePageIdsToRemove fuel ps childId page pageIds = Some (pageIds ++ ids)
      /\ LeafChain ps childId page ids.
Proof.
  induction fuel as [|fuel IH]; intros childId page pageIds HW Hfuel.
  - pose proof (WalkInv_length ps childId page pageIds HW). simpl in Hfuel. lia.
  - simpl. destruct (isEmptyPage page) eqn:He; simpl.
    2: { exists []. rewrite app_nil_r. split; [reflexivity|].
         now apply LeafChain_not_empty. }
    destruct (existsb (isChildOtherThan childId page) ps) eqn:Ex.
    { exists []. rewrite app_nil_r. split; [reflexivity|].
      apply LeafChain_other_child; [exact He|]. now apply isChildOtherThan_true. }
    apply isChildOtherThan_false in Ex.
    destruct (parent page) as [pid|] eqn:Hpar.
    2: { exists [_id page]. split; [reflexivity|].
         apply LeafChain_last; auto. unfold parentOf. now rewrite Hpar. }
    destruct (List.find (has_id pid) ps) as [next|] eqn:Hfind.
    2: { exists [_id page]. split; [reflexivity|].
         apply LeafChain_last; auto. unfold parentOf. now rewrite Hpar. }
    pose proof (WalkInv_push ps childId page next pageIds pid HW Ex Hpar Hfind) as HW'.
    destruct (IH (Some (_id page)) next (pageIds ++ [_id page]) HW') as [ids [Hrun Hch]].
    { rewrite length_app. simpl. lia. }
    exists (_id page :: ids). split.
    + rewrite Hrun. now rewrite <- app_assoc.
    + apply LeafChain_step with (next := next); auto.
      unfold parentOf. now rewrite Hpar.
Qed.

(** C5: [removeLeafEmptyPagesRecursively(pageId)] deletes nothing when the
    page does not exist or is not empty; else it deletes exactly the pages
    of the chain that starts at the page: the pages that are empty and have
    no child other than the chain member before them, up to the first
    ancestor that is not empty or has another child, or to a page without a
    stored parent.  The walk always returns, and the chain is unique. *)
Theorem removeLeafEmptyPagesRecursively_deletes_chain
        (pageId : option ObjectId) (db : DB) :
  match fst (Page_findById pageId db) with
  | Ok (Some initialPage) =>
      if isEmptyPage initialPage then
        exists ids,
          LeafChain (pages db) None initialPage ids
          /\ (forall ids', LeafChain (pages db) None initialPage ids' -> ids' = ids)
          /\ removeLeafEmptyPagesRecursively pageId db
             = (Ok tt, with_pages (removeAll (id_in ids) (pages db)) db)
      else removeLeafEmptyPagesRecursively pageId db = (Ok tt, db)
  | _ => removeLeafEmptyPagesRecursively pageId db = (Ok tt, db)
  end.
Proof.
  unfold removeLeafEmptyPagesRecursively, bind, Page_findById, Page_findOne, gets, ret.
  destruct pageId as [id|]; cbn [fst]; [|reflexivity].
  destruct (List.find (has_id id) (pages db)) as [initialPage|] eqn:Hfind; [|reflexivity].
  destruct (isEmptyPage initialPage) eqn:He; cbn [negb]; [|reflexivity].
  assert (HW : WalkInv (pages db) None initialPage []).
  { constructor; simpl; auto.
    - constructor.
    - intros x [].
    - constructor.
    - apply find_some in Hfind. tauto. }
  destruct (generatePageIdsToRemove_chain (pages db) (S (List.length (pages db)))
              None initialPage [] HW) as [ids [Hrun Hch]].
  { simpl. lia. }
  exists ids. split; [exact Hch|]. split.
  - intros ids' H'. now apply (LeafChain_unique (pages db) None initialPage).
  - cbn [app] in Hrun. rewrite Hrun. reflexivity.
Qed.

(** ** The migration loop *)

Lemma concat_batchesOf {A : Type} (size : nat) (l acc : list A) :
  List.concat (batchesOf size l acc) = rev acc ++ l.
Proof.
  revert acc. induction l as [|x l IH]; intro acc; cbn [batchesOf].
  - destruct acc; cbn; [reflexivity | now rewrite !app_nil_r].
  - destruct (List.length (x :: acc) =? size).
    + cbn [List.concat]. rewrite IH. cbn [rev app]. now rewrite <- app_assoc.
    + rewrite IH. cbn [rev]. now rewrite <- app_assoc.
Qed.

Lemma batchesOf_size {A : Type} (size : nat) (l acc : list A) :
  List.length acc < size ->
  Forall (fun b => List.length b <= size) (batchesOf size l acc).
Proof.
  revert acc. induction l as [|x l IH]; intros acc Hacc; cbn [batchesOf].
  - destruct acc; constructor; [|constructor].
    rewrite List.length_rev. lia.
  - destruct (List.length (x :: acc) =? size) eqn:E.
    + apply Nat.eqb_eq in E. constructor.
      * rewrite List.length_rev. lia.
      * apply IH. cbn [List.length]. cbn [List.length] in E. lia.
    + apply Nat.eqb_neq in E. apply IH. cbn [List.length] in *. lia.
Qed.

Lemma floorOf30Percent_le (total : nat) : floorOf30Percent total <= total.
Proof.
  unfold floorOf30Percent. apply Nat.Div0.div_le_upper_bound. lia.
Qed.

Lemma takenFrom_le (total : nat) : takenFrom total <= total.
Proof.
  unfold takenFrom. destruct (PAGES_LIMIT <? total); [apply floorOf30Percent_le | lia].
Qed.

Lemma pagesToStream_firstn (f : Page -> bool) (ps : list Page) :
  pagesToStream f ps = firstn (takenFrom (List.length (filter f ps))) (filter f ps).
Proof.
  unfold pagesToStream, takenFrom.
  destruct (PAGES_LIMIT <? List.length (filter f ps)); [reflexivity|].
  now rewrite firstn_all.
Qed.

(** One batch: the counters and the flag after [write]. *)
Lemma migratePages_Ok (crowi : Crowi) (publicPaths : list string) (grantFilters : Page -> bool)
      (user : option User) (batch : list Page) (pr pr' : MigrationProgress) (db db' : DB) :
  migratePages crowi publicPaths grantFilters user batch pr db = (Ok pr', db') ->
  exists res dbw,
    normalizeSiblings crowi publicPaths grantFilters user batch db = (Ok res, dbw)
    /\ nextCount pr' = nextCount pr + nModified res
    /\ nextSkiped pr' = nextSkiped pr
    /\ shouldContinue pr' = shouldContinue pr && negb (stalled res).
Proof.
  unfold migratePages, bind.
  destruct (normalizeSiblings crowi publicPaths grantFilters user batch db)
    as [[res|e] dbw]; [|discriminate].
  intro H. exists res, dbw. split; [reflexivity|].
  unfold stalled. unfold emit, modify, ret in H.
  destruct ((nModified res =? 0) && (nMatched res =? 0));
    injection H as <- _; cbn; repeat split; auto using andb_false_r, andb_true_r.
Qed.

(** The batches of an iteration: the flag is still set at the end exactly
    when no bulk write stalled. *)
Lemma migrateBatches_Ok (crowi : Crowi) (publicPaths : list string)
      (grantFilters : Page -> bool) (user : option User) (batches : list (list Page)) :
  forall (pr pr' : MigrationProgress) (db db' : DB),
    migrateBatches crowi publicPaths grantFilters user batches pr db = (Ok pr', db') ->
    let results := batchResults crowi publicPaths grantFilters user batches pr db in
    List.length results = List.length batches
    /\ nextCount pr' = nextCount pr + list_sum (map nModified results)
    /\ nextSkiped pr' = nextSkiped pr
    /\ shouldContinue pr'
       = shouldContinue pr && forallb (fun r => negb (stalled r)) results.
Proof.
  induction batches as [|b bs IH]; intros pr pr' db db' H; cbn [migrateBatches] in H.
  - unfold ret in H. injection H as <- _. cbn. repeat split; auto.
    now rewrite andb_true_r.
  - unfold bind in H.
    destruct (migratePages crowi publicPaths grantFilters user b pr db)
      as [[pr1|e] db1] eqn:Hb; [|discriminate].
    destruct (migratePages_Ok _ _ _ _ _ _ _ _ _ Hb) as (res & dbw & Hw & Hc & Hs & Hf).
    destruct (IH _ _ _ _ H) as (Il & Ic & Is & If).
    cbv zeta in *. cbn [batchResults]. rewrite Hw, Hb. cbv beta iota.
    cbn [List.length map list_sum forallb].
    repeat split.
    + now rewrite Il.
    + rewrite Ic, Hc. unfold list_sum. cbn [fold_right]. lia.
    + congruence.
    + rewrite If, Hf. now rewrite andb_assoc.
Qed.

(** The collection the batches of an iteration start on: the one the
    iteration found, after the event of the start when it is the first. *)
Lemma migrateOnce_Ok (crowi : Crowi) (pathOrRegExps : list PathOrRegExp)
      (publicPaths : list string) (grantFilters : Page -> bool) (user : option User)
      (count skiped : nat) (isFirst : bool) (db db1 : DB) (progress : MigrationProgress) :
  let merged := mergedFilter pathOrRegExps publicPaths grantFilters in
  let total := List.length (filter merged (pages db)) in
  let started := if isFirst then snd (emit (EvPMStarted total) db) else db in
  migrateOnce crowi pathOrRegExps publicPaths grantFilters user count skiped isFirst db
  = (Ok progress, db1) ->
  migrateBatches crowi publicPaths grantFilters user
                 (createBatchStream BATCH_SIZE (pagesToStream merged (pages db)))
                 (mkMigrationProgress count skiped true) started
  = (Ok progress, db1).
Proof.
  intros merged total started H. unfold migrateOnce in H.
  assert (Hbody :
    (total <- Page_count merged ;;
     (if isFirst then emit (EvPMStarted total) else ret tt) ;;;
     ps <- gets pages ;;
     migrateBatches crowi publicPaths grantFilters user
                    (createBatchStream BATCH_SIZE (pagesToStream merged ps))
                    (mkMigrationProgress count skiped true)) db
    = (Ok progress, db1)).
  { destruct pathOrRegExps, publicPaths; try exact H. discriminate H. }
  clear H. revert Hbody. subst started total.
  unfold bind, Page_count, gets. destruct isFirst; cbn; intro H; exact H.
Qed.



(** The throttle at the threshold: all of 1000 candidates, 300 of 1001. *)
Remark pagesToStream_at_the_limit :
  List.length (pagesToStream (fun _ => true) (repeat exampleRoot 1000)) = 1000
  /\ List.length (pagesToStream (fun _ => true) (repeat exampleRoot 1001)) = 300.
Proof. split; vm_compute; reflexivity. Qed.


(** The end of the loop after a bulk write that matches nothing: on a
    collection of 101 candidates the first iteration modifies 100 pages with
    its first batch; the bulk write of its second batch matches nothing, and
    the call ends after that iteration although candidates remain. *)
Remark migration_stops_after_a_stalled_batch :
  let iteration :=
    migrateOnce (exampleCrowi true) underRoot [] publicOnly None 0 0 true migrationDB in
  fst iteration = Ok (mkMigrationProgress 100 0 false)
  /\ map (fun r => (nMatched r, nModified r))
         (batchResults (exampleCrowi true) [] publicOnly None
            (createBatchStream BATCH_SIZE
               (pagesToStream (mergedFilter underRoot [] publicOnly) (pages migrationDB)))
            (mkMigrationProgress 0 0 true)
            (snd (emit (EvPMStarted 101) migrationDB)))
     = [(100, 100); (0, 0)]
  /\ existsb (mergedFilter underRoot [] publicOnly) (pages (snd iteration)) = true
  /\ normalizeParentRecursively (exampleCrowi true) 1 ["/"%string] None migrationDB
     = emit (EvPMEnded true) (snd iteration).
Proof. vm_compute. repeat split. Qed.

(** ** Soft delete of a page with children *)

(** C2: the non-recursive delete of [/a], which has the child [/a/b], on
    the example wiki.  [deletePage] gives [replaceTargetWithPage] the
    arguments [(page, null, true)], so [true] stands where the page to
    replace with is expected and no empty page is created: after the call
    the target is in the trash, no page is at [/a], no identifier was
    handed out, and the child has no parent (when the driver writes
    [undefined] as [null]) or still the trashed page as its parent (when it
    drops it). *)
Theorem deletePage_creates_no_placeholder (omitUndefined : bool) :
  let after :=
    snd (deletePage (exampleCrowi true) omitUndefined examplePageA (Some exampleUser)
                    false exampleDB) in
  map (fun p => (path p, status p, parent p)) (filter (has_id 2) (pages after))
  = [("/trash/a"%string, Some STATUS_DELETED, None)]
  /\ filter (fun p => String.eqb (path p) "/a") (pages after) = []
  /\ nextId after = nextId exampleDB
  /\ map parent (filter (fun p => String.eqb (path p) "/a/b") (pages after))
     = [if omitUndefined then Some 2 else None]
  /\ pageRedirects after = [mkPageRedirect "/a" "/trash/a"].
Proof. destruct omitUndefined; vm_compute; repeat split. Qed.


(** ** generateChildrenRegExp *)

Import RegExp.

Lemma full_match_Void (ci : bool) (s : list ascii) : full_match ci Void s = false.
Proof. induction s as [|d s IH]; simpl; auto. Qed.

Lemma full_match_Eps (ci : bool) (s : list ascii) :
  full_match ci Eps s = match s with [] => true | _ => false end.
Proof. destruct s as [|d s]; simpl; [reflexivity | apply full_match_Void]. Qed.

(** *** Matching *)

Lemma full_match_literally (r : re) (p q : list ascii) :
  full_match false (literally p r) q = true <->
  exists rest, q = p ++ rest /\ full_match false r rest = true.
Proof.
  revert q. induction p as [|c p IH]; intros q; simpl.
  - split; [intro H; now exists q | intros [rest [-> H]]; exact H].
  - destruct q as [|d q]; simpl.
    + split; [discriminate | intros [rest [H _]]; discriminate].
    + unfold chr_eqb. destruct (Ascii.eqb c d) eqn:E; simpl.
      * apply Ascii.eqb_eq in E. subst d. rewrite IH.
        split; intros [rest [Hq Hr]]; exists rest; split; auto; congruence.
      * rewrite full_match_Void. split; [discriminate|].
        intros [rest [Hq _]]. injection Hq as Hc _. subst d.
        rewrite Ascii.eqb_refl in E. discriminate.
Qed.

Lemma is_slash_eqb (d : ascii) : Ascii.eqb "/" d = is_slash d.
Proof. unfold is_slash. exact (Ascii.eqb_sym slash d). Qed.

(** The derivatives of the patterns at hand, by the character read. *)
Ltac derive_by d :=
  cbn -[Ascii.eqb]; unfold chr_eqb; cbn -[Ascii.eqb];
  rewrite ?is_slash_eqb; destruct (is_slash d); reflexivity.

(** After a segment has begun: more of it, then the end or one slash and
    the end (when [o] is the optional slash). *)
Lemma full_match_segmentTail_opt (s : list ascii) :
  full_match false (Seq segmentTail (Seq (Opt (Chr slash)) Eps)) s = true <->
  exists seg, Forall (fun c => c <> slash) seg /\ (s = seg \/ s = seg ++ [slash]).
Proof.
  induction s as [|d s IH].
  - simpl. split; [|reflexivity]. intros _. exists []. split; [constructor | now left].
  - cbn [full_match]. 
    assert (Hd : deriv false d (Seq segmentTail (Seq (Opt (Chr slash)) Eps))
                 = if is_slash d then Eps
                   else Seq segmentTail (Seq (Opt (Chr slash)) Eps)).
    { unfold segmentTail, notSlash, Opt, slash. derive_by d. }
    rewrite Hd. destruct (is_slash d) eqn:Es.
    + unfold is_slash in Es. apply Ascii.eqb_eq in Es. subst d.
      rewrite full_match_Eps. split.
      * destruct s; [|discriminate]. intros _. exists []. split; [constructor | now right].
      * intros [seg [Hseg [H | H]]].
        -- subst seg. inversion Hseg; subst. congruence.
        -- destruct seg as [|c seg]; simpl in H.
           ++ injection H as ->. reflexivity.
           ++ injection H as <- _. inversion Hseg; subst. congruence.
    + assert (Hne : d <> slash).
      { intros ->. unfold is_slash in Es. rewrite Ascii.eqb_refl in Es. discriminate. }
      rewrite IH. split.
      * intros [seg [Hseg H]]. exists (d :: seg). split; [now constructor|].
        destruct H as [-> | ->]; [now left | now right].
      * intros [seg [Hseg H]]. destruct seg as [|c seg].
        -- destruct H as [H | H]; [discriminate|]. simpl in H. injection H as -> _.
           congruence.
        -- inversion Hseg; subst.
           exists seg. split; [assumption|].
           destruct H as [H | H]; simpl in H; injection H as _ ->; [now left | now right].
Qed.

Lemma full_match_segmentTail (s : list ascii) :
  full_match false segmentTail s = true <-> Forall (fun c => c <> slash) s.
Proof.
  induction s as [|d s IH].
  - simpl. split; [constructor | reflexivity].
  - cbn [full_match].
    assert (Hd : deriv false d segmentTail = if is_slash d then Void else segmentTail).
    { unfold segmentTail, notSlash, slash. derive_by d. }
    rewrite Hd. destruct (is_slash d) eqn:Es.
    + rewrite full_match_Void. split; [discriminate|].
      intro H. inversion H; subst. unfold is_slash in Es. apply Ascii.eqb_eq in Es.
      congruence.
    + rewrite IH. split.
      * intro H. constructor; [|exact H].
        intros ->. unfold is_slash in Es. rewrite Ascii.eqb_refl in Es. discriminate.
      * intro H. now inversion H.
Qed.

Lemma full_match_oneMoreSegment (s : list ascii) :
  full_match false oneMoreSegment s = true <-> OneLevelBelow true [] s.
Proof.
  unfold OneLevelBelow, isSegment. simpl.
  destruct s as [|d s].
  { simpl. split; [discriminate|]. intros [seg [_ [H | [_ H]]]]; discriminate. }
  cbn [full_match].
  assert (Hd : deriv false d oneMoreSegment
               = if is_slash d
                 then Seq (Seq (Plus notSlash) Eps) (Seq (Opt (Chr slash)) Eps)
                 else Void).
  { unfold oneMoreSegment, notSlash, Opt, Plus, slash. derive_by d. }
  rewrite Hd. destruct (is_slash d) eqn:Es.
  2: { rewrite full_match_Void. split; [discriminate|].
       intros [seg [_ [H | [_ H]]]]; injection H as -> _;
         unfold is_slash in Es; rewrite Ascii.eqb_refl in Es; discriminate. }
  unfold is_slash in Es. apply Ascii.eqb_eq in Es. subst d.
  destruct s as [|c s].
  { simpl. split; [discriminate|].
    intros [seg [[Hne _] [H | [_ H]]]]; injection H as H.
    - now subst seg.
    - destruct seg; [congruence | discriminate]. }
  cbn [full_match].
  assert (Hc : deriv false c (Seq (Seq (Plus notSlash) Eps) (Seq (Opt (Chr slash)) Eps))
               = if is_slash c then Void
                 else Seq segmentTail (Seq (Opt (Chr slash)) Eps)).
  { unfold segmentTail, notSlash, Opt, Plus, slash. derive_by c. }
  rewrite Hc. destruct (is_slash c) eqn:Ec.
  - rewrite full_match_Void. split; [discriminate|].
    unfold is_slash in Ec. apply Ascii.eqb_eq in Ec. subst c.
    intros [seg [[Hne Hseg] [H | [_ H]]]]; injection H as H;
      (destruct seg as [|x seg]; [congruence|]); simpl in H; injection H as <- _;
        inversion Hseg; congruence.
  - assert (Hcs : c <> slash).
    { intros ->. unfold is_slash in Ec. rewrite Ascii.eqb_refl in Ec. discriminate. }
    rewrite full_match_segmentTail_opt. split.
    + intros [seg [Hseg H]]. exists (c :: seg). split.
      * split; [discriminate | now constructor].
      * destruct H as [-> | ->]; [now left | right; split; reflexivity].
    + intros [seg [[Hne Hseg] H]]. destruct seg as [|x seg]; [congruence|].
      inversion Hseg; subst. exists seg. split; [assumption|].
      destruct H as [H | [_ H]]; simpl in H; injection H as _ ->; [now left | now right].
Qed.

(** *** Compiling *)

Lemma run_literal (s rest : list ascii) (q : qstate) (f : frame) (stk : list frame) :
  forallb (fun c => negb (is_syntax_char c)) s = true ->
  run (s ++ rest) (Normal q) f stk
  = run rest (Normal (match s with [] => q | _ => QNone end))
        (mkFrame (alts f) (rev (map Chr s) ++ cur f)) stk.
Proof.
  revert q f. induction s as [|c s IH]; intros q f Hs.
  - simpl. now destruct f.
  - simpl in Hs. apply andb_true_iff in Hs. destruct Hs as [Hc Hs].
    apply negb_true_iff in Hc.
    assert (Hrun : run ((c :: s) ++ rest) (Normal q) f stk
                   = run (s ++ rest) (Normal QNone) (push_atom (Chr c) f) stk).
    { pose proof Hc as Hc'. unfold is_syntax_char in Hc'. simpl in Hc'.
      repeat (apply orb_false_iff in Hc'; destruct Hc' as [? Hc']).
      cbn [app run].
      repeat match goal with
             | H : Ascii.eqb c ?x = false |- _ => rewrite H; clear H
             end.
      rewrite Hc. reflexivity. }
    rewrite Hrun, IH by exact Hs. unfold push_atom. cbn [alts cur map rev].
    rewrite <- app_assoc. simpl. now destruct s.
Qed.

Lemma seq_of_literal (s : list ascii) (atoms : list re) :
  seq_of (atoms ++ rev (map Chr s)) = literally s (seq_of atoms).
Proof.
  unfold seq_of. rewrite fold_left_app.
  generalize (fold_left (fun acc a => Seq a acc) atoms Eps) as r.
  induction s as [|c s IH]; intro r; simpl; [reflexivity|].
  rewrite fold_left_app. simpl. now rewrite IH.
Qed.

Lemma list_ascii_of_string_app (p t : string) :
  list_ascii_of_string (p ++ t) = list_ascii_of_string p ++ list_ascii_of_string t.
Proof. induction p as [|c p IH]; simpl; [reflexivity | now rewrite IH]. Qed.

Lemma compile_children_pattern (p : string) :
  isLiteralPath (list_ascii_of_string p) ->
  compile ("^" ++ p ++ "(\/[^/]+)\/?$")
  = Some (mkCompiled true (literally (list_ascii_of_string p) oneMoreSegment) true).
Proof.
  intro Hp. unfold compile.
  change ("^" ++ p ++ "(\/[^/]+)\/?$")%string
    with (String "^" (p ++ "(\/[^/]+)\/?$")).
  cbn [list_ascii_of_string]. rewrite list_ascii_of_string_app.
  rewrite Ascii.eqb_refl.
  rewrite run_literal by exact Hp.
  cbn -[literally oneMoreSegment rev map].
  rewrite app_nil_r.
  change (is_alnum "/") with false. cbv iota.
  cbn [alts cur negb alt_of fold_left].
  change (?a :: ?b :: rev (map Chr (list_ascii_of_string p)))
    with ([a; b] ++ rev (map Chr (list_ascii_of_string p))).
  unfold close_frame, alt_of. cbn [alts cur fold_left].
  rewrite seq_of_literal. reflexivity.
Qed.

(** What [generateChildrenRegExp(p).test(q)] is for a path of literal
    characters. *)
Lemma generateChildrenRegExp_literal (p q : string) :
  isTopPage p = false ->
  isLiteralPath (list_ascii_of_string p) ->
  exists b,
    test (generateChildrenRegExp p) false q = Some b
    /\ (b = true
        <-> OneLevelBelow true (list_ascii_of_string p) (list_ascii_of_string q)).
Proof.
  intros Htop Hp. unfold generateChildrenRegExp, test. rewrite Htop.
  rewrite compile_children_pattern by exact Hp.
  eexists. split; [reflexivity|].
  unfold exec. cbn [bol eol body match_here].
  rewrite full_match_literally. split.
  - intros [rest [Hq Hr]]. apply full_match_oneMoreSegment in Hr.
    destruct Hr as [seg [Hseg H]]. exists seg. split; [exact Hseg|].
    rewrite Hq. simpl in H. destruct H as [-> | [_ ->]]; [now left | now right].
  - intros [seg [Hseg H]].
    destruct H as [H | [_ H]].
    + exists (slash :: seg). split; [exact H|].
      apply full_match_oneMoreSegment. exists seg. split; [exact Hseg | now left].
    + exists (slash :: seg ++ [slash]). split; [exact H|].
      apply full_match_oneMoreSegment. exists seg. split; [exact Hseg | now right].
Qed.

Lemma generateChildrenRegExp_root (q : string) :
  exists b,
    test (generateChildrenRegExp "/") false q = Some b
    /\ (b = true <-> OneLevelBelow false [] (list_ascii_of_string q)).
Proof.
  assert (Hcomp : compile "^\/[^/]+$"
                  = Some (mkCompiled true
                            (Seq (Chr "/") (Seq (Plus (Cls true ["/"%char])) Eps)) true))
    by reflexivity.
  unfold generateChildrenRegExp, test. change (isTopPage "/") with true.
  cbv iota. rewrite Hcomp.
  eexists. split; [reflexivity|].
  unfold exec. cbn [bol eol body match_here].
  unfold OneLevelBelow, isSegment. cbn [app].
  destruct (list_ascii_of_string q) as [|d s].
  { split; [discriminate|]. intros [seg [_ [H | [H _]]]]; discriminate. }
  cbn [full_match].
  assert (Hd : deriv false d (Seq (Chr "/") (Seq (Plus (Cls true ["/"%char])) Eps))
               = if is_slash d then Seq (Plus notSlash) Eps else Void).
  { unfold notSlash, Plus, slash. derive_by d. }
  rewrite Hd. destruct (is_slash d) eqn:Es.
  2: { rewrite full_match_Void. split; [discriminate|].
       intros [seg [_ [H | [H _]]]]; [|discriminate]. injection H as -> _.
       unfold is_slash in Es. rewrite Ascii.eqb_refl in Es. discriminate. }
  unfold is_slash in Es. apply Ascii.eqb_eq in Es. subst d.
  destruct s as [|c s].
  { split; [discriminate|].
    intros [seg [[Hne _] [H | [H _]]]]; [|discriminate]. injection H as H. now subst seg. }
  cbn [full_match].
  assert (Hc : deriv false c (Seq (Plus notSlash) Eps)
               = if is_slash c then Void else segmentTail).
  { unfold segmentTail, notSlash, Plus, slash. derive_by c. }
  rewrite Hc. destruct (is_slash c) eqn:Ec.
  - rewrite full_match_Void. split; [discriminate|].
    unfold is_slash in Ec. apply Ascii.eqb_eq in Ec. subst c.
    intros [seg [[Hne Hseg] [H | [H _]]]]; [|discriminate]. injection H as <-.
    inversion Hseg; congruence.
  - assert (Hcs : c <> slash).
    { intros ->. unfold is_slash in Ec. rewrite Ascii.eqb_refl in Ec. discriminate. }
    rewrite full_match_segmentTail. split.
    + intros Hs. exists (c :: s). split; [|now left].
      split; [discriminate | now constructor].
    + intros [seg [[Hne Hseg] [H | [H _]]]]; [|discriminate]. injection H as <-.
      now inversion Hseg.
Qed.


(** The pattern is built from the path as it is: a character of the path
    with a meaning of its own in a regular expression keeps it. *)
Remark generateChildrenRegExp_does_not_escape :
  test (generateChildrenRegExp "/a.b") false "/aXb/c" = Some true
  /\ test (generateChildrenRegExp "/a(b") false "/a(b/c" = None.
Proof. split; reflexivity. Qed.

(** C9, as amended: for a path [p] without regular-expression
    metacharacters, [generateChildrenRegExp p] accepts [q] exactly when [q]
    is [p], a slash and one non-empty segment without slashes, optionally
    closed by one more slash; for the root path, exactly when [q] is a
    slash and one such segment. *)
Theorem generateChildrenRegExp_accepts_one_level_below (p q : string) :
  isLiteralPath (list_ascii_of_string p) ->
  exists b,
    test (generateChildrenRegExp p) false q = Some b
    /\ (b = true
        <-> if isTopPage p
            then OneLevelBelow false [] (list_ascii_of_string q)
            else OneLevelBelow true (list_ascii_of_string p) (list_ascii_of_string q)).
Proof.
  intro Hp. destruct (isTopPage p) eqn:Htop.
  - unfold isTopPage in Htop. apply String.eqb_eq in Htop. subst p.
    apply generateChildrenRegExp_root.
  - destruct (generateChildrenRegExp_literal p q Htop Hp) as [b [Hb Hiff]].
    exists b. split; assumption.
Qed.

Lemma generateChildrenRegExp_accepts_one_level_below_witness :
  exists b,
    test (generateChildrenRegExp "/a") false "/a/b" = Some b
    /\ (b = true
        <-> OneLevelBelow true (list_ascii_of_string "/a") (list_ascii_of_string "/a/b")).
Proof.
  apply (generateChildrenRegExp_accepts_one_level_below "/a" "/a/b").
  reflexivity.
Defined.

(** C9, as stated, fails: the pattern of ["/a"] accepts ["/a/b/"], which is
    not ["/a"], a slash and one segment. *)
Lemma generateChildrenRegExp_accepts_trailing_slash :
  test (generateChildrenRegExp "/a") false "/a/b/" = Some true
  /\ ~ OneLevelBelow false (list_ascii_of_string "/a") (list_ascii_of_string "/a/b/").
Proof.
  split; [reflexivity|].
  intros [seg [[_ Hseg] [H | [H _]]]]; [|discriminate].
  cbn in H. injection H as <-.
  inversion Hseg as [|? ? _ Hrest]. inversion Hrest as [|? ? Hs _].
  now apply Hs.
Qed.

(** * More properties of the page model and of the page service *)

(** ** Who may delete *)

(** The pages [filterPagesByCanDelete] keeps: the empty pages, every page
    for an administrator, every page when the authority that applies is
    not set or [Anyone], and under [AdminAndAuthor] the pages the user
    created; under any other authority a user who is no administrator
    keeps the empty pages only. *)
Theorem filterPagesByCanDelete_keeps
        (singleAuthority recursiveAuthority : option PageDeleteConfigValue)
        (pages_ : list Page) (user : User) (isRecursively : bool) (p : Page) :
  In p (filterPagesByCanDelete singleAuthority recursiveAuthority pages_ user isRecursively)
  <-> In p pages_
      /\ (isEmptyPage p = true
          \/ admin user = true
          \/ (let authority := if isRecursively then recursiveAuthority
                               else singleAuthority in
              authority = None
              \/ authority = Some Anyone
              \/ (authority = Some AdminAndAuthor /\ creator p = Some (user_id user)))).
Proof.
  unfold filterPagesByCanDelete, canDelete, canDeleteLogic, compareDeleteConfig.
  rewrite filter_In. cbv zeta.
  split; intros [Hin H]; (split; [exact Hin|]).
  - destruct (isEmptyPage p); [now left | right].
    destruct (admin user); [now left | right].
    cbn [orb] in H.
    destruct isRecursively;
      [destruct recursiveAuthority as [[| |name]|] | destruct singleAuthority as [[| |name]|]];
      try discriminate; auto;
      right; right; (split; [reflexivity|]);
      destruct (creator p) as [c|]; try discriminate;
      apply Nat.eqb_eq in H; now subst.
  - destruct (isEmptyPage p); [reflexivity|]. cbn [orb].
    destruct H as [H | [-> | H]]; [discriminate | now destruct isRecursively |].
    destruct (admin user); [now destruct isRecursively|].
    destruct isRecursively; destruct H as [-> | [-> | [-> Hc]]]; try reflexivity;
      rewrite Hc; apply Nat.eqb_refl.
Qed.

(** ** Rejections of [deletePage] *)

(** In the v5 process [deletePage] throws and writes nothing when the page
    is empty and the deletion is not recursive, when the page is in the
    trash, when its path is not movable, and when the operation service
    does not let the deletion through. *)
Theorem deletePage_rejects_before_any_write
        (crowi : Crowi) (omitUndefined : bool) (page : Page) (user : option User)
        (isRecursively : bool) (db : DB) :
  shouldUseV4Process crowi page = false ->
  (isEmptyPage page = true /\ isRecursively = false)
  \/ isTrashPage crowi (path page) = true
  \/ isMovablePage crowi (path page) = false
  \/ canOperate crowi (pageOperations db) isRecursively (Some (path page))
                (Some (getDeletedPageName crowi (path page))) = false ->
  exists e, deletePage crowi omitUndefined page user isRecursively db = (Throw e, db).
Proof.
  intros Hv5 H. unfold deletePage. rewrite Hv5.
  destruct (isEmptyPage page && negb isRecursively) eqn:E1; [eexists; reflexivity|].
  destruct (isTrashPage crowi (path page)) eqn:E2; [eexists; reflexivity|].
  destruct (isMovablePage crowi (path page)) eqn:E3; cbn [negb]; [|eexists; reflexivity].
  unfold bind, gets.
  destruct (canOperate crowi (pageOperations db) isRecursively (Some (path page))
                       (Some (getDeletedPageName crowi (path page)))) eqn:E4;
    cbn [negb]; [|eexists; reflexivity].
  destruct H as [[He Hr] | [H | [H | H]]]; try discriminate.
  rewrite He, Hr in E1. discriminate.
Qed.

Lemma deletePage_rejects_before_any_write_witness :
  exists e,
    deletePage (exampleCrowi true) false (set_isEmpty (Some true) examplePageA)
               (Some exampleUser) false exampleDB
    = (Throw e, exampleDB).
Proof.
  apply deletePage_rejects_before_any_write; [reflexivity|].
  left. split; reflexivity.
Defined.

(** ** The move mode of [renamePage] *)

(** In the v5 process the move mode of [renamePage] renames nothing: the
    call throws and writes nothing, for the mode asks for a page at the new
    path and the check before it has refused every such path. *)
Theorem renamePage_in_move_mode_throws
        (crowi : Crowi) (omitUndefined : bool) (page : Page) (newPagePath : string)
        (user : option User) (options : RenameOptions) (db : DB) :
  shouldUseV4Process crowi page = false ->
  isMoveMode options = true ->
  exists e, renamePage crowi omitUndefined page newPagePath user options db = (Throw e, db).
Proof.
  intros Hv5 Hmove. unfold renamePage, bind, Page_exists, gets.
  destruct (existsb (fun p => String.eqb (path p) newPagePath) (pages db)) eqn:Hex;
    [eexists; reflexivity|].
  destruct (isTopPage (path page)); [eexists; reflexivity|].
  rewrite Hv5, Hmove, Hex, andb_false_r. cbn [negb]. eexists. reflexivity.
Qed.

Lemma renamePage_in_move_mode_throws_witness :
  exists e,
    renamePage (exampleCrowi true) false examplePageA "/z" (Some exampleUser)
               (mkRenameOptions true false false false) exampleDB
    = (Throw e, exampleDB).
Proof.
  apply renamePage_in_move_mode_throws; reflexivity.
Defined.

(** ** [normalizeDescendantCountById] and [recountDescendantCount] *)

Lemma fold_left_Zadd (l : list Z) (a : Z) : fold_left Z.add l a = (a + sumZ l)%Z.
Proof.
  revert a. induction l as [|x l IH]; intro a; cbn [fold_left sumZ fold_right].
  - lia.
  - rewrite IH. unfold sumZ. lia.
Qed.

Lemma filter_negb_isEmptyPage (l : list Page) :
  filter (fun p => negb (isEmptyPage p)) l = filter isNotEmptyTrue l.
Proof.
  apply filter_ext. intro p. unfold isEmptyPage, isNotEmptyTrue.
  now destruct (isEmpty p) as [[|]|].
Qed.

(** For a page with a child [normalizeDescendantCountById] stores in the
    page the count [recountDescendantCount] returns for it; for a page
    without children it throws a TypeError and writes nothing, where
    [recountDescendantCount] returns 0. *)
Theorem normalizeDescendantCountById_stores_the_recount (pageId : ObjectId) (db : DB) :
  match filter (has_parent pageId) (pages db) with
  | [] =>
      normalizeDescendantCountById pageId db = (Throw TypeError, db)
      /\ recountDescendantCount pageId db = (Ok 0%Z, db)
  | _ :: _ =>
      exists n,
        recountDescendantCount pageId db = (Ok n, db)
        /\ normalizeDescendantCountById pageId db
           = (Ok tt,
              with_pages (updateFirst (has_id pageId) (set_descendantCount n) (pages db)) db)
  end.
Proof.
  unfold normalizeDescendantCountById, recountDescendantCount, bind, Page_find, gets.
  rewrite recountDescendantCountOf_children. unfold childrenOf.
  destruct (filter (has_parent pageId) (pages db)) as [|c cs] eqn:Hc.
  - split; reflexivity.
  - eexists. split; [reflexivity|].
    cbn [map]. rewrite fold_left_Zadd, filter_negb_isEmptyPage.
    unfold Page_updateOne, modify. cbn [sumZ fold_right]. reflexivity.
Qed.

(** ** The pages that can be migrated *)

(** The condition of [addConditionForParentNormalization] is the one of the
    viewer ([generateGrantCondition] without options) less the pages of
    grant [SPECIFIED]. *)
Lemma conditionForParentNormalization_viewer (crowi : Crowi) (user : option User) (p : Page) :
  conditionForParentNormalization crowi user p
  = generateGrantCondition user (userGroupsOf crowi user) false false false p
    && negb (grant_is GRANT_SPECIFIED p).
Proof.
  unfold conditionForParentNormalization, generateGrantCondition, grant_is, userGroupsOf.
  cbv zeta.
  destruct (grant p) as [g|]; [|reflexivity].
  destruct g as [|[|[|[|[|[|g]]]]]]; cbn;
    destruct user as [u|]; cbn; try reflexivity;
    try (destruct (findAllUserGroupIdsRelatedToUser crowi u); cbn);
    rewrite ?andb_false_r, ?orb_false_r, ?andb_true_r; reflexivity.
Qed.

(** The grant clause that opens [addConditionAsMigratablePages] holds for
    every page, restricted ones included; the pages it lets through are
    the pages without a parent, other than the root and out of the trash,
    that the viewer may see and whose grant is not [SPECIFIED], so none of
    them is [RESTRICTED] either. *)
Theorem conditionAsMigratablePages_selects (crowi : Crowi) (user : option User) (p : Page) :
  conditionOnMigratableGrant p = true
  /\ conditionAsMigratablePages crowi user p
     = parent_is_null p
       && negb (String.eqb (path p) "/")
       && negb (status_is STATUS_DELETED p)
       && generateGrantCondition user (userGroupsOf crowi user) false false false p
       && negb (grant_is GRANT_SPECIFIED p)
  /\ (conditionAsMigratablePages crowi user p = true ->
      grant p <> Some GRANT_RESTRICTED /\ grant p <> Some GRANT_SPECIFIED).
Proof.
  assert (Hgrant : conditionOnMigratableGrant p = true).
  { unfold conditionOnMigratableGrant, grant_is.
    destruct (grant p) as [g|]; [|reflexivity].
    destruct (Nat.eqb_spec g GRANT_RESTRICTED) as [->|]; reflexivity. }
  assert (Heq : conditionAsMigratablePages crowi user p
                = parent_is_null p
                  && negb (String.eqb (path p) "/")
                  && negb (status_is STATUS_DELETED p)
                  && generateGrantCondition user (userGroupsOf crowi user)
                                            false false false p
                  && negb (grant_is GRANT_SPECIFIED p)).
  { unfold conditionAsMigratablePages. rewrite Hgrant.
    rewrite conditionForParentNormalization_viewer.
    unfold conditionAsNotMigrated, conditionAsNonRootPage, conditionToExcludeTrashed,
      status_is.
    cbn [andb]. rewrite <- !andb_assoc. f_equal. f_equal.
    destruct (status p) as [[|]|]; reflexivity. }
  split; [exact Hgrant|]. split; [exact Heq|].
  rewrite Heq. intro H.
  apply andb_prop in H. destruct H as [H Hsp].
  apply andb_prop in H. destruct H as [_ Hview].
  unfold generateGrantCondition, grant_is in *.
  destruct (grant p) as [g|]; [|split; discriminate].
  split; intro Hg; injection Hg as Hg; subst g.
  - cbn in Hview. unfold userGroupsOf in Hview.
    destruct user as [u|]; cbn in Hview; [|discriminate].
    destruct (findAllUserGroupIdsRelatedToUser crowi u); discriminate.
  - cbn in Hsp. discriminate.
Qed.

(** ** The collection under fresh and distinct ids *)

Lemma updateFirst_no_match (f : Page -> bool) (u : Page -> Page) (ps : list Page) :
  (forall p, In p ps -> f p = false) -> updateFirst f u ps = ps.
Proof.
  induction ps as [|q ps IH]; intro H; cbn [updateFirst]; [reflexivity|].
  rewrite (H q (or_introl eq_refl)). f_equal. apply IH. intros p Hp. apply H. now right.
Qed.

Lemma updateFirst_app_no_match (f : Page -> bool) (u : Page -> Page) (l1 l2 : list Page) :
  (forall p, In p l1 -> f p = false) ->
  updateFirst f u (l1 ++ l2) = l1 ++ updateFirst f u l2.
Proof.
  induction l1 as [|q l1 IH]; intro H; cbn [updateFirst app]; [reflexivity|].
  rewrite (H q (or_introl eq_refl)). f_equal. apply IH. intros p Hp. apply H. now right.
Qed.

Lemma find_app_no_match (f : Page -> bool) (l1 l2 : list Page) :
  (forall p, In p l1 -> f p = false) ->
  List.find f (l1 ++ l2) = List.find f l2.
Proof.
  induction l1 as [|q l1 IH]; intro H; cbn [List.find app]; [reflexivity|].
  rewrite (H q (or_introl eq_refl)). apply IH. intros p Hp. apply H. now right.
Qed.

Lemma existsb_no_match (f : Page -> bool) (ps : list Page) :
  (forall p, In p ps -> f p = false) -> existsb f ps = false.
Proof.
  induction ps as [|q ps IH]; intro H; cbn [existsb]; [reflexivity|].
  rewrite (H q (or_introl eq_refl)). apply IH. intros p Hp. apply H. now right.
Qed.

Lemma has_id_fresh (db : DB) (id : ObjectId) :
  FreshIds db -> nextId db <= id -> forall p, In p (pages db) -> has_id id p = false.
Proof.
  intros Hf Hle p Hp. unfold has_id. apply Nat.eqb_neq. specialize (Hf p Hp). lia.
Qed.

Lemma In_updateFirst_other (f : Page -> bool) (u : Page -> Page) (ps : list Page)
      (p : Page) :
  In p ps -> f p = false -> In p (updateFirst f u ps).
Proof.
  induction ps as [|q ps IH]; intros Hin Hf; [destruct Hin|].
  cbn [updateFirst]. destruct Hin as [-> | Hin].
  - rewrite Hf. now left.
  - destruct (f q); right; auto.
Qed.

(** Under distinct ids the stored pages whose id is the id of a page [f]
    selects are the pages [f] selects. *)
Lemma id_in_filter (f : Page -> bool) (ps : list Page) (p : Page) :
  NoDup (map _id ps) -> In p ps ->
  id_in (map _id (filter f ps)) p = f p.
Proof.
  intros Hnd Hp. unfold id_in.
  destruct (f p) eqn:Hf.
  - apply existsb_exists. exists (_id p). split; [|apply Nat.eqb_refl].
    apply in_map. apply filter_In. now split.
  - apply not_true_is_false. intro H. apply existsb_exists in H.
    destruct H as [x [Hx Heq]]. apply Nat.eqb_eq in Heq. subst x.
    apply in_map_iff in Hx. destruct Hx as [q [Hid Hq]].
    apply filter_In in Hq. destruct Hq as [Hq Hfq].
    assert (q = p) by (eapply NoDup_same_id; eauto). subst q. congruence.
Qed.

Lemma updateAll_ext_in (f g : Page -> bool) (u : Page -> Page) (ps : list Page) :
  (forall p, In p ps -> f p = g p) -> updateAll f u ps = updateAll g u ps.
Proof.
  intro H. unfold updateAll. apply map_ext_in. intros p Hp. now rewrite (H p Hp).
Qed.

(** [createEmptyPage] on a collection with fresh ids ahead. *)
Lemma createEmptyPage_fresh (pth : string) (par : ObjectId) (creator_ : option ObjectId)
      (dc : Z) (db : DB) :
  FreshIds db ->
  createEmptyPage pth (Some par) creator_ dc db
  = (Ok (emptyPageOf (nextId db) pth (Some par) creator_ dc),
     mkDB (pages db ++ [emptyPageOf (nextId db) pth (Some par) creator_ dc])
          (pageOperations db) (pageRedirects db) (S (nextId db)) (events db)).
Proof.
  intro Hfresh.
  unfold createEmptyPage, newObjectId, Page_save, modify, ret, bind.
  cbn [pages nextId with_pages fst snd].
  fold (emptyPageOf (nextId db) pth (Some par) creator_ dc).
  change (_id (emptyPageOf (nextId db) pth (Some par) creator_ dc)) with (nextId db).
  rewrite existsb_no_match by (apply has_id_fresh; [exact Hfresh | lia]).
  reflexivity.
Qed.

(** ** [replaceTargetWithPage] *)

(** Without a stored parent of the page to replace, [replaceTargetWithPage]
    throws and writes nothing, whatever it is given to replace with. *)
Theorem replaceTargetWithPage_without_parent
        (omitUndefined : bool) (exPage : Page) (operator : option ObjectId)
        (pageToReplaceWith : PageToReplaceWith) (deleteExPageIfEmpty : bool) (db : DB) :
  parentOf (pages db) exPage = None ->
  replaceTargetWithPage omitUndefined exPage operator pageToReplaceWith deleteExPageIfEmpty db
  = (Throw ParentToUpdateDoesNotExist, db).
Proof.
  unfold parentOf, replaceTargetWithPage, bind, Page_findById, Page_findOne, gets, ret.
  intro H. destruct (parent exPage) as [pid|]; [rewrite H|]; reflexivity.
Qed.

Lemma replaceTargetWithPage_without_parent_witness :
  replaceTargetWithPage false exampleRoot None ReplaceWithNothing false exampleDB
  = (Throw ParentToUpdateDoesNotExist, exampleDB).
Proof. apply replaceTargetWithPage_without_parent. reflexivity. Defined.

(** With nothing to replace with, on a collection of distinct ids below
    the next fresh one, [replaceTargetWithPage] stores a new empty page of
    the path and the descendant count of the page to replace, under the
    parent of that page, gives it the children of that page, changes no
    other page and returns it. *)
Theorem replaceTargetWithPage_puts_a_placeholder
        (omitUndefined : bool) (exPage par : Page) (operator : option ObjectId) (db : DB) :
  NoDup (map _id (pages db)) ->
  FreshIds db ->
  parentOf (pages db) exPage = Some par ->
  parent exPage <> Some (_id exPage) ->
  let placeholder :=
    emptyPageOf (nextId db) (path exPage) (Some (_id par)) operator
                (descendantCount exPage) in
  replaceTargetWithPage omitUndefined exPage operator ReplaceWithNothing false db
  = (Ok (Some placeholder),
     mkDB (updateAll (has_parent (_id exPage)) (set_parent (Some (nextId db))) (pages db)
           ++ [placeholder])
          (pageOperations db) (pageRedirects db) (S (nextId db)) (events db)).
Proof.
  intros Hnd Hfresh Hpar Hself placeholder.
  unfold parentOf in Hpar. destruct (parent exPage) as [pid|] eqn:Hp; [|discriminate].
  assert (Hparid : _id par = pid).
  { apply find_some in Hpar. destruct Hpar as [_ H]. now apply Nat.eqb_eq in H. }
  assert (Hne : pid <> _id exPage) by congruence.
  assert (Hnew : forall p, In p (pages db) -> has_id (nextId db) p = false)
    by (apply has_id_fresh; [exact Hfresh | lia]).
  assert (Hnotchild : has_parent (_id exPage) placeholder = false).
  { unfold has_parent, placeholder, emptyPageOf. cbn. rewrite Hparid.
    now apply Nat.eqb_neq. }
  unfold replaceTargetWithPage, bind at 1.
  unfold Page_findById, Page_findOne, gets. rewrite Hp, Hpar.
  cbv beta iota. unfold bind at 1. unfold bind at 1.
  rewrite createEmptyPage_fresh by exact Hfresh.
  fold placeholder. unfold ret at 1. cbv beta iota.
  unfold has_id_of, set_parent_to_id_of.
  unfold Page_find, Page_updateOne, Page_updateMany, modify,
    Page_findById, Page_findOne, gets, ret, bind.
  cbn [pages nextId with_pages pageOperations pageRedirects events andb].
  change (_id placeholder) with (nextId db).
  rewrite updateFirst_app_no_match by exact Hnew.
  assert (Hupd : updateFirst (fun p => has_id (nextId db) p)
                             (set_parent (Some (_id par))) [placeholder]
                 = [placeholder]).
  { cbn [updateFirst]. unfold has_id. change (_id placeholder) with (nextId db).
    now rewrite Nat.eqb_refl. }
  rewrite Hupd.
  assert (Hchildren : filter (has_parent (_id exPage)) (pages db ++ [placeholder])
                      = filter (has_parent (_id exPage)) (pages db)).
  { rewrite filter_app. cbn [filter]. rewrite Hnotchild. apply app_nil_r. }
  rewrite Hchildren.
  assert (Hph : id_in (map _id (filter (has_parent (_id exPage)) (pages db))) placeholder
                = false).
  { unfold id_in. apply not_true_is_false. intro H. apply existsb_exists in H.
    destruct H as [x [Hx Heq]]. apply Nat.eqb_eq in Heq. subst x.
    apply in_map_iff in Hx. destruct Hx as [q [Hid Hq]].
    apply filter_In in Hq. destruct Hq as [Hq _].
    specialize (Hfresh q Hq). change (_id placeholder) with (nextId db) in Hid. lia. }
  assert (Hall : updateAll (id_in (map _id (filter (has_parent (_id exPage)) (pages db))))
                           (fun p => set_parent (Some (nextId db)) p)
                           (pages db ++ [placeholder])
                 = updateAll (has_parent (_id exPage)) (set_parent (Some (nextId db)))
                             (pages db) ++ [placeholder]).
  { unfold updateAll at 1. rewrite map_app. cbn [map]. rewrite Hph. f_equal.
    apply map_ext_in. intros p Hin. now rewrite id_in_filter. }
  rewrite Hall. unfold with_pages.
  cbn [pages nextId pageOperations pageRedirects events].
  rewrite find_app_no_match.
  2: { intros p Hin. unfold updateAll in Hin. apply in_map_iff in Hin.
       destruct Hin as [q [Hq Hin]]. unfold has_id.
       assert (_id p = _id q) as -> by (subst p; now destruct (has_parent _ q)).
       apply (Hnew q Hin). }
  cbn [List.find]. unfold has_id. change (_id placeholder) with (nextId db).
  rewrite Nat.eqb_refl. reflexivity.
Qed.

Lemma replaceTargetWithPage_puts_a_placeholder_witness :
  replaceTargetWithPage false examplePageA None ReplaceWithNothing false exampleDB
  = (Ok (Some (emptyPageOf 4 "/a" (Some 1) None 1)),
     mkDB [exampleRoot; examplePageA; set_parent (Some 4) examplePageB;
           emptyPageOf 4 "/a" (Some 1) None 1] [] [] 5 []).
Proof.
  apply (replaceTargetWithPage_puts_a_placeholder false examplePageA exampleRoot None
                                                  exampleDB).
  - repeat constructor; cbn; intuition discriminate.
  - intros p Hp. cbn in Hp. destruct Hp as [<- | [<- | [<- | []]]]; cbn; lia.
  - reflexivity.
  - discriminate.
Defined.

(** ** [insertMany] and [createEmptyPagesByPaths] *)

Lemma Page_insertMany_fresh (docs : list (Page -> Page)) :
  (forall d id, In d docs -> _id (d (newPage id)) = id) ->
  forall db,
    FreshIds db ->
    Page_insertMany docs db
    = (Ok (insertedFrom (nextId db) docs),
       mkDB (pages db ++ insertedFrom (nextId db) docs) (pageOperations db)
            (pageRedirects db) (nextId db + List.length docs) (events db)).
Proof.
  induction docs as [|d docs IH]; intros Hid db Hfresh.
  - cbn. unfold ret. rewrite app_nil_r, Nat.add_0_r. now destruct db.
  - cbn [Page_insertMany insertedFrom List.length].
    unfold bind at 1. unfold newObjectId. cbv beta iota.
    unfold bind at 1. unfold Page_save, modify, ret, bind at 1.
    cbn [pages nextId with_pages pageOperations pageRedirects events].
    rewrite (Hid d (nextId db) (or_introl eq_refl)).
    rewrite existsb_no_match by (apply has_id_fresh; [exact Hfresh | lia]).
    unfold with_pages. cbn [pages nextId pageOperations pageRedirects events].
    unfold bind at 1. rewrite IH.
    + cbn [pages nextId pageOperations pageRedirects events]. unfold ret.
      rewrite <- app_assoc. cbn [app]. f_equal. f_equal. lia.
    + intros d' id Hd'. apply Hid. now right.
    + intros p Hp. cbn [pages nextId] in *. apply in_app_or in Hp.
      destruct Hp as [Hp | [<- | []]].
      * specialize (Hfresh p Hp). lia.
      * rewrite (Hid d (nextId db) (or_introl eq_refl)). lia.
Qed.

Lemma insertedFrom_length (docs : list (Page -> Page)) (id : ObjectId) :
  List.length (insertedFrom id docs) = List.length docs.
Proof. revert id. induction docs as [|d docs IH]; intro id; cbn; auto. Qed.

Lemma insertedFrom_map_path (paths : list string) (u : Page -> Page) :
  (forall p, path (u p) = path p) ->
  forall id,
    map path (insertedFrom id (map (fun pth p => u (set_path pth p)) paths)) = paths.
Proof.
  intro Hu. induction paths as [|pth paths IH]; intro id; cbn; [reflexivity|].
  rewrite Hu. cbn. now rewrite IH.
Qed.

Lemma insertedFrom_Forall (P : Page -> Prop) (docs : list (Page -> Page)) :
  (forall d id, In d docs -> P (d (newPage id))) ->
  forall id, Forall P (insertedFrom id docs).
Proof.
  induction docs as [|d docs IH]; intros H id; cbn; constructor.
  - apply H. now left.
  - apply IH. intros d' id' Hd'. apply H. now right.
Qed.

(** On a collection whose ids are below the next fresh one,
    [createEmptyPagesByPaths] appends one empty page, without a parent and
    created by the user, for each listed path at which the query for
    existing pages finds none, and changes no stored page; afterwards every
    listed path has a page: one the query found or a new one. *)
Theorem createEmptyPagesByPaths_fills
        (crowi : Crowi) (paths : list string) (user : option User)
        (onlyMigratedAsExistingPages : bool) (filter_ : option (Page -> bool)) (db : DB) :
  FreshIds db ->
  let existing := fun p =>
    path_in paths p
    && (if onlyMigratedAsExistingPages then conditionAsMigrated p else true)
    && match filter_ with Some f => f p | None => true end
    && generateGrantCondition user (userGroupsOf crowi user) false false false p in
  let lacking :=
    filter (fun pth => negb (existsb (String.eqb pth)
                                     (map path (filter existing (pages db))))) paths in
  exists created,
    createEmptyPagesByPaths crowi paths user onlyMigratedAsExistingPages filter_ db
    = (Ok tt,
       mkDB (pages db ++ created) (pageOperations db) (pageRedirects db)
            (nextId db + List.length created) (events db))
    /\ map path created = lacking
    /\ Forall (fun p => isEmpty p = Some true /\ parent p = None
                        /\ creator p = user_id_of user) created
    /\ (forall pth, In pth paths ->
                    exists p, In p (pages db ++ created) /\ path p = pth
                              /\ (existing p = true \/ In p created)).
Proof.
  intros Hfresh existing lacking.
  set (docs := map (fun pth p => set_creator (user_id_of user)
                                   (set_isEmpty (Some true) (set_path pth p))) lacking).
  exists (insertedFrom (nextId db) docs).
  assert (Hpaths : map path (insertedFrom (nextId db) docs) = lacking).
  { unfold docs.
    apply (insertedFrom_map_path lacking
             (fun p => set_creator (user_id_of user) (set_isEmpty (Some true) p))).
    reflexivity. }
  split; [|split; [exact Hpaths|split]].
  - unfold createEmptyPagesByPaths, bind at 1. unfold Page_find, gets. cbv beta iota.
    fold existing. fold lacking. fold docs.
    unfold bind. rewrite Page_insertMany_fresh.
    + unfold ret. f_equal. f_equal. now rewrite insertedFrom_length.
    + intros d id Hd. unfold docs in Hd. apply in_map_iff in Hd.
      destruct Hd as [pth [<- _]]. reflexivity.
    + exact Hfresh.
  - apply insertedFrom_Forall. intros d id Hd. unfold docs in Hd.
    apply in_map_iff in Hd. destruct Hd as [pth [<- _]]. repeat split.
  - intros pth Hin.
    destruct (existsb (String.eqb pth) (map path (filter existing (pages db)))) eqn:Hex.
    + apply existsb_exists in Hex. destruct Hex as [x [Hx Heq]].
      apply String.eqb_eq in Heq. subst x.
      apply in_map_iff in Hx. destruct Hx as [p [Hp Hf]].
      apply filter_In in Hf. destruct Hf as [Hf He].
      exists p. split; [apply in_or_app; now left|]. split; [exact Hp | now left].
    + assert (Hl : In pth lacking).
      { unfold lacking. apply filter_In. split; [exact Hin|]. now rewrite Hex. }
      rewrite <- Hpaths in Hl. apply in_map_iff in Hl. destruct Hl as [p [Hp Hc]].
      exists p. split; [apply in_or_app; now right|]. split; [exact Hp | now right].
Qed.

Lemma createEmptyPagesByPaths_fills_witness :
  exists created,
    createEmptyPagesByPaths (exampleCrowi true) ["/"%string; "/c"%string] None true None
                            exampleDB
    = (Ok tt, mkDB (pages exampleDB ++ created) [] [] (4 + List.length created) [])
    /\ map path created = ["/c"%string].
Proof.
  destruct (createEmptyPagesByPaths_fills (exampleCrowi true) ["/"%string; "/c"%string]
              None true None exampleDB) as [created (Hrun & Hpaths & _)].
  - intros p Hp. cbn in Hp. destruct Hp as [<- | [<- | [<- | []]]]; cbn; lia.
  - exists created. split; [exact Hrun | exact Hpaths].
Defined.

(** ** The ancestors by the parent links *)

Lemma AncestorChain_unique (ps : list Page) (target : Page) (c1 c2 : list Page) :
  AncestorChain ps target c1 -> AncestorChain ps target c2 -> c1 = c2.
Proof.
  intro H1. revert c2. induction H1 as [t Ht | t par rest Ht _ IH]; intros c2 H2;
    inversion H2 as [t' Ht' | t' par' rest' Ht' Hrest']; subst; try congruence.
  rewrite Ht in Ht'. injection Ht' as <-. f_equal. now apply IH.
Qed.

Lemma AncestorChain_from (ps : list Page) (target p : Page) (chain : list Page) :
  AncestorChain ps target chain -> In p chain ->
  exists before after, chain = before ++ p :: after /\ AncestorChain ps p after.
Proof.
  induction 1 as [t Ht | t par rest Ht Hrest IH]; intro Hin; [destruct Hin|].
  destruct Hin as [<- | Hin].
  - exists [], rest. split; [reflexivity | exact Hrest].
  - destruct (IH Hin) as (before & after & -> & Hp).
    exists (par :: before), after. split; [reflexivity | exact Hp].
Qed.

(** A walk that ends visits no page twice. *)
Lemma AncestorChain_NoDup (ps : list Page) (target : Page) (chain : list Page) :
  AncestorChain ps target chain -> NoDup chain.
Proof.
  induction 1 as [t Ht | t par rest Ht Hrest IH]; constructor; [|exact IH].
  intro Hin. destruct (AncestorChain_from _ _ _ _ Hrest Hin) as (before & after & Heq & Hp).
  pose proof (AncestorChain_unique _ _ _ _ Hrest Hp) as Hsame.
  apply (f_equal (@List.length Page)) in Heq.
  rewrite length_app in Heq. cbn [List.length] in Heq. rewrite Hsame in Heq. lia.
Qed.

Lemma parentOf_stored (ps : list Page) (page par : Page) :
  parentOf ps page = Some par -> In par ps /\ parent page = Some (_id par).
Proof.
  unfold parentOf. destruct (parent page) as [pid|]; [|discriminate].
  intro H. apply find_some in H. destruct H as [Hin Hid].
  apply Nat.eqb_eq in Hid. split; [exact Hin | now subst].
Qed.

Lemma AncestorChain_stored (ps : list Page) (target : Page) (chain : list Page) :
  AncestorChain ps target chain -> incl chain ps.
Proof.
  induction 1 as [t Ht | t par rest Ht Hrest IH]; intros p Hp; [destruct Hp|].
  destruct Hp as [<- | Hp]; [now apply (parentOf_stored ps t) | now apply IH].
Qed.

Lemma AncestorChain_length (ps : list Page) (target : Page) (chain : list Page) :
  AncestorChain ps target chain -> List.length chain <= List.length ps.
Proof.
  intro H. apply NoDup_incl_length.
  - now apply (AncestorChain_NoDup ps target).
  - now apply (AncestorChain_stored ps target).
Qed.

Lemma findAncestorsRecursively_parentOf (fuel : nat) (ps : list Page) (target : Page)
      (ancestors : list Page) :
  findAncestorsRecursively (S fuel) ps target ancestors
  = match parentOf ps target with
    | None => Some ancestors
    | Some par => findAncestorsRecursively fuel ps par (ancestors ++ [par])
    end.
Proof.
  cbn [findAncestorsRecursively]. unfold parentOf.
  destruct (parent target) as [pid|]; reflexivity.
Qed.

Lemma findAncestorsRecursively_complete (ps : list Page) (target : Page)
      (chain : list Page) :
  AncestorChain ps target chain ->
  forall fuel ancestors,
    List.length chain < fuel ->
    findAncestorsRecursively fuel ps target ancestors = Some (ancestors ++ chain).
Proof.
  induction 1 as [t Ht | t par rest Ht Hrest IH]; intros fuel ancestors Hfuel;
    (destruct fuel as [|fuel]; [cbn in Hfuel; lia|]);
    rewrite findAncestorsRecursively_parentOf, Ht.
  - now rewrite app_nil_r.
  - rewrite IH by (cbn in Hfuel; lia). now rewrite <- app_assoc.
Qed.

Lemma findAncestorsRecursively_sound (fuel : nat) (ps : list Page) :
  forall target ancestors result,
    findAncestorsRecursively fuel ps target ancestors = Some result ->
    exists chain, AncestorChain ps target chain /\ result = ancestors ++ chain.
Proof.
  induction fuel as [|fuel IH]; intros target ancestors result H; [discriminate|].
  rewrite findAncestorsRecursively_parentOf in H.
  destruct (parentOf ps target) as [par|] eqn:Hpar.
  - destruct (IH _ _ _ H) as (chain & Hchain & ->).
    exists (par :: chain). split; [now apply AncestorChain_up|].
    now rewrite <- app_assoc.
  - injection H as <-. exists []. split; [now apply AncestorChain_top|].
    now rewrite app_nil_r.
Qed.

Lemma findAncestorsUsingParentRecursively_run
      (pageId : option ObjectId) (shouldIncludeTarget : bool) (db : DB)
      (target : Page) (chain : list Page) :
  fst (Page_findById pageId db) = Ok (Some target) ->
  AncestorChain (pages db) target chain ->
  findAncestorsUsingParentRecursively pageId shouldIncludeTarget db
  = (Ok ((if shouldIncludeTarget then [target] else []) ++ chain), db).
Proof.
  intros Hfind Hchain.
  unfold findAncestorsUsingParentRecursively, Page_findById, Page_findOne, gets, ret,
    throw, bind in *.
  destruct pageId as [i|]; cbn [fst] in Hfind; [|discriminate].
  injection Hfind as Hfind. rewrite Hfind.
  rewrite (findAncestorsRecursively_complete _ _ _ Hchain); [reflexivity|].
  pose proof (AncestorChain_length _ _ _ Hchain). lia.
Qed.

Lemma updateDescendantCountOfAncestors_run
      (pageId : option ObjectId) (inc : Z) (shouldIncludeTarget : bool) (db : DB)
      (target : Page) (chain : list Page) :
  fst (Page_findById pageId db) = Ok (Some target) ->
  AncestorChain (pages db) target chain ->
  updateDescendantCountOfAncestors pageId inc shouldIncludeTarget db
  = (Ok tt,
     mkDB (updateAll (id_in (map _id ((if shouldIncludeTarget then [target] else [])
                                      ++ chain)))
                     (fun p => set_descendantCount (descendantCount p + inc)%Z p)
                     (pages db))
          (pageOperations db) (pageRedirects db) (nextId db)
          (events db
           ++ [EvUpdateDescCount
                 (map (fun p => (_id p, (descendantCount p + inc)%Z))
                      ((if shouldIncludeTarget then [target] else []) ++ chain))])).
Proof.
  intros Hfind Hchain.
  unfold updateDescendantCountOfAncestors, bind at 1.
  rewrite (findAncestorsUsingParentRecursively_run _ _ _ _ _ Hfind Hchain).
  unfold incrementDescendantCountOfPageIds, Page_updateMany, emit, modify, bind.
  reflexivity.
Qed.

(** [findAncestorsUsingParentRecursively] writes nothing; it throws when
    the page of the id is not stored; it returns the pages the parent links
    give from the page upward, nearest first and after the page itself when
    that is asked for, whenever the links end at a page without a stored
    parent, and it returns nothing else. *)
Theorem findAncestorsUsingParentRecursively_walks_up
        (pageId : option ObjectId) (shouldIncludeTarget : bool) (db : DB) :
  let first := fun target : Page => if shouldIncludeTarget then [target] else [] in
  (fst (Page_findById pageId db) = Ok None ->
   findAncestorsUsingParentRecursively pageId shouldIncludeTarget db
   = (Throw TargetNotFound, db))
  /\ (forall target chain,
         fst (Page_findById pageId db) = Ok (Some target) ->
         AncestorChain (pages db) target chain ->
         findAncestorsUsingParentRecursively pageId shouldIncludeTarget db
         = (Ok (first target ++ chain), db))
  /\ (forall ancestors db',
         findAncestorsUsingParentRecursively pageId shouldIncludeTarget db
         = (Ok ancestors, db') ->
         db' = db
         /\ exists target chain,
              fst (Page_findById pageId db) = Ok (Some target)
              /\ AncestorChain (pages db) target chain
              /\ ancestors = first target ++ chain).
Proof.
  intro first.
  unfold findAncestorsUsingParentRecursively, Page_findById, Page_findOne, gets, ret,
    throw, bind.
  destruct pageId as [i|]; cbn [fst].
  - destruct (List.find (has_id i) (pages db)) as [target|].
    + repeat split; try discriminate.
      * intros t chain Ht Hchain. injection Ht as <-.
        rewrite (findAncestorsRecursively_complete _ _ _ Hchain); [reflexivity|].
        pose proof (AncestorChain_length _ _ _ Hchain). lia.
      * revert H. destruct (findAncestorsRecursively _ _ _ _); [|discriminate].
        intro H. now injection H.
      * revert H.
        destruct (findAncestorsRecursively _ _ _ _) as [result|] eqn:Hrec;
          [|discriminate].
        intro H. injection H as <- _.
        destruct (findAncestorsRecursively_sound _ _ _ _ _ Hrec) as (chain & Hchain & ->).
        exists target, chain. repeat split; auto.
    + repeat split; discriminate.
  - repeat split; discriminate.
Qed.

(** ** [updateDescendantCountOfAncestors] *)

(** When the parent links from the page of the id end,
    [updateDescendantCountOfAncestors] adds the increment to the descendant
    count of the stored pages that have the id of an ancestor (of the page
    too when it is to be included), changes nothing else in the collection
    and emits the new counts of the ancestors; under distinct ids the pages
    it changes are the ancestors themselves. *)
Theorem updateDescendantCountOfAncestors_adds_along_the_chain
        (pageId : option ObjectId) (inc : Z) (shouldIncludeTarget : bool) (db : DB)
        (target : Page) (chain : list Page) :
  fst (Page_findById pageId db) = Ok (Some target) ->
  AncestorChain (pages db) target chain ->
  let ancestors := (if shouldIncludeTarget then [target] else []) ++ chain in
  updateDescendantCountOfAncestors pageId inc shouldIncludeTarget db
  = (Ok tt,
     mkDB (updateAll (id_in (map _id ancestors))
                     (fun p => set_descendantCount (descendantCount p + inc)%Z p)
                     (pages db))
          (pageOperations db) (pageRedirects db) (nextId db)
          (events db
           ++ [EvUpdateDescCount
                 (map (fun p => (_id p, (descendantCount p + inc)%Z)) ancestors)]))
  /\ (NoDup (map _id (pages db)) ->
      forall p, In p (pages db) ->
                (id_in (map _id ancestors) p = true <-> In p ancestors)).
Proof.
  intros Hfind Hchain ancestors. split.
  - now apply updateDescendantCountOfAncestors_run.
  - intros Hnd p Hp.
    assert (Hstored : incl ancestors (pages db)).
    { unfold ancestors. intros q Hq. apply in_app_or in Hq. destruct Hq as [Hq | Hq].
      - destruct shouldIncludeTarget; [|destruct Hq]. destruct Hq as [<- | []].
        unfold Page_findById, Page_findOne, gets, ret in Hfind.
        destruct pageId as [i|]; [|discriminate]. cbn in Hfind.
        injection Hfind as Hfind. now apply find_some in Hfind.
      - now apply (AncestorChain_stored _ _ _ Hchain). }
    unfold id_in. rewrite existsb_exists. split.
    + intros [x [Hx Heq]]. apply Nat.eqb_eq in Heq. subst x.
      apply in_map_iff in Hx. destruct Hx as [q [Hid Hq]].
      assert (q = p) by (eapply NoDup_same_id; eauto). now subst q.
    + intro Hin. exists (_id p). split; [now apply in_map | apply Nat.eqb_refl].
Qed.

Lemma updateDescendantCountOfAncestors_adds_along_the_chain_witness :
  updateDescendantCountOfAncestors (Some 3) (-1) false exampleDB
  = (Ok tt,
     mkDB [set_descendantCount 1 exampleRoot; set_descendantCount 0 examplePageA;
           examplePageB]
          [] [] 4 [EvUpdateDescCount [(2, 0%Z); (1, 1%Z)]]).
Proof.
  apply (updateDescendantCountOfAncestors_adds_along_the_chain
           (Some 3) (-1) false exampleDB examplePageB [examplePageA; exampleRoot]).
  - reflexivity.
  - apply AncestorChain_up; [reflexivity|].
    apply AncestorChain_up; [reflexivity|].
    apply AncestorChain_top. reflexivity.
Defined.

(** ** The grant condition of the viewer *)

(** [generateGrantCondition] holds for every page without a grant or of
    grant [PUBLIC], whoever the viewer is; for a page of grant [RESTRICTED]
    exactly when [showAnyoneKnowsLink] is set; and a page it holds for
    stays selected when options are added. *)
Theorem generateGrantCondition_by_grant
        (user : option User) (userGroups : option (list ObjectId))
        (showAnyoneKnowsLink showPagesRestrictedByOwner showPagesRestrictedByGroup : bool)
        (p : Page) :
  (grant p = None \/ grant p = Some GRANT_PUBLIC ->
   generateGrantCondition user userGroups showAnyoneKnowsLink showPagesRestrictedByOwner
                          showPagesRestrictedByGroup p = true)
  /\ (grant p = Some GRANT_RESTRICTED ->
      generateGrantCondition user userGroups showAnyoneKnowsLink showPagesRestrictedByOwner
                             showPagesRestrictedByGroup p = showAnyoneKnowsLink)
  /\ (forall link owner group : bool,
         generateGrantCondition user userGroups showAnyoneKnowsLink
                                showPagesRestrictedByOwner showPagesRestrictedByGroup p = true ->
         generateGrantCondition user userGroups (showAnyoneKnowsLink || link)
                                (showPagesRestrictedByOwner || owner)
                                (showPagesRestrictedByGroup || group) p = true).
Proof.
  unfold generateGrantCondition, grant_is. repeat split.
  - intros [-> | ->]; [reflexivity|]. cbn. reflexivity.
  - intros ->. cbn. rewrite andb_true_r.
    destruct showAnyoneKnowsLink; cbn; [reflexivity|].
    destruct showPagesRestrictedByOwner, showPagesRestrictedByGroup, user as [u|],
      userGroups as [[|g gs]|]; reflexivity.
  - intros link owner group.
    destruct (grant p) as [g|]; [|reflexivity].
    destruct (g =? GRANT_PUBLIC); [reflexivity|]. cbn [orb].
    destruct (g =? GRANT_RESTRICTED), (g =? GRANT_SPECIFIED), (g =? GRANT_OWNER),
      (g =? GRANT_USER_GROUP);
      destruct showAnyoneKnowsLink, showPagesRestrictedByOwner, showPagesRestrictedByGroup,
        link, owner, group;
      cbn [orb andb]; try reflexivity; try discriminate;
      destruct user as [u|]; cbn [orb andb]; try reflexivity; try discriminate;
      destruct userGroups as [[|g0 gs]|]; cbn [orb andb];
      rewrite ?orb_false_r, ?orb_true_r, ?andb_true_r; try reflexivity; try discriminate;
      intro H; rewrite ?H; try reflexivity;
      destruct (existsb (Nat.eqb (user_id u)) (grantedUsers p)); try reflexivity;
      try discriminate; cbn [orb andb] in *; try (now rewrite H); try discriminate.
Qed.

(** ** The soft delete of a leaf page *)

Lemma find_updateFirst_other_id (i j : ObjectId) (u : Page -> Page) (ps : list Page) :
  i <> j ->
  (forall p, has_id j p = true -> _id (u p) = _id p) ->
  List.find (has_id i) (updateFirst (has_id j) u ps) = List.find (has_id i) ps.
Proof.
  intros Hij Hu. induction ps as [|p ps IH]; cbn [updateFirst List.find]; [reflexivity|].
  destruct (has_id j p) eqn:Hj; cbn [List.find].
  - unfold has_id in *. rewrite (Hu p Hj). apply Nat.eqb_eq in Hj.
    replace (_id p =? i) with false by (symmetry; apply Nat.eqb_neq; lia).
    reflexivity.
  - destruct (has_id i p); [reflexivity | exact IH].
Qed.

Lemma find_updateFirst_same (f : Page -> bool) (u : Page -> Page) (ps : list Page)
      (p : Page) :
  List.find f ps = Some p -> f (u p) = true ->
  List.find f (updateFirst f u ps) = Some (u p).
Proof.
  intros Hfind Hu. induction ps as [|q ps IH]; [discriminate|].
  cbn [List.find updateFirst] in *. destruct (f q) eqn:Hq.
  - injection Hfind as ->. cbn [List.find]. now rewrite Hu.
  - cbn [List.find]. rewrite Hq. now apply IH.
Qed.

Lemma In_updateFirst_same (f : Page -> bool) (u : Page -> Page) (ps : list Page)
      (p : Page) :
  List.find f ps = Some p -> In (u p) (updateFirst f u ps).
Proof.
  induction ps as [|q ps IH]; [discriminate|].
  cbn [List.find updateFirst]. destruct (f q).
  - intro H. injection H as ->. now left.
  - intro H. right. now apply IH.
Qed.

(** A page is no ancestor of its own when the walk from it ends. *)
Lemma AncestorChain_not_self (ps : list Page) (target : Page) (chain : list Page) :
  AncestorChain ps target chain -> ~ In target chain.
Proof.
  intros Hchain Hin.
  destruct (AncestorChain_from _ _ _ _ Hchain Hin) as (before & after & Heq & Hafter).
  pose proof (AncestorChain_unique _ _ _ _ Hchain Hafter) as Hsame.
  apply (f_equal (@List.length Page)) in Heq.
  rewrite length_app in Heq. cbn [List.length] in Heq. rewrite Hsame in Heq. lia.
Qed.

(** The walk from a page goes the same way after the update of a stored
    page that is neither the page nor one of its ancestors. *)
Lemma AncestorChain_updateFirst (ps : list Page) (x : Page) (u : Page -> Page)
      (target : Page) (chain : list Page) :
  List.find (has_id (_id x)) ps = Some x ->
  (forall p, has_id (_id x) p = true -> _id (u p) = _id p) ->
  AncestorChain ps target chain ->
  ~ In x chain ->
  AncestorChain (updateFirst (has_id (_id x)) u ps) target chain.
Proof.
  intros Hx Hu Hchain. induction Hchain as [t Ht | t par rest Ht Hrest IH]; intro Hnot.
  - apply AncestorChain_top. unfold parentOf in *.
    destruct (parent t) as [pid|]; [|reflexivity].
    rewrite find_updateFirst_other_id; [exact Ht | | exact Hu].
    intros ->. congruence.
  - apply AncestorChain_up.
    + unfold parentOf in *. destruct (parent t) as [pid|]; [|discriminate].
      rewrite find_updateFirst_other_id; [exact Ht | | exact Hu].
      intros ->. rewrite Hx in Ht. injection Ht as ->. apply Hnot. now left.
    + apply IH. intro H. apply Hnot. now right.
Qed.

Lemma LeafChain_empty_pages (ps : list Page) (child : option ObjectId) (page : Page)
      (ids : list ObjectId) :
  LeafChain ps child page ids -> In page ps ->
  forall i, In i ids -> exists q, In q ps /\ _id q = i /\ isEmptyPage q = true.
Proof.
  induction 1 as [child page He | child page He Ho | child page He Ho Hp
                  | child page next ids He Ho Hp Hc IH]; intros Hin i Hi.
  - destruct Hi.
  - destruct Hi.
  - destruct Hi as [<- | []]. now exists page.
  - destruct Hi as [<- | Hi]; [now exists page|].
    apply IH; [|exact Hi]. unfold parentOf in Hp.
    destruct (parent page); [|discriminate]. apply find_some in Hp. tauto.
Qed.

(** [removeLeafEmptyPagesRecursively] returns, and the pages it deletes
    have the ids of stored empty pages. *)
Lemma removeLeafEmptyPagesRecursively_run (pageId : option ObjectId) (db : DB) :
  exists ids,
    removeLeafEmptyPagesRecursively pageId db
    = (Ok tt, with_pages (removeAll (id_in ids) (pages db)) db)
    /\ forall i, In i ids ->
                 exists q, In q (pages db) /\ _id q = i /\ isEmptyPage q = true.
Proof.
  assert (Hnone : (Ok tt, db) = (Ok tt, with_pages (removeAll (id_in []) (pages db)) db)).
  { unfold removeAll, with_pages. cbn. f_equal.
    replace (filter (fun _ => true) (pages db)) with (pages db); [now destruct db|].
    induction (pages db) as [|p ps IH]; cbn; [reflexivity | now rewrite <- IH]. }
  unfold removeLeafEmptyPagesRecursively, bind, Page_findById, Page_findOne, gets, ret.
  destruct pageId as [id|]; [|exists []; split; [exact Hnone | intros i []]].
  destruct (List.find (has_id id) (pages db)) as [initialPage|] eqn:Hfind;
    [|exists []; split; [exact Hnone | intros i []]].
  destruct (isEmptyPage initialPage) eqn:He; cbn [negb];
    [|exists []; split; [exact Hnone | intros i []]].
  assert (Hin : In initialPage (pages db)) by (apply find_some in Hfind; tauto).
  assert (HW : WalkInv (pages db) None initialPage []).
  { constructor; cbn; auto.
    - constructor.
    - intros x [].
    - constructor. }
  destruct (generatePageIdsToRemove_chain (pages db) (S (List.length (pages db)))
              None initialPage [] HW) as [ids [Hrun Hch]].
  { cbn. lia. }
  exists ids. split.
  - cbn [app] in Hrun. rewrite Hrun. reflexivity.
  - now apply (LeafChain_empty_pages (pages db) None initialPage).
Qed.
Lemma updateFirst_found (f : Page -> bool) (u : Page -> Page) (ps : list Page) (p : Page) :
  List.find f ps = Some p ->
  updateFirst f u ps = updateFirst f (fun _ => u p) ps.
Proof.
  induction ps as [|q ps IH]; [reflexivity|].
  cbn [List.find updateFirst]. destruct (f q).
  - intro H. now injection H as ->.
  - intro H. f_equal. now apply IH.
Qed.

Lemma PageRedirect_createUnlessExists_run (from to : string) (db : DB) :
  PageRedirect_createUnlessExists from to db
  = (Ok tt,
     mkDB (pages db) (pageOperations db)
          (if existsb (fun r => String.eqb (redirect_fromPath r) from) (pageRedirects db)
           then pageRedirects db
           else pageRedirects db ++ [mkPageRedirect from to])
          (nextId db) (events db)).
Proof.
  unfold PageRedirect_createUnlessExists, PageRedirect_create, tryCatch, bind, gets.
  destruct db as [ps ops rs n evs]. cbn [pages pageOperations pageRedirects nextId events].
  destruct (existsb _ rs); reflexivity.
Qed.

Lemma deleteNonEmptyTarget_run (crowi : Crowi) (page : Page) (u : User) (db : DB) :
  List.find (has_id (_id page)) (pages db) = Some page ->
  deleteNonEmptyTarget crowi page (Some u) db
  = (Ok (Some (trashedPage crowi u page)),
     mkDB (updateFirst (has_id (_id page)) (fun _ => trashedPage crowi u page) (pages db))
          (pageOperations db)
          (if existsb (fun r => String.eqb (redirect_fromPath r) (path page))
                      (pageRedirects db)
           then pageRedirects db
           else pageRedirects db
                ++ [mkPageRedirect (path page) (getDeletedPageName crowi (path page))])
          (nextId db)
          ((events db ++ [EvPage "delete" (Some page)])
           ++ [EvPage "create" (Some (trashedPage crowi u page))])).
Proof.
  intro Hfind.
  unfold deleteNonEmptyTarget, deref, Page_findByIdAndUpdate, Page_updateOne,
    Page_findById, Page_findOne, emit, modify, gets, ret, bind.
  rewrite PageRedirect_createUnlessExists_run.
  cbn [pages with_pages pageOperations pageRedirects nextId events].
  rewrite (updateFirst_found _ _ _ _ Hfind).
  fold (trashedPage crowi u page).
  rewrite (find_updateFirst_same (has_id (_id page)) (fun _ => trashedPage crowi u page)
                                 (pages db) page Hfind)
    by (unfold has_id; cbn; apply Nat.eqb_refl).
  reflexivity.
Qed.

(** The non-recursive [deletePage] of a stored page that is not empty and
    has no children, in the v5 process, when the checks let it through, the
    ids are distinct and the parent links from the page end: the call
    returns the page as it is in the trash (trash path, status [DELETED],
    no parent, descendant count 0, the user as [deleteUser]), which is then
    stored; the old path has a redirect; each ancestor that is still stored
    has its descendant count lowered by 1; and every other page that is not
    empty is stored as it was. *)
Theorem deletePage_moves_a_leaf_to_the_trash
        (crowi : Crowi) (omitUndefined : bool) (page : Page) (u : User) (db : DB)
        (par : Page) (rest : list Page) :
  shouldUseV4Process crowi page = false ->
  isEmptyPage page = false ->
  isTrashPage crowi (path page) = false ->
  isMovablePage crowi (path page) = true ->
  canOperate crowi (pageOperations db) false (Some (path page))
             (Some (getDeletedPageName crowi (path page))) = true ->
  NoDup (map _id (pages db)) ->
  List.find (has_id (_id page)) (pages db) = Some page ->
  existsb (has_parent (_id page)) (pages db) = false ->
  AncestorChain (pages db) page (par :: rest) ->
  exists db',
    deletePage crowi omitUndefined page (Some u) false db
    = (Ok (Some (trashedPage crowi u page)), db')
    /\ In (trashedPage crowi u page) (pages db')
    /\ existsb (fun r => String.eqb (redirect_fromPath r) (path page)) (pageRedirects db')
       = true
    /\ (forall a a', In a (par :: rest) -> In a' (pages db') -> _id a' = _id a ->
                     a' = set_descendantCount (descendantCount a - 1) a)
    /\ (forall q, In q (pages db) -> ~ In q (page :: par :: rest) ->
                  isEmptyPage q = false -> In q (pages db')).
Proof.
  intros Hv5 Hne Htrash Hmov Hop Hnd Hstored Hleaf Hchain.
  set (deleted := trashedPage crowi u page).
  set (pages1 := updateFirst (has_id (_id page)) (fun _ => deleted) (pages db)).
  pose proof (deleteNonEmptyTarget_run crowi page u db Hstored) as Hrun1.
  fold deleted in Hrun1. fold pages1 in Hrun1.
  match type of Hrun1 with _ = (_, ?d) => set (db1 := d) in * end.
  (* the chain of the page *)
  assert (Hself : ~ In page (par :: rest)) by now apply (AncestorChain_not_self (pages db)).
  inversion Hchain as [| t par' rest' Hpar Hrest]; subst t par' rest'.
  destruct (parentOf_stored _ _ _ Hpar) as [Hparin Hparent].
  assert (Hpage : In page (pages db)) by (apply find_some in Hstored; tauto).
  assert (Hids : forall q, In q (pages db) -> q <> page -> _id q <> _id page).
  { intros q Hq Hneq Heq. apply Hneq. now apply (NoDup_same_id (pages db)). }
  assert (Hparne : _id par <> _id page).
  { apply Hids; [exact Hparin|]. intros ->. apply Hself. now left. }
  assert (Hsame : forall p, has_id (_id page) p = true -> _id deleted = _id p).
  { intros p Hid. unfold has_id in Hid. apply Nat.eqb_eq in Hid. now rewrite Hid. }
  assert (Hids1 : map _id pages1 = map _id (pages db)).
  { unfold pages1. apply map_id_updateFirst. intros p _ Hid. now apply Hsame. }
  (* the ancestors after the first write *)
  assert (Hfind1 : fst (Page_findById (parent page) db1) = Ok (Some par)).
  { rewrite Hparent. unfold Page_findById, Page_findOne, gets. cbn [fst pages db1].
    unfold pages1. rewrite find_updateFirst_other_id; [|exact Hparne|exact Hsame].
    unfold parentOf in Hpar. rewrite Hparent in Hpar. now rewrite Hpar. }
  assert (Hchain1 : AncestorChain (pages db1) par rest).
  { cbn [pages db1]. unfold pages1.
    apply AncestorChain_updateFirst; [exact Hstored | exact Hsame | exact Hrest |].
    intro H. apply Hself. now right. }
  pose proof (updateDescendantCountOfAncestors_run (parent page) (-1) true db1 par rest
                                                   Hfind1 Hchain1) as Hrun2.
  cbn [app] in Hrun2.
  match type of Hrun2 with _ = (_, ?d) => set (db2 := d) in * end.
  destruct (removeLeafEmptyPagesRecursively_run (parent page) db2) as (ids & Hrun3 & Hids3).
  exists (with_pages (removeAll (id_in ids) (pages db2)) db2).
  split.
  { unfold deletePage. rewrite Hv5, Hne, Htrash, Hmov. cbn [andb negb].
    unfold Page_exists, ret, bind, gets. rewrite Hop. cbn [andb negb].
    unfold gets. cbv beta iota. rewrite Hleaf. cbv beta iota.
    rewrite Hrun1, Hrun2, Hrun3. reflexivity. }
  set (dec := fun p : Page => set_descendantCount (descendantCount p + -1)%Z p).
  set (pages2 := updateAll (id_in (map _id (par :: rest))) dec pages1).
  change (pages (with_pages (removeAll (id_in ids) (pages db2)) db2))
    with (removeAll (id_in ids) pages2).
  change (pages db2) with pages2 in Hids3.
  assert (Hids2 : map _id pages2 = map _id (pages db)).
  { unfold pages2. rewrite map_id_updateAll; [exact Hids1 | reflexivity]. }
  assert (Hnd2 : NoDup (map _id pages2)) by now rewrite Hids2.
  assert (Hstoredchain : incl (par :: rest) (pages db)).
  { intros a [<- | Ha]; [exact Hparin|]. now apply (AncestorChain_stored _ _ _ Hrest). }
  assert (Hinchain : forall q, In q (pages db) ->
                               id_in (map _id (par :: rest)) q = true -> In q (par :: rest)).
  { intros q Hq Hin. unfold id_in in Hin. apply existsb_exists in Hin.
    destruct Hin as [x [Hx Heq]]. apply Nat.eqb_eq in Heq. subst x.
    apply in_map_iff in Hx. destruct Hx as [a [Hid Ha]].
    assert (a = q) by (apply (NoDup_same_id (pages db)); auto). now subst a. }
  assert (Hchainin : forall a, In a (par :: rest) -> id_in (map _id (par :: rest)) a = true).
  { intros a Ha. unfold id_in. apply existsb_exists. exists (_id a).
    split; [now apply in_map | apply Nat.eqb_refl]. }
  assert (Hkeep : forall x, In x pages2 -> isEmptyPage x = false ->
                            In x (removeAll (id_in ids) pages2)).
  { intros x Hx He. unfold removeAll. apply filter_In. split; [exact Hx|].
    apply negb_true_iff. apply not_true_is_false. intro Hin.
    unfold id_in in Hin. apply existsb_exists in Hin.
    destruct Hin as [i [Hi Heq]]. apply Nat.eqb_eq in Heq. subst i.
    destruct (Hids3 _ Hi) as (q & Hq & Hqid & Hqe).
    assert (q = x) by (apply (NoDup_same_id pages2); auto). subst q. congruence. }
  assert (Hother : forall q, In q (pages db) -> q <> page ->
                             In (if id_in (map _id (par :: rest)) q then dec q else q)
                                pages2).
  { intros q Hq Hneq. unfold pages2, updateAll.
    apply (in_map (fun p => if id_in (map _id (par :: rest)) p then dec p else p)).
    unfold pages1. apply In_updateFirst_other; [exact Hq|].
    unfold has_id. apply Nat.eqb_neq. now apply Hids. }
  split; [|split; [|split]].
  - apply Hkeep; [|exact Hne].
    assert (Hd : id_in (map _id (par :: rest)) deleted = false).
    { apply not_true_is_false. intro Hin. apply Hself.
      unfold id_in in Hin. apply existsb_exists in Hin.
      destruct Hin as [x [Hx Heq]]. apply Nat.eqb_eq in Heq. subst x.
      apply in_map_iff in Hx. destruct Hx as [a [Hid Ha]].
      assert (a = page); [|now subst a].
      apply (NoDup_same_id (pages db)); auto. }
    unfold pages2, updateAll.
    replace deleted with (if id_in (map _id (par :: rest)) deleted then dec deleted
                          else deleted) by now rewrite Hd.
    apply (in_map (fun p => if id_in (map _id (par :: rest)) p then dec p else p)).
    unfold pages1. now apply (In_updateFirst_same _ (fun _ => deleted) _ page).
  - cbn [pageRedirects with_pages db2 db1].
    destruct (existsb _ (pageRedirects db)) eqn:Hex; [exact Hex|].
    rewrite existsb_app. cbn [existsb redirect_fromPath].
    rewrite String.eqb_refl. now rewrite orb_true_r.
  - intros a a' Ha Ha' Hid.
    unfold removeAll in Ha'. apply filter_In in Ha'. destruct Ha' as [Ha' _].
    assert (Hneq : a <> page) by (intros ->; now apply Hself).
    pose proof (Hother a (Hstoredchain a Ha) Hneq) as Hdec.
    rewrite (Hchainin a Ha) in Hdec.
    apply (NoDup_same_id pages2); auto.
  - intros q Hq Hnot He.
    assert (Hneq : q <> page) by (intros ->; apply Hnot; now left).
    pose proof (Hother q Hq Hneq) as Hq2.
    destruct (id_in (map _id (par :: rest)) q) eqn:Hin.
    + exfalso. apply Hnot. right. now apply Hinchain.
    + now apply Hkeep.
Qed.

Lemma deletePage_moves_a_leaf_to_the_trash_witness :
  exists db',
    deletePage (exampleCrowi true) false examplePageB (Some exampleUser) false exampleDB
    = (Ok (Some (trashedPage (exampleCrowi true) exampleUser examplePageB)), db')
    /\ In (trashedPage (exampleCrowi true) exampleUser examplePageB) (pages db').
Proof.
  destruct (deletePage_moves_a_leaf_to_the_trash
              (exampleCrowi true) false examplePageB exampleUser exampleDB
              examplePageA [exampleRoot])
    as (db' & Hrun & Hin & _); try reflexivity.
  - repeat constructor; cbn; intuition discriminate.
  - apply AncestorChain_up; [reflexivity|].
    apply AncestorChain_up; [reflexivity|].
    apply AncestorChain_top. reflexivity.
  - exists db'. split; [exact Hrun | exact Hin].
Defined.

(** ** [Page.create] under a parent that is in the tree *)

Lemma find_app_found (f : Page -> bool) (l1 l2 : list Page) (p : Page) :
  List.find f l1 = Some p -> List.find f (l1 ++ l2) = Some p.
Proof.
  induction l1 as [|q l1 IH]; [discriminate|].
  cbn [List.find app]. destruct (f q); [auto | exact IH].
Qed.

(** The walk from a page goes the same way after a page of a fresh id is
    appended, when no stored page has that id as its parent. *)
Lemma AncestorChain_app_fresh (ps : list Page) (x : Page) (target : Page)
      (chain : list Page) :
  (forall q, In q ps -> parent q <> Some (_id x)) ->
  In target ps ->
  AncestorChain ps target chain ->
  AncestorChain (ps ++ [x]) target chain.
Proof.
  intros Hfresh Hin Hchain. induction Hchain as [t Ht | t par rest Ht Hrest IH].
  - apply AncestorChain_top. unfold parentOf in *.
    destruct (parent t) as [pid|] eqn:Hp; [|reflexivity].
    rewrite find_app_no_match.
    + cbn [List.find]. unfold has_id.
      destruct (Nat.eqb_spec (_id x) pid) as [Heq|]; [|reflexivity].
      exfalso. apply (Hfresh t Hin). now rewrite Hp, Heq.
    + intros p Hp'. apply not_true_is_false. intro Hid.
      assert (Hsome : List.find (has_id pid) ps <> None).
      { intro Hnone. apply (find_none _ _ Hnone) in Hp'. congruence. }
      contradiction.
  - destruct (parentOf_stored _ _ _ Ht) as [Hparin _].
    apply AncestorChain_up; [|now apply IH].
    unfold parentOf in *. destruct (parent t) as [pid|]; [|discriminate].
    now apply find_app_found.
Qed.

Lemma updateFirst_last (f : Page -> bool) (u : Page -> Page) (ps : list Page) (x : Page) :
  (forall p, In p ps -> f p = false) -> f x = true ->
  updateFirst f u (ps ++ [x]) = ps ++ [u x].
Proof.
  intros Hno Hx. rewrite updateFirst_app_no_match by exact Hno.
  cbn [updateFirst]. now rewrite Hx.
Qed.

Lemma filter_no_path (ps : list Page) (pth : string) (f : Page -> bool) :
  (forall p, In p ps -> path p <> pth) ->
  filter (fun p => String.eqb (path p) pth && f p) ps = [].
Proof.
  induction ps as [|q ps IH]; intro H; [reflexivity|]. cbn [filter].
  replace (String.eqb (path q) pth) with false.
  - cbn [andb]. apply IH. intros p Hp. apply H. now right.
  - symmetry. apply String.eqb_neq. apply H. now left.
Qed.

Lemma find_no_path (ps : list Page) (pth : string) (f : Page -> bool) :
  (forall p, In p ps -> path p <> pth) ->
  List.find (fun p => String.eqb (path p) pth && f p) ps = None.
Proof.
  induction ps as [|q ps IH]; intro H; [reflexivity|]. cbn [List.find].
  replace (String.eqb (path q) pth) with false.
  - cbn [andb]. apply IH. intros p Hp. apply H. now right.
  - symmetry. apply String.eqb_neq. apply H. now left.
Qed.

(** [Page.create], in the v5 process, for a path without a page, not the
    top page, with a grant other than [RESTRICTED] that the grant service
    accepts, when a page in the tree is at the parent path, on a collection
    of distinct ids below the next fresh one where the parent links from
    that parent end: the call returns the new page, stored last with the
    next fresh id, under the earliest page in the tree at the parent path;
    the descendant counts of that parent and of its ancestors are raised by
    1, no other stored page changes, the redirect from the path is
    removed, and the creation and the new counts are emitted. *)
Theorem create_under_a_parent_in_the_tree
        (crowi : Crowi) (pth body : string) (u : User) (options : PageCreateOptions)
        (db : DB) (par : Page) (others chain : list Page) :
  let user := Some u in
  let pth' := xss_process crowi pth in
  let page := createdPage (nextId db) pth' body user options par in
  isSetUp crowi = true ->
  isV5Compatible crowi = true ->
  canOperate crowi (pageOperations db) false None (Some pth) = true ->
  (forall p, In p (pages db) -> path p <> pth') ->
  isTopPage pth' = false ->
  isRestricted (opt_grant options) = false ->
  isGrantNormalized crowi (pages db) user pth' (opt_grant options)
                    (if match opt_grant options with
                        | Some g => g =? GRANT_OWNER
                        | None => false
                        end
                     then Some [user_id u] else None)
                    (opt_grantUserGroupId options) false = true ->
  filter (fun p => String.eqb (path p) (dirname pth') && conditionAsMigrated p) (pages db)
  = par :: others ->
  NoDup (map _id (pages db)) ->
  FreshIds db ->
  (forall q, In q (pages db) -> parent q <> Some (nextId db)) ->
  AncestorChain (pages db) par chain ->
  create crowi pth body user options db
  = (Ok page,
     mkDB (updateAll (id_in (map _id (par :: chain)))
                     (fun p => set_descendantCount (descendantCount p + 1)%Z p)
                     (pages db)
           ++ [page])
          (pageOperations db)
          (removeFirstRedirect pth' (pageRedirects db))
          (S (nextId db))
          ((events db ++ [EvPage "create" (Some page)])
           ++ [EvUpdateDescCount
                 (map (fun p => (_id p, (descendantCount p + 1)%Z)) (par :: chain))])).
Proof.
  intros user pth' page Hsetup Hv5 Hop Hnone Htop Hgrant Hnorm Hparent Hnd Hfresh Hdangling
         Hchain.
  subst user.
  assert (Hparin : In par (pages db)).
  { assert (H : In par (par :: others)) by now left.
    rewrite <- Hparent in H. apply filter_In in H. tauto. }
  unfold create. rewrite Hsetup, Hv5. cbn [negb].
  unfold bind at 1. unfold gets at 1. cbv beta iota. rewrite Hop. cbn [negb].
  fold pth'. rewrite Htop. cbn [orb]. rewrite Hgrant. cbn [negb].
  assert (Hnopage := fun f => filter_no_path (pages db) pth' f Hnone).
  assert (Hnofind := fun f => find_no_path (pages db) pth' f Hnone).
  unfold bind at 1. unfold Page_count, gets. cbv beta iota.
  rewrite (Hnopage (fun p => match isEmpty p with Some false => true | _ => false end)).
  cbn [List.length Nat.ltb Nat.leb].
  unfold bind at 1. unfold Page_findOne, gets. cbv beta iota.
  rewrite (Hnofind (fun p => match isEmpty p with Some true => true | _ => false end)).
  (* the validation of the grant *)
  match goal with
  | |- (bind ?m _) db = _ => assert (Hval : m db = (Ok tt, db))
  end.
  { unfold bind, gets, deref, ret.
    destruct (match opt_grant options with Some g => g =? GRANT_OWNER | None => false end);
      cbv beta iota; rewrite Hnorm; reflexivity. }
  unfold bind at 1. rewrite Hval. clear Hval.
  (* the new document and its parent *)
  unfold bind at 1. unfold bind at 1. unfold newObjectId, ret at 1. cbv beta iota.
  set (db1 := mkDB (pages db) (pageOperations db) (pageRedirects db) (S (nextId db))
                   (events db)).
  assert (Hpar1 : getParentAndFillAncestors crowi pth' (Some u) db1
                  = (Ok (Some par), db1)).
  { unfold getParentAndFillAncestors, bind, Page_find, gets. cbn [pages db1].
    rewrite Hparent. reflexivity. }
  unfold bind at 1. unfold bind at 1. rewrite Hpar1.
  unfold bind at 1. unfold deref, ret at 1. cbv beta iota. unfold ret at 1.
  cbn [user_id_of].
  set (page0 := applyScope (Some u) (opt_grant options) (opt_grantUserGroupId options)
                  (set_parent (Some (_id par))
                     (set_status (Some STATUS_PUBLISHED)
                        (set_lastUpdateUser (Some (user_id u))
                           (set_creator (Some (user_id u))
                              (set_path pth' (newPage (nextId db)))))))).
  assert (Hpage : page = set_lastUpdateUser (Some (user_id u))
                           (set_revision (Some body) page0)) by reflexivity.
  assert (Hnew : forall p, In p (pages db) -> has_id (nextId db) p = false)
    by (apply has_id_fresh; [exact Hfresh | lia]).
  (* the save, the redirect, the revision and the event *)
  assert (Hsave : Page_save page0 db1
                  = (Ok page0,
                     mkDB (pages db ++ [page0]) (pageOperations db) (pageRedirects db)
                          (S (nextId db)) (events db))).
  { unfold Page_save, modify, ret, bind. cbn [pages db1].
    change (_id page0) with (nextId db).
    rewrite (existsb_no_match _ _ Hnew). reflexivity. }
  unfold bind at 1. rewrite Hsave. clear Hsave.
  unfold bind at 1. unfold PageRedirect_deleteOne, modify.
  cbn [pages pageOperations pageRedirects nextId events].
  assert (Hrev : forall reds evs,
             pushRevision page0 body (Some u)
                          (mkDB (pages db ++ [page0]) (pageOperations db) reds
                                (S (nextId db)) evs)
             = (Ok page,
                mkDB (pages db ++ [page]) (pageOperations db) reds (S (nextId db)) evs)).
  { intros reds evs. unfold pushRevision, Page_save, modify, ret, bind.
    cbn [pages user_id_of]. rewrite <- Hpage. change (_id page) with (nextId db).
    rewrite existsb_app. cbn [existsb]. unfold has_id at 2.
    change (_id page0) with (nextId db). rewrite Nat.eqb_refl, orb_true_r.
    unfold with_pages. cbn [pages pageOperations pageRedirects nextId events].
    rewrite updateFirst_last; [reflexivity | exact Hnew | apply Nat.eqb_refl]. }
  unfold bind at 1. rewrite Hrev. clear Hrev.
  unfold bind at 1. unfold emit, modify.
  cbn [pages pageOperations pageRedirects nextId events].
  (* the counts of the ancestors *)
  set (db5 := mkDB (pages db ++ [page]) (pageOperations db)
                   (removeFirstRedirect pth' (pageRedirects db)) (S (nextId db))
                   (events db ++ [EvPage "create" (Some page)])).
  assert (Hfindpar : List.find (has_id (_id par)) (pages db) = Some par).
  { destruct (List.find (has_id (_id par)) (pages db)) as [q|] eqn:Hq.
    - apply find_some in Hq. destruct Hq as [Hq Hid]. apply Nat.eqb_eq in Hid.
      f_equal. now apply (NoDup_same_id (pages db)).
    - apply (find_none _ _ Hq) in Hparin. unfold has_id in Hparin.
      now rewrite Nat.eqb_refl in Hparin. }
  assert (Hfind5 : fst (Page_findById (Some (_id page)) db5) = Ok (Some page)).
  { unfold Page_findById, Page_findOne, gets. cbn [fst pages db5].
    change (_id page) with (nextId db).
    rewrite find_app_no_match by exact Hnew. cbn [List.find]. unfold has_id.
    change (_id page) with (nextId db). now rewrite Nat.eqb_refl. }
  assert (Hchain5 : AncestorChain (pages db5) page (par :: chain)).
  { cbn [pages db5]. apply AncestorChain_up.
    - unfold parentOf. change (parent page) with (Some (_id par)).
      now apply find_app_found.
    - apply AncestorChain_app_fresh; [exact Hdangling | exact Hparin | exact Hchain]. }
  assert (Hnotin : id_in (map _id (par :: chain)) page = false).
  { apply not_true_is_false. intro Hin. unfold id_in in Hin.
    apply existsb_exists in Hin. destruct Hin as [x [Hx Heq]]. apply Nat.eqb_eq in Heq.
    subst x. apply in_map_iff in Hx. destruct Hx as [a [Hid Ha]].
    assert (Hstored : In a (pages db)).
    { destruct Ha as [<- | Ha]; [exact Hparin|].
      now apply (AncestorChain_stored _ _ _ Hchain). }
    specialize (Hfresh a Hstored). change (_id page) with (nextId db) in Hid. lia. }
  unfold bind.
  rewrite (updateDescendantCountOfAncestors_run _ 1 false db5 page (par :: chain)
                                                Hfind5 Hchain5).
  unfold ret. cbn [app pages pageOperations pageRedirects nextId events db5].
  f_equal. f_equal.
  unfold updateAll. rewrite map_app. cbn [map] in Hnotin |- *. now rewrite Hnotin.
Qed.

Lemma create_under_a_parent_in_the_tree_witness :
  fst (create (exampleCrowi true) "/c" "body" (Some exampleUser)
              (mkPageCreateOptions None None) exampleDB)
  = Ok (createdPage 4 "/c" "body" (Some exampleUser) (mkPageCreateOptions None None)
                    exampleRoot).
Proof.
  rewrite (create_under_a_parent_in_the_tree
             (exampleCrowi true) "/c" "body" exampleUser (mkPageCreateOptions None None)
             exampleDB exampleRoot [] []); try reflexivity.
  - intros p Hp. cbn in Hp. destruct Hp as [<- | [<- | [<- | []]]]; discriminate.
  - repeat constructor; cbn; intuition discriminate.
  - intros p Hp. cbn in Hp. destruct Hp as [<- | [<- | [<- | []]]]; cbn; lia.
  - intros p Hp. cbn in Hp. destruct Hp as [<- | [<- | [<- | []]]]; discriminate.
  - apply AncestorChain_top. reflexivity.
Defined.

(** ** Patterns of escaped paths *)

Import RegExp.

Lemma escapeStringRegexp_cons (c : ascii) (s : string) :
  escapeStringRegexp (String c s)
  = (escapeStringRegexp (String c EmptyString) ++ escapeStringRegexp s)%string.
Proof.
  cbn [escapeStringRegexp].
  destruct (needsEscape c); [reflexivity|].
  destruct (Ascii.eqb c "-"); reflexivity.
Qed.

(** Each character, escaped, is read back as that character. *)
Lemma run_escaped_char (c : ascii) (rest : list ascii) (q : qstate) (f : frame)
      (stk : list frame) :
  run (list_ascii_of_string (escapeStringRegexp (String c EmptyString)) ++ rest)
      (Normal q) f stk
  = run rest (Normal QNone) (push_atom (Chr c) f) stk.
Proof.
  destruct c as [[|] [|] [|] [|] [|] [|] [|] [|]]; reflexivity.
Qed.

Lemma run_escaped (s : string) (rest : list ascii) :
  forall (q : qstate) (f : frame) (stk : list frame),
    run (list_ascii_of_string (escapeStringRegexp s) ++ rest) (Normal q) f stk
    = run rest (Normal (match s with EmptyString => q | _ => QNone end))
          (mkFrame (alts f) (rev (map Chr (list_ascii_of_string s)) ++ cur f)) stk.
Proof.
  induction s as [|c s IH]; intros q f stk.
  - cbn. now destruct f.
  - rewrite escapeStringRegexp_cons, list_ascii_of_string_app, <- app_assoc.
    rewrite run_escaped_char, IH. unfold push_atom.
    cbn [alts cur list_ascii_of_string map rev]. rewrite <- app_assoc. cbn [app].
    now destruct s.
Qed.

(** The pattern [^] followed by an escaped text compiles, whatever the
    text, to the text itself, anchored at the start. *)
Lemma compile_escaped (s : string) :
  compile ("^" ++ escapeStringRegexp s)
  = Some (mkCompiled true (literally (list_ascii_of_string s) Eps) false).
Proof.
  unfold compile.
  change ("^" ++ escapeStringRegexp s)%string with (String "^" (escapeStringRegexp s)).
  cbn [list_ascii_of_string]. rewrite Ascii.eqb_refl.
  rewrite <- (app_nil_r (list_ascii_of_string (escapeStringRegexp s))).
  rewrite run_escaped. rewrite app_nil_r.
  cbn [run alts cur empty_frame orb negb andb]. unfold close_frame, alt_of.
  cbn [alts cur fold_left].
  rewrite <- (app_nil_l (rev (map Chr (list_ascii_of_string s)))).
  rewrite seq_of_literal. reflexivity.
Qed.

Lemma prefix_match_Void (ci : bool) (s : list ascii) : prefix_match ci Void s = false.
Proof. induction s as [|d s IH]; cbn; auto. Qed.

Lemma prefix_match_literally (ci : bool) (p q : list ascii) :
  prefix_match ci (literally p Eps) q = startsWith ci p q.
Proof.
  revert q. induction p as [|c p IH]; intro q.
  - destruct q; reflexivity.
  - destruct q as [|d q]; [reflexivity|].
    cbn [literally prefix_match nullable andb orb deriv startsWith].
    destruct (chr_eqb ci c d); cbn [mkSeq andb].
    + apply IH.
    + apply prefix_match_Void.
Qed.

Lemma newRegExp_escaped (s : string) (ci : bool) (db : DB) :
  newRegExp ("^" ++ escapeStringRegexp s) ci db
  = (Ok (exec ci (mkCompiled true (literally (list_ascii_of_string s) Eps) false)), db).
Proof. unfold newRegExp. now rewrite compile_escaped. Qed.

Lemma exec_escaped (ci : bool) (l : list ascii) (q : string) :
  exec ci (mkCompiled true (literally l Eps) false) q
  = startsWith ci l (list_ascii_of_string q).
Proof. unfold exec. cbn [bol eol body match_here]. apply prefix_match_literally. Qed.

Lemma startsWith_exact (p q : list ascii) :
  startsWith false p q = true <-> exists rest, q = p ++ rest.
Proof.
  revert q. induction p as [|c p IH]; intro q; cbn [startsWith].
  - split; [intros _; now exists q | reflexivity].
  - destruct q as [|d q].
    + split; [discriminate | intros [rest H]; discriminate].
    + unfold chr_eqb. rewrite andb_true_iff, IH, Ascii.eqb_eq. split.
      * intros [-> [rest ->]]. now exists rest.
      * intros [rest H]. injection H as -> ->. split; [reflexivity | now exists rest].
Qed.

Lemma startsWith_canon (p q : list ascii) :
  startsWith true p q = true
  <-> exists before rest, q = before ++ rest /\ map canon before = map canon p.
Proof.
  revert q. induction p as [|c p IH]; intro q; cbn [startsWith].
  - split; [intros _; now exists [], q|reflexivity].
  - destruct q as [|d q].
    + split; [discriminate|].
      intros (before & rest & Hq & Hc). symmetry in Hq. apply app_eq_nil in Hq.
      destruct Hq as [-> _]. discriminate.
    + unfold chr_eqb. rewrite andb_true_iff, IH, Ascii.eqb_eq. split.
      * intros [Hcd (before & rest & -> & Hc)]. exists (d :: before), rest.
        split; [reflexivity|]. cbn [map]. now rewrite Hcd, Hc.
      * intros (before & rest & Hq & Hc).
        destruct before as [|b before]; [discriminate|].
        injection Hq as -> ->. injection Hc as Hb Hc.
        split; [now symmetry | now exists before, rest].
Qed.

(** [isRenamingToUnderTarget] builds its pattern for every path and
    writes nothing; it answers yes exactly for the paths that begin with
    the path to rename from and its closing slash, the case of the letters
    aside: two code units are taken for the same when [canon], the
    Canonicalize of the [i] flag, sends them to the same code unit. *)
Theorem isRenamingToUnderTarget_is_a_prefix_test (fromPath_ toPath_ : string) (db : DB) :
  exists under,
    isRenamingToUnderTarget fromPath_ toPath_ db = (Ok under, db)
    /\ under = startsWith true (list_ascii_of_string (addTrailingSlash fromPath_))
                          (list_ascii_of_string toPath_)
    /\ (under = true
        <-> exists before rest,
              list_ascii_of_string toPath_ = before ++ rest
              /\ map canon before
                 = map canon (list_ascii_of_string (addTrailingSlash fromPath_))).
Proof.
  eexists. split; [|split; [reflexivity|]].
  - unfold isRenamingToUnderTarget, bind. rewrite newRegExp_escaped. unfold ret.
    now rewrite exec_escaped.
  - apply startsWith_canon.
Qed.

(** The letters beyond ASCII are folded too: the code units 201 and 233
    are the capital and the small e with an acute accent. *)
Example isRenamingToUnderTarget_folds_accented_letters :
  let capital := String "/" (String (ascii_of_nat 201) EmptyString) in
  let small := String "/" (String (ascii_of_nat 233) EmptyString) in
  fst (isRenamingToUnderTarget capital (small ++ "/x") emptyDB) = Ok true
  /\ fst (isRenamingToUnderTarget small (capital ++ "/y") emptyDB) = Ok true.
Proof. vm_compute. split; reflexivity. Qed.

(** The condition [addConditionToListWithDescendants] adds, page by page. *)
Lemma conditionToListWithDescendants_condition (pth : string) (db : DB) :
  exists condition,
    conditionToListWithDescendants pth db = (Ok condition, db)
    /\ forall p,
         condition p = true
         <-> (isTopPage pth = true
              \/ path p = normalizePath pth
              \/ exists rest,
                   list_ascii_of_string (path p)
                   = list_ascii_of_string (addTrailingSlash pth) ++ rest).
Proof.
  unfold conditionToListWithDescendants.
  destruct (isTopPage pth) eqn:Htop.
  - eexists. split; [reflexivity|]. intro p. split; [now left | reflexivity].
  - unfold bind. rewrite newRegExp_escaped. unfold ret.
    eexists. split; [reflexivity|]. intro p. cbv beta.
    rewrite orb_true_iff, String.eqb_eq, exec_escaped, startsWith_exact.
    split; [intros [H | H]; right; [now left | now right]|].
    intros [H | [H | H]]; [discriminate | now left | now right].
Qed.


(** ** [updateDescendantCountOfSelfAndDescendants] *)

Lemma forgetCounts_updateFirst (f : Page -> bool) (n : Z) (ps : list Page) :
  forgetCounts (updateFirst f (set_descendantCount n) ps) = forgetCounts ps.
Proof.
  unfold forgetCounts. induction ps as [|p ps IH]; cbn [updateFirst map]; [reflexivity|].
  destruct (f p); cbn [map]; [reflexivity | now rewrite IH].
Qed.

Lemma map_id_forgetCounts (ps : list Page) : map _id (forgetCounts ps) = map _id ps.
Proof. unfold forgetCounts. rewrite map_map. reflexivity. Qed.

(** The recounts of a list of documents, one after the other. *)
Lemma recount_each (documents : list Page) :
  forall db,
    exists db',
      forEachM documents (fun document =>
          descendantCount_ <- recountDescendantCount (_id document) ;;
          Page_findByIdAndUpdate (_id document) (set_descendantCount descendantCount_) ;;;
          ret tt) db
      = (Ok tt, db')
      /\ forgetCounts (pages db') = forgetCounts (pages db)
      /\ pageOperations db' = pageOperations db
      /\ pageRedirects db' = pageRedirects db
      /\ nextId db' = nextId db
      /\ events db' = events db
      /\ (forall p, In p (pages db) ->
                    (forall d, In d documents -> _id d <> _id p) ->
                    In p (pages db')).
Proof.
  induction documents as [|d documents IH]; intro db.
  - exists db. cbn. unfold ret. repeat split; auto.
  - cbn [forEachM].
    set (n := recountDescendantCountOf (_id d) (pages db)).
    set (db1 := with_pages (updateFirst (has_id (_id d)) (set_descendantCount n)
                                        (pages db)) db).
    destruct (IH db1) as (db' & Hrun & Hf & Ho & Hr & Hn & He & Hkeep).
    exists db'. split; [|repeat split].
    + unfold bind at 1. unfold bind at 1. unfold recountDescendantCount, gets.
      cbv beta iota. fold n.
      unfold Page_findByIdAndUpdate, Page_updateOne, modify, Page_findById, Page_findOne,
        gets, ret, bind. fold db1. cbv beta iota.
      unfold bind in Hrun. exact Hrun.
    + rewrite Hf. unfold db1. cbn [pages with_pages]. apply forgetCounts_updateFirst.
    + now rewrite Ho.
    + now rewrite Hr.
    + now rewrite Hn.
    + now rewrite He.
    + intros p Hp Hother. apply Hkeep.
      * unfold db1. cbn [pages with_pages]. apply In_updateFirst_other; [exact Hp|].
        unfold has_id. apply Nat.eqb_neq. intro Heq.
        apply (Hother d (or_introl eq_refl)). now symmetry.
      * intros d' Hd'. apply Hother. now right.
Qed.


(** ** [renamePage] to a path under a parent that is in the tree *)

Lemma updateFirst_twice (f : Page -> bool) (u1 u2 : Page -> Page) (ps : list Page)
      (p : Page) :
  List.find f ps = Some p -> f (u1 p) = true ->
  updateFirst f u2 (updateFirst f u1 ps) = updateFirst f (fun _ => u2 (u1 p)) ps.
Proof.
  intros Hfind Hu. induction ps as [|q ps IH]; [discriminate|].
  cbn [List.find updateFirst] in *. destruct (f q) eqn:Hq.
  - injection Hfind as ->. cbn [updateFirst]. now rewrite Hu.
  - cbn [updateFirst]. rewrite Hq. f_equal. now apply IH.
Qed.

Lemma filter_updateFirst_found (f g : Page -> bool) (u : Page -> Page) (ps : list Page)
      (p : Page) :
  List.find f ps = Some p -> g p = false -> g (u p) = false ->
  filter g (updateFirst f u ps) = filter g ps.
Proof.
  intros Hfind Hg Hgu. induction ps as [|q ps IH]; [discriminate|].
  cbn [List.find updateFirst] in *. destruct (f q) eqn:Hq.
  - injection Hfind as ->. cbn [filter]. now rewrite Hg, Hgu.
  - cbn [filter]. destruct (g q); [f_equal|]; now apply IH.
Qed.

Lemma isRenamingToUnderTarget_run (fromPath_ toPath_ : string) (db : DB) :
  isRenamingToUnderTarget fromPath_ toPath_ db
  = (Ok (startsWith true (list_ascii_of_string (addTrailingSlash fromPath_))
                    (list_ascii_of_string toPath_)), db).
Proof.
  unfold isRenamingToUnderTarget, bind. rewrite newRegExp_escaped. unfold ret.
  now rewrite exec_escaped.
Qed.

Lemma find_op_app_fresh (id : ObjectId) (ops : list PageOperation) (op : PageOperation) :
  (forall o, In o ops -> op_id o <> id) -> op_id op = id ->
  map (fun o => if op_id o =? id then set_actionStage Sub o else o) (ops ++ [op])
  = ops ++ [set_actionStage Sub op]
  /\ List.find (fun o => op_id o =? id) (ops ++ [set_actionStage Sub op])
     = Some (set_actionStage Sub op).
Proof.
  intros Hops Hid. induction ops as [|o ops IH].
  - cbn. rewrite Hid, Nat.eqb_refl. now split.
  - assert (Ho : (op_id o =? id) = false)
      by (apply Nat.eqb_neq, Hops; now left).
    destruct IH as [IH1 IH2]; [intros o' Ho'; apply Hops; now right|].
    cbn [map app List.find]. rewrite Ho. split; [now f_equal | exact IH2].
Qed.

Lemma renameMainOperation_run
      (crowi : Crowi) (omitUndefined : bool) (page : Page) (newPagePath : string)
      (user : option User) (options : RenameOptions) (pageOpId : ObjectId) (db : DB)
      (par : Page) (others : list Page) (ops : list PageOperation) (op : PageOperation) :
  let newPath := xss_process crowi newPagePath in
  let renamed := renamedPage newPath user options par page in
  isEmptyPage page = false ->
  (isRestricted (grant page) = false ->
   isGrantNormalized crowi (pages db) user newPath (grant page) (Some (grantedUsers page))
                     (grantedGroup page) false = true) ->
  List.find (has_id (_id page)) (pages db) = Some page ->
  startsWith true (list_ascii_of_string (addTrailingSlash (path page)))
             (list_ascii_of_string newPath) = false ->
  path page <> dirname newPath ->
  filter (fun p => String.eqb (path p) (dirname newPath) && conditionAsMigrated p) (pages db)
  = par :: others ->
  pageOperations db = ops ++ [op] ->
  (forall o, In o ops -> op_id o <> pageOpId) ->
  op_id op = pageOpId ->
  renameMainOperation crowi omitUndefined page newPagePath user options pageOpId db
  = if createRedirectPage options
       && existsb (fun r => String.eqb (redirect_fromPath r) (path page)) (pageRedirects db)
    then (Throw DuplicateKey,
          mkDB (updateFirst (has_id (_id page)) (fun _ => renamed) (pages db))
               (ops ++ [op]) (pageRedirects db) (nextId db) (events db))
    else (Ok (Some renamed),
          mkDB (updateFirst (has_id (_id page)) (fun _ => renamed) (pages db))
               (ops ++ [set_actionStage Sub op])
               (if createRedirectPage options
                then pageRedirects db ++ [mkPageRedirect (path page) newPath]
                else pageRedirects db)
               (nextId db)
               (events db ++ [EvPage "rename" (Some page)])).
Proof.
  intros newPath renamed Hne Hnorm Hstored Hunder Hpath Hparent Hdbops Hops Hid.
  assert (Hid_renamed : has_id (_id page) renamed = true).
  { unfold renamed, renamedPage, has_id. destruct (updateMetadata options); cbn;
      apply Nat.eqb_refl. }
  assert (Hg : (String.eqb (path page) (dirname newPath) && conditionAsMigrated page)
               = false)
    by (apply andb_false_iff; left; now apply String.eqb_neq).
  unfold renameMainOperation. fold newPath.
  unfold effectiveGrant. rewrite Hne.
  unfold bind at 1. unfold ret at 1. cbv beta iota.
  match goal with |- (bind ?m _) db = _ => assert (HA : m db = (Ok tt, db)) end.
  { destruct (isRestricted (grant page)); cbn [negb]; [reflexivity|].
    unfold bind, gets. now rewrite Hnorm. }
  unfold bind at 1. rewrite HA. clear HA.
  set (db1 := with_pages (updateFirst (has_id (_id page)) (set_parent None) (pages db)) db).
  unfold bind at 1. change (takeOffFromTree (_id page) db) with (Ok tt, db1).
  cbv beta iota.
  unfold bind at 1. rewrite isRenamingToUnderTarget_run, Hunder.
  assert (HD : getParentAndFillAncestors crowi newPath user db1 = (Ok (Some par), db1)).
  { unfold getParentAndFillAncestors. unfold bind at 1. unfold Page_find, gets.
    cbv beta iota. unfold db1 at 1 2. unfold with_pages at 1 2. cbn [pages].
    rewrite (filter_updateFirst_found (has_id (_id page))
               (fun p => String.eqb (path p) (dirname newPath) && conditionAsMigrated p)
               (set_parent None) (pages db) page Hstored Hg), Hparent
      by (apply andb_false_iff; left; now apply String.eqb_neq).
    reflexivity. }
  unfold bind at 1. rewrite HD. clear HD.
  unfold bind at 1. cbn [deref]. unfold ret at 1.
  set (db2 := with_pages (updateFirst (has_id (_id page)) (fun _ => renamed) (pages db)) db).
  match goal with |- (bind ?m _) db1 = _ =>
    assert (HF : m db1 = (Ok (Some renamed), db2)) end.
  { unfold Page_findByIdAndUpdate, Page_updateOne, Page_findById, Page_findOne, modify,
      gets, bind. unfold db1, db2, with_pages. cbn [pages pageOperations pageRedirects nextId events].
    rewrite (updateFirst_twice _ _ _ _ page Hstored) by (unfold has_id; cbn; apply Nat.eqb_refl).
    assert (Hren : (if updateMetadata options
                    then set_lastUpdateUser (user_id_of user)
                           (set_parent (Some (_id par))
                              (set_path newPath (set_parent None page)))
                    else set_parent (Some (_id par))
                           (set_path newPath (set_parent None page))) = renamed).
    { unfold renamed, renamedPage. destruct (updateMetadata options); reflexivity. }
    rewrite Hren.
    now rewrite (find_updateFirst_same _ (fun _ => renamed) _ page Hstored Hid_renamed). }
  unfold bind at 1. rewrite HF. clear HF.
  unfold PageRedirect_create, emit, PageOperation_findByIdAndUpdatePageActionStage,
    modify, gets, ret, bind.
  unfold db2, with_pages. cbn [pages pageOperations pageRedirects nextId events].
  destruct (find_op_app_fresh pageOpId ops op Hops Hid) as [Hmap Hfind].
  destruct (createRedirectPage options);
    cbv beta iota; cbn [andb pages pageOperations pageRedirects nextId events];
    [destruct (existsb _ (pageRedirects db))|];
    cbv beta iota; cbn [pages pageOperations pageRedirects nextId events];
    rewrite ?Hdbops, ?Hmap, ?Hfind; reflexivity.
Qed.

(** [renamePage] in the v5 process and not in move mode, for a stored page
    that is not empty and not the top page, to a path that has no page and
    is not under the page, when the operation and the grant are let through
    and a page in the tree is at the new parent path: the page is stored, in
    its place, with the sanitized new path under the earliest such parent
    (and the user as the last updater when the metadata are to be updated),
    and no other page changes.  The call then returns that page, leaves the
    operation it records, with the path as given, in the stage [Sub], writes
    the redirect when asked for and emits the rename; but when a redirect is
    asked for and one from the old path is stored already, its creation
    fails and nothing catches that: the call throws after the page is moved,
    and leaves its operation in the stage [Main].  This is the state the
    call ends in: the sub operation, which it starts and does not await, has
    then still to move the descendants and the counts. *)
Theorem renamePage_moves_the_page
        (crowi : Crowi) (omitUndefined : bool) (page : Page) (newPagePath : string)
        (user : option User) (options : RenameOptions) (db : DB)
        (par : Page) (others : list Page) :
  let newPath := xss_process crowi newPagePath in
  let renamed := renamedPage newPath user options par page in
  let moved := updateFirst (has_id (_id page)) (fun _ => renamed) (pages db) in
  let operation stage :=
    mkPageOperation (nextId db) Rename stage page (path page) (Some newPagePath) in
  (forall p, In p (pages db) -> path p <> newPagePath) ->
  isTopPage (path page) = false ->
  shouldUseV4Process crowi page = false ->
  isMoveMode options = false ->
  canOperate crowi (pageOperations db) true (Some (path page)) (Some newPagePath) = true ->
  isEmptyPage page = false ->
  isGrantNormalized crowi (pages db) user newPath (grant page) (Some (grantedUsers page))
                    (grantedGroup page) false = true ->
  List.find (has_id (_id page)) (pages db) = Some page ->
  startsWith true (list_ascii_of_string (addTrailingSlash (path page)))
             (list_ascii_of_string newPath) = false ->
  path page <> dirname newPath ->
  filter (fun p => String.eqb (path p) (dirname newPath) && conditionAsMigrated p) (pages db)
  = par :: others ->
  (forall op, In op (pageOperations db) -> op_id op <> nextId db) ->
  renamePage crowi omitUndefined page newPagePath user options db
  = if createRedirectPage options
       && existsb (fun r => String.eqb (redirect_fromPath r) (path page)) (pageRedirects db)
    then (Throw DuplicateKey,
          mkDB moved (pageOperations db ++ [operation Main]) (pageRedirects db)
               (S (nextId db)) (events db))
    else (Ok (Some renamed),
          mkDB moved (pageOperations db ++ [operation Sub])
               (if createRedirectPage options
                then pageRedirects db ++ [mkPageRedirect (path page) newPath]
                else pageRedirects db)
               (S (nextId db))
               (events db ++ [EvPage "rename" (Some page)])).
Proof.
  intros newPath renamed moved operation Hfree Htop Hv5 Hmove Hop Hne Hnorm Hstored Hunder
         Hpath Hparent Hops.
  unfold renamePage. unfold bind at 1. unfold Page_exists, gets. cbv beta iota.
  rewrite existsb_no_match
    by (intros p Hp; apply String.eqb_neq; now apply Hfree).
  rewrite Htop, Hv5, Hmove.
  unfold bind at 1. unfold ret at 1. cbv beta iota.
  unfold bind at 1. cbv beta iota. rewrite Hop. cbn [negb].
  set (op := operation Main).
  set (db1 := mkDB (pages db) (pageOperations db ++ [op]) (pageRedirects db)
                   (S (nextId db)) (events db)).
  unfold bind at 1.
  change (PageOperation_create Rename Main page (path page) (Some newPagePath) db)
    with (Ok op, db1).
  cbv beta iota.
  rewrite (renameMainOperation_run crowi omitUndefined page newPagePath user options
             (op_id op) db1 par others (pageOperations db) op);
    try assumption; try reflexivity.
  intros _. exact Hnorm.
Qed.

Lemma renamePage_moves_the_page_witness :
  fst (renamePage (exampleCrowi true) false examplePageB "/c" (Some exampleUser)
                  (mkRenameOptions false true true false) exampleDB)
  = Ok (Some (renamedPage "/c" (Some exampleUser) (mkRenameOptions false true true false)
                          exampleRoot examplePageB)).
Proof.
  rewrite (renamePage_moves_the_page
             (exampleCrowi true) false examplePageB "/c" (Some exampleUser)
             (mkRenameOptions false true true false) exampleDB exampleRoot []);
    try reflexivity.
  - intros p Hp. cbn in Hp. destruct Hp as [<- | [<- | [<- | []]]]; discriminate.
  - discriminate.
  - intros op [].
Defined.

(** ** A page that becomes restricted *)

Lemma find_updateAll_id (k : ObjectId) (f : Page -> bool) (u : Page -> Page)
      (ps : list Page) :
  (forall p, _id (u p) = _id p) ->
  List.find (has_id k) (updateAll f u ps)
  = option_map (fun y => if f y then u y else y) (List.find (has_id k) ps).
Proof.
  intro Hu. unfold updateAll. induction ps as [|p ps IH]; [reflexivity|].
  cbn [map List.find]. unfold has_id at 1 3.
  replace (_id (if f p then u p else p)) with (_id p)
    by (destruct (f p); [now rewrite Hu | reflexivity]).
  destruct (_id p =? k); [reflexivity | exact IH].
Qed.

Lemma find_snoc_other (g : Page -> bool) (ps : list Page) (x : Page) :
  g x = false -> List.find g (ps ++ [x]) = List.find g ps.
Proof.
  intro Hx. induction ps as [|p ps IH]; cbn [app List.find].
  - now rewrite Hx.
  - destruct (g p); [reflexivity | exact IH].
Qed.

Lemma find_removeAll (f g : Page -> bool) (ps : list Page) (p : Page) :
  List.find f ps = Some p -> g p = false -> List.find f (removeAll g ps) = Some p.
Proof.
  intros Hfind Hg. unfold removeAll. induction ps as [|q ps IH]; [discriminate|].
  cbn [List.find filter] in *. destruct (f q) eqn:Hq.
  - injection Hfind as ->. rewrite Hg. cbn [negb List.find]. now rewrite Hq.
  - destruct (negb (g q)); cbn [List.find]; [rewrite Hq|]; now apply IH.
Qed.

(** The walk from a page is the same in two collections that give the same
    parent to the page and to each page of the walk. *)
Lemma AncestorChain_ext (ps ps' : list Page) (target : Page) (chain : list Page) :
  AncestorChain ps target chain ->
  (forall x, In x (target :: chain) -> parentOf ps' x = parentOf ps x) ->
  AncestorChain ps' target chain.
Proof.
  induction 1 as [t Ht | t par rest Ht Hrest IH]; intro Hsame.
  - apply AncestorChain_top. rewrite Hsame by now left. exact Ht.
  - apply AncestorChain_up.
    + rewrite Hsame by now left. exact Ht.
    + apply IH. intros x Hx. apply Hsame. now right.
Qed.

Lemma count_positive (f : Page -> bool) (ps : list Page) :
  (0 <? List.length (filter f ps)) = existsb f ps.
Proof.
  induction ps as [|p ps IH]; [reflexivity|].
  cbn [filter existsb]. destruct (f p); [reflexivity | exact IH].
Qed.

Lemma existsb_ext_all (f g : Page -> bool) (ps : list Page) :
  (forall p, f p = g p) -> existsb f ps = existsb g ps.
Proof.
  intro H. induction ps as [|p ps IH]; [reflexivity|]. cbn [existsb]. now rewrite H, IH.
Qed.

Lemma existsb_id_updateAll (k : ObjectId) (f : Page -> bool) (u : Page -> Page)
      (ps : list Page) :
  (forall p, _id (u p) = _id p) ->
  existsb (has_id k) (updateAll f u ps) = existsb (has_id k) ps.
Proof.
  intro H. induction ps as [|p ps IH]; [reflexivity|].
  cbn [updateAll map existsb]. fold (updateAll f u ps). rewrite IH. f_equal.
  unfold has_id. destruct (f p); [now rewrite H | reflexivity].
Qed.

Lemma In_updateAll_other (f : Page -> bool) (u : Page -> Page) (ps : list Page)
      (p : Page) :
  In p ps -> f p = false -> In p (updateAll f u ps).
Proof.
  intros Hin Hf. unfold updateAll. apply in_map_iff. exists p. now rewrite Hf.
Qed.

Lemma id_in_same_id (ids : list ObjectId) (p q : Page) :
  _id p = _id q -> id_in ids p = id_in ids q.
Proof. intro H. unfold id_in. now rewrite H. Qed.

Lemma updateFirst_const_twice (f : Page -> bool) (a b : Page) (ps : list Page) :
  f a = true ->
  updateFirst f (fun _ => b) (updateFirst f (fun _ => a) ps) = updateFirst f (fun _ => b) ps.
Proof.
  intro Ha. induction ps as [|p ps IH]; [reflexivity|].
  cbn [updateFirst]. destruct (f p) eqn:Hp; cbn [updateFirst].
  - now rewrite Ha.
  - rewrite Hp. now f_equal.
Qed.

Lemma Page_save_stored_run (p : Page) (db : DB) :
  existsb (has_id (_id p)) (pages db) = true ->
  Page_save p db
  = (Ok p, with_pages (updateFirst (has_id (_id p)) (fun _ => p) (pages db)) db).
Proof.
  intro Hex. unfold Page_save, modify, ret, bind. now rewrite Hex.
Qed.

Lemma existsb_updateFirst_const (p : Page) (ps : list Page) :
  existsb (has_id (_id p)) ps = true ->
  existsb (has_id (_id p)) (updateFirst (has_id (_id p)) (fun _ => p) ps) = true.
Proof.
  intro Hex. apply existsb_has_id. rewrite map_id_updateFirst.
  - now apply existsb_has_id.
  - intros q _ Hq. unfold has_id in Hq. apply Nat.eqb_eq in Hq. now symmetry.
Qed.

(** The two saves of [updatePage]: the page, then the page with its new
    revision. *)
Lemma pushRevision_after_save (p1 : Page) (body : string) (user : option User) (db : DB) :
  existsb (has_id (_id p1)) (pages db) = true ->
  let page := set_lastUpdateUser (user_id_of user) (set_revision (Some body) p1) in
  pushRevision p1 body user
               (with_pages (updateFirst (has_id (_id p1)) (fun _ => p1) (pages db)) db)
  = (Ok page, with_pages (updateFirst (has_id (_id p1)) (fun _ => page) (pages db)) db).
Proof.
  intros Hex page. unfold pushRevision. fold page.
  rewrite Page_save_stored_run; change (_id page) with (_id p1);
    cbn [pages with_pages]; [|now apply existsb_updateFirst_const].
  unfold with_pages. cbn [pages pageOperations pageRedirects nextId events].
  rewrite updateFirst_const_twice by (unfold has_id; apply Nat.eqb_refl).
  reflexivity.
Qed.

(** The stored parent of a page of a walk is the next page of the walk. *)
Lemma AncestorChain_parent_in (ps : list Page) (target : Page) (chain : list Page)
      (x q : Page) :
  AncestorChain ps target chain -> In x (target :: chain) -> parentOf ps x = Some q ->
  In q chain.
Proof.
  intros Hc [<- | Hx] Hq.
  - inversion Hc as [t Ht | t par0 rest Ht Hrest]; subst; [congruence|].
    rewrite Hq in Ht. injection Ht as <-. now left.
  - destruct (AncestorChain_from _ _ _ _ Hc Hx) as (before & after & -> & Ha).
    inversion Ha as [t Ht | t par0 rest Ht Hrest]; subst; [congruence|].
    rewrite Hq in Ht. injection Ht as <-.
    apply in_or_app. right. right. now left.
Qed.

Lemma updatePage_off_the_tree
      (crowi : Crowi) (pageData : Page) (body previousBody : string) (u : User)
      (options : PageCreateOptions) (db : DB) (par : Page) (chain : list Page) :
  let user := Some u in
  let grant_ := grantOr (opt_grant options) (grant pageData) in
  let grantUserGroupId := nullish (opt_grantUserGroupId options) (grantedGroup pageData) in
  let page := pageOffTree user grant_ grantUserGroupId body pageData in
  let placeholder :=
    emptyPageOf (nextId db) (path pageData) (parent pageData) (Some (user_id u))
                (descendantCount pageData) in
  isSetUp crowi = true ->
  shouldUseUpdatePageV4 (grant pageData) (isV5Compatible crowi)
                        (negb (parent_is_null pageData) || isTopPage (path pageData))
  = false ->
  isRestricted grant_ = true ->
  NoDup (map _id (pages db)) ->
  FreshIds db ->
  Stored pageData db ->
  isEmptyPage pageData = false ->
  isTopPage (path pageData) = false ->
  (forall q, In q (pages db) -> parent q <> Some (nextId db)) ->
  (parent pageData <> None ->
   parentOf (pages db) pageData = Some par /\ AncestorChain (pages db) par chain) ->
  exists db2,
    updatePage crowi pageData body previousBody user options db = (Ok page, db2)
    /\ Stored page db2
    /\ match parent pageData with
       | None =>
           pages db2 = updateFirst (has_id (_id pageData)) (fun _ => page) (pages db)
           /\ nextId db2 = nextId db
       | Some _ =>
           if hasDescendantInTree pageData (pages db)
           then pages db2
                = updateAll (id_in (map _id (par :: chain)))
                            (fun p => set_descendantCount (descendantCount p + -1)%Z p)
                            (updateFirst (has_id (_id pageData)) (fun _ => page)
                               (updateAll (has_parent (_id pageData))
                                          (set_parent (Some (nextId db))) (pages db)
                                ++ [placeholder]))
                /\ nextId db2 = S (nextId db)
                /\ In placeholder (pages db2)
                /\ (forall child, In child (pages db) ->
                                  parent child = Some (_id pageData) ->
                                  In (set_parent (Some (nextId db)) child) (pages db2))
           else exists ids,
                  pages db2
                  = removeAll (id_in ids)
                      (updateAll (id_in (map _id (par :: chain)))
                                 (fun p => set_descendantCount (descendantCount p + -1)%Z p)
                                 (updateFirst (has_id (_id pageData)) (fun _ => page)
                                              (pages db)))
                  /\ (forall i, In i ids ->
                                exists q, In q (pages db) /\ _id q = i
                                          /\ isEmptyPage q = true)
                  /\ nextId db2 = nextId db
       end.
Proof.
  intros user grant_ grantUserGroupId page placeholder Hset Hv4 Hr Hnd Hfresh Hstored Hne
         Htop Hdangling Hchain.
  unfold updatePage. rewrite Hset. cbn [negb]. rewrite Hv4. rewrite Htop, orb_false_r.
  fold grant_ grantUserGroupId. subst user. cbn [deref].
  unfold bind at 1. unfold ret at 1. cbv beta iota.
  unfold bind at 1. rewrite newRegExp_escaped. cbv beta iota.
  unfold bind at 1. unfold Page_count, gets. cbv beta iota.
  rewrite count_positive.
  rewrite (existsb_ext_all _ (fun p =>
             startsWith false (list_ascii_of_string (addTrailingSlash (path pageData)))
                        (list_ascii_of_string (path p))
             && negb (parent_is_null p)))
    by (intro p; now rewrite exec_escaped).
  fold (hasDescendantInTree pageData (pages db)).
  rewrite Hr. cbn [negb andb]. rewrite ?andb_false_r, ?andb_true_r. cbn [negb].
  assert (Hex : existsb (has_id (_id pageData)) (pages db) = true).
  { apply existsb_exists. exists pageData. split; [now apply Stored_In|].
    unfold has_id. apply Nat.eqb_refl. }
  set (p1 := applyScope (Some u) grant_ grantUserGroupId
               (set_descendantCount 0 (set_parent None pageData))).
  assert (Hpage : page = set_lastUpdateUser (user_id_of (Some u))
                           (set_revision (Some body) p1)) by reflexivity.
  assert (Hgrant : isRestricted (grant page) = true).
  { unfold page, pageOffTree. clearbody grant_. destruct grant_ as [n|]; [|discriminate].
    cbn in Hr. apply Nat.eqb_eq in Hr. subst n. reflexivity. }
  assert (Hnotempty : isEmptyPage page = false) by exact Hne.
  destruct (parent pageData) as [pid|] eqn:Hparent.
  2: { (* the page was not in the tree *)
    unfold parent_is_null. rewrite Hparent. cbn [negb andb].
    unfold bind at 1. unfold bind at 1. unfold ret at 1. unfold ret at 1. cbv beta iota.
    fold p1.
    unfold bind at 1. rewrite (Page_save_stored_run p1 db Hex).
    unfold bind at 1. rewrite (pushRevision_after_save p1 body (Some u) db Hex).
    rewrite <- Hpage. change (_id p1) with (_id pageData).
    unfold emit, modify, ret, bind. cbn [pages with_pages pageOperations pageRedirects nextId events].
    eexists. split; [reflexivity|]. cbn [pages nextId with_pages].
    split; [|split; reflexivity].
    unfold Stored. cbn [pages]. change (_id page) with (_id pageData).
    apply find_updateFirst_const; [apply Nat.eqb_refl | exact Hex]. }
  (* the page was in the tree *)
  destruct (Hchain ltac:(discriminate)) as [Hpar Hch]. clear Hchain.
  set (id := _id pageData) in *.
  set (n := nextId db) in *.
  destruct (parentOf_stored _ _ _ Hpar) as [Hparin Hpid].
  rewrite Hparent in Hpid. injection Hpid as Hpid.
  assert (Hfull : AncestorChain (pages db) pageData (par :: chain))
    by (now apply AncestorChain_up).
  pose proof (AncestorChain_not_self _ _ _ Hfull) as Hnotself.
  assert (Hstoredchain : forall x, In x (par :: chain) -> In x (pages db)).
  { intros x [<- | Hx]; [exact Hparin|]. now apply (AncestorChain_stored _ _ _ Hch). }
  assert (Hfindpage : forall k, k = id -> List.find (has_id k) (pages db) = Some pageData)
    by (intros k ->; exact Hstored).
  assert (Hnotchild : forall x, In x (par :: chain) -> has_parent id x = false).
  { intros x Hx. apply not_true_is_false. intro Hp. unfold has_parent, opt_id_eqb in Hp.
    destruct (parent x) as [k|] eqn:Hk; [|discriminate]. apply Nat.eqb_eq in Hp.
    assert (Hq : parentOf (pages db) x = Some pageData).
    { unfold parentOf. rewrite Hk. now apply Hfindpage. }
    apply Hnotself.
    apply (AncestorChain_parent_in _ _ _ x pageData Hfull); [now right | exact Hq]. }
  assert (Hnotin : id_in (map _id (par :: chain)) page = false).
  { apply not_true_is_false. intro Hin. unfold id_in in Hin.
    apply existsb_exists in Hin. destruct Hin as [k [Hk Heq]]. apply Nat.eqb_eq in Heq.
    apply in_map_iff in Hk. destruct Hk as [x [Hx Hxin]].
    apply Hnotself.
    replace pageData with x; [exact Hxin|].
    apply (NoDup_same_id (pages db)); auto using Stored_In.
    rewrite Hx, <- Heq. reflexivity. }
  assert (Hpidid : pid <> id).
  { intro Heq. apply Hnotself. left.
    apply (NoDup_same_id (pages db)); auto using Stored_In.
    rewrite <- Hpid. exact Heq. }
  assert (Hpidn : pid <> n).
  { intro Heq. apply (Hdangling pageData (Stored_In _ _ Hstored)). now rewrite Hparent, Heq. }
  assert (Hfindpar : List.find (has_id pid) (pages db) = Some par).
  { unfold parentOf in Hpar. now rewrite Hparent in Hpar. }
  unfold parent_is_null. rewrite Hparent. cbn [negb andb].
  change (user_id_of (Some u)) with (Some (user_id u)).
  destruct (hasDescendantInTree pageData (pages db)) eqn:Hd; cbn [negb].
  - (* descendants remain in the tree: a placeholder takes the page's place *)
    unfold bind at 1. cbv beta. unfold bind at 1. cbv beta. unfold bind at 1. cbv beta.
    rewrite (createEmptyPage_fresh (path pageData) pid (Some (user_id u)) (descendantCount pageData) db Hfresh).
    fold n. fold placeholder.
    change (_id placeholder) with n.
    unfold Page_updateMany, modify. cbv beta iota. unfold ret at 1. cbv beta iota.
    cbn [pages with_pages pageOperations pageRedirects nextId events].
    assert (Hph : has_parent id placeholder = false).
    { unfold has_parent, opt_id_eqb, placeholder. cbn [parent emptyPageOf].
      now apply Nat.eqb_neq. }
    replace (updateAll (has_parent id) (set_parent (Some n)) (pages db ++ [placeholder]))
      with (updateAll (has_parent id) (set_parent (Some n)) (pages db) ++ [placeholder])
      by (unfold updateAll; rewrite map_app; cbn [map]; now rewrite Hph).
    set (psB := updateAll (has_parent id) (set_parent (Some n)) (pages db) ++ [placeholder]).
    set (dbB := mkDB psB (pageOperations db) (pageRedirects db) (S n) (events db)).
    assert (HexB : existsb (has_id (_id p1)) (pages dbB) = true).
    { cbn [pages dbB]. unfold psB. rewrite existsb_app. apply orb_true_iff. left.
      rewrite existsb_id_updateAll by reflexivity. exact Hex. }
    fold p1. unfold bind at 1. cbv beta.
    change (with_pages psB _) with dbB.
    rewrite (Page_save_stored_run p1 dbB HexB).
    unfold bind at 1. rewrite (pushRevision_after_save p1 body (Some u) dbB HexB).
    rewrite <- Hpage. change (_id p1) with id. rewrite Hgrant.
    cbn [pages dbB].
    set (psC := updateFirst (has_id id) (fun _ : Page => page) psB).
    set (dbC := mkDB psC (pageOperations db) (pageRedirects db) (S n)
                     (events db ++ [EvPage "update" (Some page)])).
    assert (Hsame : forall k, k <> id -> k <> n ->
                (forall y, List.find (has_id k) (pages db) = Some y -> has_parent id y = false) ->
                List.find (has_id k) psC = List.find (has_id k) (pages db)).
    { intros k Hk1 Hk2 Hy. unfold psC, psB.
      rewrite find_updateFirst_other_id by (auto; intros p Hp; now apply Nat.eqb_eq in Hp).
      rewrite find_snoc_other by (now apply Nat.eqb_neq; cbn; auto).
      rewrite find_updateAll_id by reflexivity.
      destruct (List.find (has_id k) (pages db)) as [y|] eqn:Hf; [|reflexivity].
      cbn [option_map]. now rewrite (Hy y eq_refl). }
    assert (HfindparC : fst (Page_findById (Some pid) dbC) = Ok (Some par)).
    { unfold Page_findById, Page_findOne, gets. cbn [fst pages dbC].
      rewrite Hsame; auto; [now rewrite Hfindpar|].
      intros y Hy. rewrite Hfindpar in Hy. injection Hy as <-. apply Hnotchild. now left. }
    assert (HchC : AncestorChain psC par chain).
    { apply (AncestorChain_ext (pages db)); [exact Hch|].
      intros x Hx. unfold parentOf.
      destruct (parent x) as [k|] eqn:Hk; [|reflexivity].
      assert (Hxin : In x (par :: chain)) by exact Hx.
      apply Hsame.
      - intro Heq. pose proof (Hnotchild x Hxin) as Hc.
        unfold has_parent, opt_id_eqb in Hc. rewrite Hk in Hc.
        apply Nat.eqb_neq in Hc. congruence.
      - intro Heq. apply (Hdangling x (Hstoredchain x Hxin)). now rewrite Hk, Heq.
      - intros y Hy. apply Hnotchild. right.
        apply (AncestorChain_parent_in (pages db) par chain x y Hch Hx).
        unfold parentOf. now rewrite Hk. }
    pose proof (updateDescendantCountOfAncestors_run (Some pid) (-1) true dbC par chain
                  HfindparC HchC) as Hrun.
    eexists.
    split.
    { change (with_pages psC dbB)
        with (mkDB psC (pageOperations db) (pageRedirects db) (S n) (events db)).
      unfold bind at 1. unfold emit at 1, modify at 1. cbv beta iota.
      cbn [pages pageOperations pageRedirects nextId events]. fold dbC.
      unfold bind at 1. unfold ret at 1. cbv beta iota.
      unfold bind at 1. rewrite Hrun. cbv beta iota.
      unfold bind, ret. reflexivity. }
    cbn [pages nextId dbC app]. split; [|split; [reflexivity|split; [reflexivity|split]]].
    + unfold Stored. cbn [pages].
      rewrite find_updateAll_id by reflexivity.
      change (_id page) with id.
      assert (HfindC : List.find (has_id id) psC = Some page).
      { unfold psC. apply find_updateFirst_const; [apply Nat.eqb_refl | exact HexB]. }
      rewrite HfindC. cbn [option_map]. now rewrite Hnotin.
    + (* the placeholder is stored *)
      apply In_updateAll_other.
      * apply In_updateFirst_other.
        -- unfold psB. apply in_or_app. right. now left.
        -- apply Nat.eqb_neq. change (_id placeholder) with n.
           pose proof (Hfresh pageData (Stored_In _ _ Hstored)). fold id n in H. lia.
      * apply not_true_is_false. intro Hin. unfold id_in in Hin.
        apply existsb_exists in Hin. destruct Hin as [k [Hk Heq]]. apply Nat.eqb_eq in Heq.
        apply in_map_iff in Hk. destruct Hk as [x [Hx Hxin]].
        pose proof (Hfresh x (Hstoredchain x Hxin)). fold n in H.
        change (_id placeholder) with n in Heq. lia.
    + (* the children hang on the placeholder *)
      intros child Hchild Hcp.
      assert (Hcid : _id child <> id).
      { intro Heq. assert (child = pageData)
          by (apply (NoDup_same_id (pages db)); auto using Stored_In).
        subst child. rewrite Hparent in Hcp. congruence. }
      apply In_updateAll_other.
      * apply In_updateFirst_other.
        -- unfold psB. apply in_or_app. left. unfold updateAll. apply in_map_iff.
           exists child. split; [|exact Hchild].
           unfold has_parent, opt_id_eqb. rewrite Hcp. now rewrite Nat.eqb_refl.
        -- apply Nat.eqb_neq. exact Hcid.
      * rewrite (id_in_same_id _ (set_parent (Some n) child) child eq_refl).
        apply not_true_is_false. intro Hin. unfold id_in in Hin.
        apply existsb_exists in Hin. destruct Hin as [k [Hk Heq]]. apply Nat.eqb_eq in Heq.
        apply in_map_iff in Hk. destruct Hk as [x [Hx Hxin]].
        assert (x = child).
        { apply (NoDup_same_id (pages db)); auto. now rewrite Hx. }
        subst x. pose proof (Hnotchild child Hxin) as Hc.
        unfold has_parent, opt_id_eqb in Hc. rewrite Hcp, Nat.eqb_refl in Hc. discriminate.
  - (* no descendant remains in the tree *)
    unfold bind at 1. unfold bind at 1. unfold ret at 1. unfold ret at 1. cbv beta iota.
    fold p1.
    unfold bind at 1. rewrite (Page_save_stored_run p1 db Hex).
    unfold bind at 1. rewrite (pushRevision_after_save p1 body (Some u) db Hex).
    rewrite <- Hpage. change (_id p1) with id. rewrite Hgrant.
    set (psC := updateFirst (has_id id) (fun _ : Page => page) (pages db)).
    set (dbC := mkDB psC (pageOperations db) (pageRedirects db) n
                     (events db ++ [EvPage "update" (Some page)])).
    assert (HfindparC : fst (Page_findById (Some pid) dbC) = Ok (Some par)).
    { unfold Page_findById, Page_findOne, gets. cbn [fst pages dbC]. unfold psC.
      rewrite find_updateFirst_other_id
        by (auto; intros p Hp; now apply Nat.eqb_eq in Hp).
      now rewrite Hfindpar. }
    assert (HchC : AncestorChain psC par chain).
    { unfold psC. apply (AncestorChain_updateFirst (pages db) pageData); auto.
      - intros p Hp. now apply Nat.eqb_eq in Hp.
      - intro Hin. apply Hnotself. now right. }
    pose proof (updateDescendantCountOfAncestors_run (Some pid) (-1) true dbC par chain
                  HfindparC HchC) as Hrun.
    cbn [pages dbC app] in Hrun.
    set (psD := updateAll (id_in (map _id (par :: chain)))
                          (fun p => set_descendantCount (descendantCount p + -1)%Z p) psC) in *.
    match type of Hrun with _ = (_, ?d) => set (dbD := d) in * end.
    destruct (removeLeafEmptyPagesRecursively_run (Some pid) dbD) as (ids & Hrm & Hids).
    eexists.
    split.
    { change (with_pages psC db)
        with (mkDB psC (pageOperations db) (pageRedirects db) n (events db)).
      unfold bind at 1. unfold emit at 1, modify at 1. cbv beta iota.
      cbn [pages pageOperations pageRedirects nextId events]. fold dbC.
      unfold bind at 1. unfold ret at 1. cbv beta iota.
      unfold bind at 1. rewrite Hrun. cbv beta iota.
      unfold bind at 1. rewrite Hrm. cbv beta iota.
      unfold ret. reflexivity. }
    cbn [pages nextId with_pages dbD].
    split; [|exists ids; split; [reflexivity|split; [|reflexivity]]].
    2: { intros i Hi. destruct (Hids i Hi) as (q & Hq & Hqid & Hqe).
         cbn [pages dbD] in Hq. unfold psD in Hq.
         apply In_updateAll in Hq. destruct Hq as [q1 [Hq1 Heq1]].
         assert (Hq1' : _id q1 = i /\ isEmptyPage q1 = true).
         { subst q. destruct (id_in (map _id (par :: chain)) q1); auto. }
         destruct Hq1' as [Hq1id Hq1e].
         unfold psC in Hq1. apply In_updateFirst in Hq1.
         destruct Hq1 as [Hq1 | [p0 [_ [_ Hq1]]]].
         - exists q1. auto.
         - subst q1. congruence. }
    unfold Stored. cbn [pages with_pages dbD].
    assert (HfindC : List.find (has_id id) psC = Some page).
    { unfold psC. apply find_updateFirst_const; [apply Nat.eqb_refl | exact Hex]. }
    assert (HfindD : List.find (has_id id) psD = Some page).
    { unfold psD. rewrite find_updateAll_id by reflexivity.
      rewrite HfindC. cbn [option_map]. now rewrite Hnotin. }
    change (_id page) with id.
    apply find_removeAll; [exact HfindD|].
    apply not_true_is_false. intro Hin. unfold id_in in Hin.
    apply existsb_exists in Hin. destruct Hin as [k [Hk Heq]]. apply Nat.eqb_eq in Heq.
    destruct (Hids k Hk) as (q & Hq & Hqid & Hqe).
    cbn [pages dbD] in Hq.
    assert (HndD : NoDup (map _id psD)).
    { unfold psD, psC. rewrite map_id_updateAll by reflexivity.
      rewrite map_id_updateFirst; [exact Hnd|].
      intros p _ Hp. apply Nat.eqb_eq in Hp. exact (eq_sym Hp). }
    assert (q = page).
    { apply (NoDup_same_id psD); auto.
      - apply (find_some _ _ HfindD).
      - now rewrite Hqid, <- Heq. }
    subst q. congruence.
Qed.



(** ** The pattern of the v4 rename of the descendants *)

Lemma literal_of_literally (l : list ascii) :
  RegExp.literal_of (literally l RegExp.Eps) = Some l.
Proof.
  induction l as [|c l IH]; [reflexivity|].
  cbn [literally RegExp.literal_of]. now rewrite IH.
Qed.

(** The pattern [renameDescendantsWithStreamV4] builds from the path of
    the target is, for every path, a literal anchored at the start, and
    [replace] with it always gives a string: a path that begins with the
    path of the target, the case of the letters aside, has that beginning
    replaced by the new prefix, in which the [$] patterns are substituted;
    any other path is returned as it is. *)
Lemma renameDescendants_pattern_replaces_the_prefix
      (targetPath pagePath newPagePathPrefix : string) (db : DB) :
  let lit := list_ascii_of_string targetPath in
  let s := list_ascii_of_string pagePath in
  exists pathRegExp,
    newRegExpObject ("^" ++ escapeStringRegexp targetPath) true db = (Ok pathRegExp, db)
    /\ String_replace pagePath pathRegExp newPagePathPrefix db
       = (Ok (string_of_list_ascii
                match RegExp.after_literal true lit s with
                | Some rest =>
                    RegExp.getSubstitution (firstn (List.length lit) s) [] rest
                                           (list_ascii_of_string newPagePathPrefix)
                    ++ rest
                | None => s
                end), db).
Proof.
  intros lit s. unfold newRegExpObject. rewrite compile_escaped.
  eexists. split; [reflexivity|].
  unfold String_replace, RegExp.replace.
  cbn [re_pattern re_ignoreCase RegExp.body RegExp.bol RegExp.eol].
  rewrite literal_of_literally. fold lit s.
  destruct s as [|d s']; cbn [RegExp.replace_first]; unfold RegExp.literal_here;
    destruct (RegExp.after_literal true lit _); reflexivity.
Qed.
